(** * SplinterDB: batched rwlock back-off and the TicToc transaction layer

    A shallow embedding of
    - [src/platform_linux/platform.c] (the batched reader-writer lock), and
    - [src/transaction_impl/transaction_fantasticc_nolock.h] (timestamp cache,
      read/write sets, commit and lookup of the transactional overlay),
    followed by the properties of the design document that concern them.

    Shared memory is explicit: every access to memory that other threads may
    write is preceded by one step of an interference schedule carried by the
    state, loops that wait on other threads take fuel, and every call to the
    underlying key-value store, every atomic access and every sleep is appended
    to a trace. *)

From stdpp Require Import gmap list.
From Stdlib Require Import ZArith Lia Sorted.

Local Open Scope Z_scope.

(* ===================================================================== *)
(** * Part I: the program                                                 *)
(* ===================================================================== *)

(** ** Machine integers *)

Definition UINT64_MAX : Z := 2 ^ 64 - 1.
Definition wrap64 (x : Z) : Z := x mod 2 ^ 64.

(** ** platform.c: [platform_batch_rwlock] *)

(** [write_lock[lock_idx]] and [read_counter[tid][lock_idx]]; a cell that was
    never written holds 0 ([platform_batch_rwlock_init] zeroes the lock). *)
Record platform_batch_rwlock := {
  write_lock : gmap Z Z;
  read_counter : gmap (Z * Z) Z
}.

Definition rwlock_zero : platform_batch_rwlock :=
  {| write_lock := ∅; read_counter := ∅ |}.

Definition get_write_lock (l : platform_batch_rwlock) (idx : Z) : Z :=
  default 0 (write_lock l !! idx).
Definition get_read_counter (l : platform_batch_rwlock) (tid idx : Z) : Z :=
  default 0 (read_counter l !! (tid, idx)).
Definition set_write_lock (l : platform_batch_rwlock) (idx v : Z) :=
  {| write_lock := <[idx := v]> (write_lock l); read_counter := read_counter l |}.
Definition set_read_counter (l : platform_batch_rwlock) (tid idx v : Z) :=
  {| write_lock := write_lock l;
     read_counter := <[(tid, idx) := v]> (read_counter l) |}.

(** The lock as one thread sees it: the lock word, the durations this thread
    has passed to [platform_sleep] (oldest first), and what the other threads
    do to the lock, one step before each access of this thread. *)
Record rw_state := {
  rw_lock : platform_batch_rwlock;
  rw_sleeps : list Z;
  rw_others : list (platform_batch_rwlock -> platform_batch_rwlock)
}.

Definition rw_interfere (s : rw_state) : rw_state :=
  match rw_others s with
  | [] => s
  | f :: rest =>
      {| rw_lock := f (rw_lock s); rw_sleeps := rw_sleeps s; rw_others := rest |}
  end.

Definition rw_update (f : platform_batch_rwlock -> platform_batch_rwlock)
    (s : rw_state) : rw_state :=
  {| rw_lock := f (rw_lock s); rw_sleeps := rw_sleeps s; rw_others := rw_others s |}.

Definition platform_sleep (wait : Z) (s : rw_state) : rw_state :=
  {| rw_lock := rw_lock s; rw_sleeps := rw_sleeps s ++ [wait];
     rw_others := rw_others s |}.

(** [wait = wait > 2048 ? wait : 2 * wait;] on a [uint64]. *)
Definition backoff (wait : Z) : Z :=
  if wait >? 2048 then wait else wrap64 (2 * wait).

(** [__sync_lock_test_and_set(&lock->write_lock[lock_idx], 1)]: the old value. *)
Definition test_and_set_write_lock (idx : Z) (s : rw_state) : rw_state * Z :=
  let s1 := rw_interfere s in
  (rw_update (fun l => set_write_lock l idx 1) s1, get_write_lock (rw_lock s1) idx).

Definition load_write_lock (idx : Z) (s : rw_state) : rw_state * Z :=
  let s1 := rw_interfere s in (s1, get_write_lock (rw_lock s1) idx).

Definition load_read_counter (tid idx : Z) (s : rw_state) : rw_state * Z :=
  let s1 := rw_interfere s in (s1, get_read_counter (rw_lock s1) tid idx).

(** [__sync_fetch_and_add] / [__sync_fetch_and_sub] on a [uint8] counter. *)
Definition fetch_and_add_read_counter (tid idx d : Z) (s : rw_state) : rw_state :=
  let s1 := rw_interfere s in
  rw_update (fun l => set_read_counter l tid idx
                        ((get_read_counter l tid idx + d) mod 256)) s1.

(** [while (probe) { platform_sleep(wait); wait = backoff; }]: the state when
    the probe first fails, or [None] when the fuel ran out while spinning. *)
Fixpoint spin_while (fuel : nat) (probe : rw_state -> rw_state * bool)
    (wait : Z) (s : rw_state) : rw_state * option unit :=
  match fuel with
  | O => (s, None)
  | S fuel' =>
      let '(s1, contended) := probe s in
      if contended
      then spin_while fuel' probe (backoff wait) (platform_sleep wait s1)
      else (s1, Some tt)
  end.

Definition probe_write_lock_tas (idx : Z) (s : rw_state) : rw_state * bool :=
  let '(s1, old) := test_and_set_write_lock idx s in (s1, negb (old =? 0)).

Definition probe_write_lock (idx : Z) (s : rw_state) : rw_state * bool :=
  let '(s1, v) := load_write_lock idx s in (s1, negb (v =? 0)).

(** The loop condition [i != tid && lock->read_counter[i][lock_idx] != 0];
    [skip = None] is the variant of [writelock], which has no [i != tid]. *)
Definition probe_reader (skip : option Z) (i idx : Z) (s : rw_state)
    : rw_state * bool :=
  if decide (skip = Some i) then (s, false)
  else let '(s1, v) := load_read_counter i idx s in (s1, negb (v =? 0)).

(** [for (i = 0; i < MAX_THREADS; i++) { while (...) {...} wait = 1; }] *)
Fixpoint wait_for_readers (fuel : nat) (skip : option Z) (tids : list Z)
    (idx : Z) (s : rw_state) : rw_state * option unit :=
  match tids with
  | [] => (s, Some tt)
  | i :: rest =>
      match spin_while fuel (probe_reader skip i idx) 1 s with
      | (s1, Some _) => wait_for_readers fuel skip rest idx s1
      | (s1, None) => (s1, None)
      end
  end.

Definition thread_ids (MAX_THREADS : Z) : list Z :=
  map Z.of_nat (seq 0 (Z.to_nat MAX_THREADS)).

Definition platform_batch_rwlock_try_writelock (fuel : nat) (MAX_THREADS tid : Z)
    (lock_idx : Z) (s : rw_state) : rw_state * option bool :=
  let '(s1, old) := test_and_set_write_lock lock_idx s in
  if negb (old =? 0) then (s1, Some false)
  else
    match wait_for_readers fuel (Some tid) (thread_ids MAX_THREADS) lock_idx s1 with
    | (s2, Some _) => (s2, Some true)
    | (s2, None) => (s2, None)
    end.

Definition platform_batch_rwlock_writelock (fuel : nat) (MAX_THREADS : Z)
    (lock_idx : Z) (s : rw_state) : rw_state * option unit :=
  match spin_while fuel (probe_write_lock_tas lock_idx) 1 s with
  | (s1, Some _) => wait_for_readers fuel None (thread_ids MAX_THREADS) lock_idx s1
  | (s1, None) => (s1, None)
  end.

(** [while (1) { wait = 1; while (write_lock) {...}; counter++;
                 if (!write_lock) return; counter--; }] *)
Fixpoint platform_batch_rwlock_readlock (fuel : nat) (tid lock_idx : Z)
    (s : rw_state) : rw_state * option unit :=
  match fuel with
  | O => (s, None)
  | S fuel' =>
      match spin_while (S fuel') (probe_write_lock lock_idx) 1 s with
      | (s1, None) => (s1, None)
      | (s1, Some _) =>
          let s2 := fetch_and_add_read_counter tid lock_idx 1 s1 in
          let '(s3, w) := load_write_lock lock_idx s2 in
          if w =? 0 then (s3, Some tt)
          else platform_batch_rwlock_readlock fuel' tid lock_idx
                 (fetch_and_add_read_counter tid lock_idx (-1) s3)
      end
  end.

(** The durations of one spin loop that sleeps [n] times. *)
Fixpoint backoff_run (n : nat) (wait : Z) : list Z :=
  match n with
  | O => []
  | S n' => wait :: backoff_run n' (backoff wait)
  end.


(** ** transaction_fantasticc_nolock.h: data *)

(** Modelled from the spec: [txn_timestamp] is declared in
    splinterdb/transaction.h, which is not among the sources at hand. The design
    document packs a tuple timestamp [{wts: 63b, delta: 64b, lock_bit: 1b}] into
    128 bits updated by one CAS, and [timestamp_set_compare_and_swap] exchanges
    exactly one [txn_timestamp]: a [txn_timestamp] is an unsigned 128-bit
    integer. *)
Definition txn_timestamp_bits : Z := 128.
Definition txn_wrap (x : Z) : Z := x mod 2 ^ txn_timestamp_bits.

(** [MAX(a, b)] of util.h. *)
Definition MAX (a b : Z) : Z := if a >? b then a else b.

(** The macros of experimental_mode.h and [KEY_SIZE], as the build fixes them. *)
Record build_macros := {
  EXPERIMENTAL_MODE_SILO : bool;
  EXPERIMENTAL_MODE_KEEP_ALL_KEYS : bool;
  EXPERIMENTAL_MODE_BYPASS_SPLINTERDB : bool;
  KEY_SIZE : nat
}.

(** A [slice]: the bytes it points to. *)
Definition slice := list Z.

Inductive message_type :=
| MESSAGE_TYPE_INVALID
| MESSAGE_TYPE_INSERT
| MESSAGE_TYPE_UPDATE
| MESSAGE_TYPE_DELETE.

#[global] Instance message_type_eq_dec : EqDecision message_type.
Proof. solve_decision. Defined.

Record message := {
  message_class : message_type;
  message_data : list Z
}.

#[global] Instance message_eq_dec : EqDecision message.
Proof. solve_decision. Defined.

Definition message_length (m : message) : nat := length (message_data m).
Definition message_slice (m : message) : slice := message_data m.
Definition message_create (c : message_type) (s : slice) : message :=
  {| message_class := c; message_data := s |}.

(** [struct tuple_header { is_ts_update : 1; delta : 64; wts : 63; value[] }] *)
Record tuple_header := {
  is_ts_update : bool;
  tuple_delta : Z;
  tuple_wts : Z
}.

(** [struct timestamp_set { lock_bit : 1; delta : 64; wts : 63 }] *)
Record timestamp_set := {
  lock_bit : bool;
  delta : Z;
  wts : Z
}.

#[global] Instance timestamp_set_eq_dec : EqDecision timestamp_set.
Proof. solve_decision. Defined.

(** [timestamp_set ts = {0}] *)
Definition timestamp_set_zero : timestamp_set :=
  {| lock_bit := false; delta := 0; wts := 0 |}.

(** Assignments to the bit-fields keep the low 64, 63 and 1 bits. *)
Definition set_lock_bit (v : timestamp_set) (b : bool) : timestamp_set :=
  {| lock_bit := b; delta := delta v; wts := wts v |}.
Definition set_delta (v : timestamp_set) (d : Z) : timestamp_set :=
  {| lock_bit := lock_bit v; delta := d mod 2 ^ 64; wts := wts v |}.
Definition set_wts (v : timestamp_set) (w : Z) : timestamp_set :=
  {| lock_bit := lock_bit v; delta := delta v; wts := w mod 2 ^ 63 |}.

(** [memcmp(s1, s2, sizeof(timestamp_set)) == 0] *)
Definition timestamp_set_is_equal (s1 s2 : timestamp_set) : bool :=
  bool_decide (s1 = s2).

(** [return ts->wts + ts->delta;] with the sum taken in [txn_timestamp], the
    declared type of the two bit-fields and of the result. A compiler that
    gives a bit-field the width of its field adds in 64 bits; the two readings
    agree as long as [wts + delta < 2 ^ 64]. *)
Definition timestamp_set_get_rts (ts : timestamp_set) : Z :=
  txn_wrap (wts ts + delta ts).

(** The 16 bytes of a header: bit 0 the flag, bits 1..64 [delta], bits 65..127
    [wts], least significant byte first. *)
Definition sizeof_tuple_header : nat := 16.

Fixpoint le_bytes (n : nat) (w : Z) : list Z :=
  match n with
  | O => []
  | S n' => w mod 256 :: le_bytes n' (w / 256)
  end.

Fixpoint le_word (bs : list Z) : Z :=
  match bs with
  | [] => 0
  | b :: rest => b mod 256 + 256 * le_word rest
  end.

Definition tuple_header_word (t : tuple_header) : Z :=
  Z.b2z (is_ts_update t) + 2 * (tuple_delta t mod 2 ^ 64)
  + 2 ^ 65 * (tuple_wts t mod 2 ^ 63).

Definition tuple_header_bytes (t : tuple_header) : list Z :=
  le_bytes sizeof_tuple_header (tuple_header_word t).

Definition tuple_header_of_bytes (bs : list Z) : tuple_header :=
  let w := le_word (take sizeof_tuple_header bs) in
  {| is_ts_update := Z.odd w;
     tuple_delta := (w / 2) mod 2 ^ 64;
     tuple_wts := (w / 2 ^ 65) mod 2 ^ 63 |}.

(** Writing the three bit-fields through the header pointer obtained from
    [message_data(msg)] replaces the first 16 bytes of the buffer. *)
Definition write_tuple_header (t : tuple_header) (buf : list Z) : list Z :=
  tuple_header_bytes t ++ drop sizeof_tuple_header buf.

Record rw_entry := {
  key : slice;
  msg : option message;
  entry_wts : Z;
  entry_rts : Z;
  tuple_ts : option slice;
  is_read : bool;
  need_to_keep_key : bool;
  need_to_decrease_refcount : bool
}.

Definition set_msg (m : option message) (e : rw_entry) : rw_entry :=
  {| key := key e; msg := m; entry_wts := entry_wts e; entry_rts := entry_rts e;
     tuple_ts := tuple_ts e; is_read := is_read e;
     need_to_keep_key := need_to_keep_key e;
     need_to_decrease_refcount := need_to_decrease_refcount e |}.
Definition set_entry_wts (w : Z) (e : rw_entry) : rw_entry :=
  {| key := key e; msg := msg e; entry_wts := w; entry_rts := entry_rts e;
     tuple_ts := tuple_ts e; is_read := is_read e;
     need_to_keep_key := need_to_keep_key e;
     need_to_decrease_refcount := need_to_decrease_refcount e |}.
Definition set_entry_rts (r : Z) (e : rw_entry) : rw_entry :=
  {| key := key e; msg := msg e; entry_wts := entry_wts e; entry_rts := r;
     tuple_ts := tuple_ts e; is_read := is_read e;
     need_to_keep_key := need_to_keep_key e;
     need_to_decrease_refcount := need_to_decrease_refcount e |}.
Definition set_tuple_ts (p : option slice) (e : rw_entry) : rw_entry :=
  {| key := key e; msg := msg e; entry_wts := entry_wts e; entry_rts := entry_rts e;
     tuple_ts := p; is_read := is_read e;
     need_to_keep_key := need_to_keep_key e;
     need_to_decrease_refcount := need_to_decrease_refcount e |}.
Definition set_is_read (b : bool) (e : rw_entry) : rw_entry :=
  {| key := key e; msg := msg e; entry_wts := entry_wts e; entry_rts := entry_rts e;
     tuple_ts := tuple_ts e; is_read := b;
     need_to_keep_key := need_to_keep_key e;
     need_to_decrease_refcount := need_to_decrease_refcount e |}.
Definition set_need_to_keep_key (b : bool) (e : rw_entry) : rw_entry :=
  {| key := key e; msg := msg e; entry_wts := entry_wts e; entry_rts := entry_rts e;
     tuple_ts := tuple_ts e; is_read := is_read e;
     need_to_keep_key := b;
     need_to_decrease_refcount := need_to_decrease_refcount e |}.

(** [data_config]: the comparator the application supplies. *)
Record data_config := {
  key_compare : slice -> slice -> Z
}.

Definition data_key_compare (cfg : data_config) (a b : slice) : Z :=
  key_compare cfg a b.

(** Calls into the underlying key-value store. *)
Inductive kv_call :=
| KvInsert (k : slice) (v : list Z)
| KvUpdate (k : slice) (v : list Z)
| KvDelete (k : slice)
| KvLookup (k : slice).

(** The store itself is not part of this layer: what a lookup finds and what a
    call returns are functions of the calls made so far. *)
Record splinterdb := {
  lookup_answer : list kv_call -> slice -> option (list Z);
  return_code : list kv_call -> kv_call -> Z
}.

Record transactional_splinterdb := {
  kvsb : splinterdb;
  tcfg_data_cfg : data_config
}.

(** Modelled from the spec: the table of iceberg_table.h (not among the
    sources at hand) is the timestamp cache of the design document, an in-memory
    map [key -> {wts, delta, lock_bit}] whose entries are reference-counted and
    evictable; a slot that was never written holds zeroes. *)
Record iceberg_table := {
  slots : gmap slice timestamp_set;
  refcount : gmap slice nat
}.

Definition slot_value (t : iceberg_table) (p : slice) : timestamp_set :=
  default timestamp_set_zero (slots t !! p).
Definition slot_store (p : slice) (v : timestamp_set) (t : iceberg_table)
    : iceberg_table :=
  {| slots := <[p := v]> (slots t); refcount := refcount t |}.

Inductive event :=
| EvLoad (p : slice) (v : timestamp_set)
| EvCas (p : slice) (expected desired : timestamp_set) (ok : bool)
| EvSleep (ns : Z)
| EvKv (c : kv_call).

(** What one thread running one transaction sees: the timestamp cache, its own
    read/write entries ([txn->rw_entries], addressed by index), the trace of
    its atomic accesses, sleeps and store calls (oldest first), and the steps
    of the other threads on the cache, one before each shared access. *)
Record state := {
  tscache : iceberg_table;
  rw_entries : list rw_entry;
  trace : list event;
  others : list (iceberg_table -> iceberg_table)
}.

Definition with_tscache (f : iceberg_table -> iceberg_table) (st : state) : state :=
  {| tscache := f (tscache st); rw_entries := rw_entries st; trace := trace st;
     others := others st |}.
Definition with_rw_entries (f : list rw_entry -> list rw_entry) (st : state) : state :=
  {| tscache := tscache st; rw_entries := f (rw_entries st); trace := trace st;
     others := others st |}.
Definition emit (ev : event) (st : state) : state :=
  {| tscache := tscache st; rw_entries := rw_entries st; trace := trace st ++ [ev];
     others := others st |}.
Definition interfere (st : state) : state :=
  match others st with
  | [] => st
  | f :: rest =>
      {| tscache := f (tscache st); rw_entries := rw_entries st; trace := trace st;
         others := rest |}
  end.

Definition kv_calls (t : list event) : list kv_call :=
  omap (fun ev => match ev with EvKv c => Some c | _ => None end) t.

(** ** Computations *)

Inductive failure :=
| AssertionFailed   (* a [platform_assert] fired *)
| MemoryFault       (* a NULL or out-of-bounds pointer was dereferenced *)
| OutOfFuel.        (* a loop was still waiting when the fuel ran out *)

Inductive outcome (A : Type) :=
| Ret (a : A)
| Fail (f : failure).
Arguments Ret {A} a.
Arguments Fail {A} f.

Definition M (A : Type) : Type := state -> state * outcome A.

Definition ret {A} (a : A) : M A := fun st => (st, Ret a).
Definition fail {A} (f : failure) : M A := fun st => (st, Fail f).
Definition bind {A B} (m : M A) (k : A -> M B) : M B :=
  fun st => match m st with
            | (st1, Ret a) => k a st1
            | (st1, Fail f) => (st1, Fail f)
            end.

Notation "x <- m ;; k" := (bind m (fun x => k))
  (at level 20, m at level 99, k at level 200, only parsing).
Notation "'exec' m ;; k" := (bind m (fun _ => k))
  (at level 20, m at level 99, k at level 200, only parsing).

Definition platform_assert (b : bool) : M unit :=
  if b then ret tt else fail AssertionFailed.

Definition get_entry (i : nat) : M rw_entry :=
  fun st => match rw_entries st !! i with
            | Some e => (st, Ret e)
            | None => (st, Fail MemoryFault)
            end.

Definition update_entry (i : nat) (f : rw_entry -> rw_entry) : M unit :=
  fun st => (with_rw_entries (alter f i) st, Ret tt).

Definition deref_tuple_ts (e : rw_entry) : M slice :=
  match tuple_ts e with
  | Some p => ret p
  | None => fail MemoryFault
  end.

Fixpoint for_each {A} (l : list A) (f : A -> M unit) : M unit :=
  match l with
  | [] => ret tt
  | x :: rest => exec f x ;; for_each rest f
  end.

(** ** Accesses to shared memory and to the store *)

(** [__atomic_load] of a slot of the cache. *)
Definition timestamp_set_load (p : slice) : M timestamp_set :=
  fun st =>
    let st1 := interfere st in
    let v := slot_value (tscache st1) p in
    (emit (EvLoad p v) st1, Ret v).

(** A plain read through [entry->tuple_ts] ([tuple_ts->lock_bit], or the
    fields [timestamp_set_get_rts] adds up). *)
Definition timestamp_set_peek (p : slice) : M timestamp_set :=
  fun st =>
    let st1 := interfere st in
    (st1, Ret (slot_value (tscache st1) p)).

(** [__atomic_compare_exchange] on the whole 128-bit slot; the weak form is
    taken not to fail spuriously (as on x86-64). On failure the C builtin
    also stores the current value into [v1]; every caller reloads [v1] before
    it uses it again. *)
Definition timestamp_set_compare_and_swap (p : slice) (v1 v2 : timestamp_set)
    : M bool :=
  fun st =>
    let st1 := interfere st in
    if bool_decide (slot_value (tscache st1) p = v1)
    then (emit (EvCas p v1 v2 true) (with_tscache (slot_store p v2) st1), Ret true)
    else (emit (EvCas p v1 v2 false) st1, Ret false).

Definition platform_sleep_ns (ns : Z) : M unit :=
  fun st => (emit (EvSleep ns) st, Ret tt).

Definition splinterdb_call (db : splinterdb) (c : kv_call) : M Z :=
  fun st => (emit (EvKv c) st, Ret (return_code db (kv_calls (trace st)) c)).

Definition splinterdb_insert (db : splinterdb) (k : slice) (v : list Z) : M Z :=
  splinterdb_call db (KvInsert k v).
Definition splinterdb_update (db : splinterdb) (k : slice) (v : list Z) : M Z :=
  splinterdb_call db (KvUpdate k v).
Definition splinterdb_delete (db : splinterdb) (k : slice) : M Z :=
  splinterdb_call db (KvDelete k).

(** [splinterdb_lookup]: the return code and what [result] holds afterwards
    ([None]: not found). *)
Definition splinterdb_lookup (db : splinterdb) (k : slice)
    : M (Z * option (list Z)) :=
  fun st =>
    let h := kv_calls (trace st) in
    (emit (EvKv (KvLookup k)) st,
     Ret (return_code db h (KvLookup k), lookup_answer db h k)).

(** Modelled from the spec: [iceberg_insert_and_get] of iceberg_table.h, after
    the comment above [rw_entry_iceberg_insert]: a key that is not in the cache
    is inserted with refcount 1 and value 0, a key that is there has its
    refcount increased; the result tells whether the key was new. *)
Definition iceberg_insert_and_get (k : slice) : M bool :=
  fun st =>
    let st1 := interfere st in
    match refcount (tscache st1) !! k with
    | Some n =>
        (with_tscache (fun t => {| slots := slots t;
                                   refcount := <[k := S n]> (refcount t) |}) st1,
         Ret false)
    | None =>
        (with_tscache (fun t => {| slots := <[k := timestamp_set_zero]> (slots t);
                                   refcount := <[k := 1%nat]> (refcount t) |}) st1,
         Ret true)
    end.

(** Modelled from the spec: the variant that leaves the refcount alone. *)
Definition iceberg_insert_and_get_without_increasing_refcount (k : slice) : M bool :=
  fun st =>
    let st1 := interfere st in
    match refcount (tscache st1) !! k with
    | Some n => (st1, Ret false)
    | None =>
        (with_tscache (fun t => {| slots := <[k := timestamp_set_zero]> (slots t);
                                   refcount := <[k := 0%nat]> (refcount t) |}) st1,
         Ret true)
    end.

(** Modelled from the spec: [iceberg_get_and_remove] drops one reference; when
    it was the last one the entry is evicted and its value handed back
    ("Decrease the refcount and write timestamps back if it is evicted"). The
    memory of an evicted slot keeps its content until a key is inserted there
    again. *)
Definition iceberg_get_and_remove (k : slice) : M (option timestamp_set) :=
  fun st =>
    let st1 := interfere st in
    match refcount (tscache st1) !! k with
    | Some (S (S n)) =>
        (with_tscache (fun t => {| slots := slots t;
                                   refcount := <[k := S n]> (refcount t) |}) st1,
         Ret None)
    | Some _ =>
        (with_tscache (fun t => {| slots := slots t;
                                   refcount := delete k (refcount t) |}) st1,
         Ret (Some (slot_value (tscache st1) k)))
    | None => (st1, Ret None)
    end.

(** ** Read/write entries *)

(** The bytes of a [timestamp_set] read as a [tuple_header]: same layout,
    [lock_bit] in the place of [is_ts_update]. *)
Definition timestamp_set_as_header (ts : timestamp_set) : tuple_header :=
  {| is_ts_update := lock_bit ts; tuple_delta := delta ts; tuple_wts := wts ts |}.

Definition rw_entry_iceberg_insert (m : build_macros) (i : nat) : M bool :=
  e <- get_entry i ;;
  match tuple_ts e with
  | Some _ => ret false
  | None =>
      is_new_item <-
        (if EXPERIMENTAL_MODE_KEEP_ALL_KEYS m
         then iceberg_insert_and_get_without_increasing_refcount (key e)
         else iceberg_insert_and_get (key e)) ;;
      exec update_entry i (fun e =>
             set_need_to_keep_key (need_to_keep_key e || is_new_item)
               (set_tuple_ts (Some (key e)) e)) ;;
      ret is_new_item
  end.

Definition rw_entry_iceberg_remove (m : build_macros) (txn_kvsb : transactional_splinterdb)
    (i : nat) (upsert_ts : bool) : M unit :=
  e <- get_entry i ;;
  match tuple_ts e with
  | None => ret tt
  | Some _ =>
      exec update_entry i (set_tuple_ts None) ;;
      if EXPERIMENTAL_MODE_KEEP_ALL_KEYS m then ret tt
      else
        evicted <- iceberg_get_and_remove (key e) ;;
        match evicted with
        | None => ret tt
        | Some value_ht =>
            exec (if upsert_ts
                  then
                    exec splinterdb_update (kvsb txn_kvsb) (key e)
                           (tuple_header_bytes
                              (timestamp_set_as_header (set_lock_bit value_ht true))) ;;
                    ret tt
                  else ret tt) ;;
            update_entry i (set_need_to_keep_key false)
        end
  end.

(** [TYPED_ZALLOC]: every field zero. *)
Definition rw_entry_create : rw_entry :=
  {| key := []; msg := None; entry_wts := 0; entry_rts := 0; tuple_ts := None;
     is_read := false; need_to_keep_key := false;
     need_to_decrease_refcount := false |}.

(** A zeroed buffer of [KEY_SIZE] bytes that receives the bytes of the key;
    the entry's key is the slice of these [KEY_SIZE] bytes. The [memcpy] is
    not bounded: of a key longer than [KEY_SIZE] the slice holds the first
    [KEY_SIZE] bytes, and the bytes written past the buffer are outside this
    model. *)
Definition rw_entry_set_key (m : build_macros) (e : rw_entry) (k : slice) : rw_entry :=
  {| key := take (KEY_SIZE m) (k ++ replicate (KEY_SIZE m - length k) 0);
     msg := msg e;
     entry_wts := entry_wts e; entry_rts := entry_rts e; tuple_ts := tuple_ts e;
     is_read := is_read e; need_to_keep_key := need_to_keep_key e;
     need_to_decrease_refcount := need_to_decrease_refcount e |}.

(** A zeroed buffer of [sizeof(tuple_header) + message_length(msg)] bytes whose
    tail receives the bytes of the application's message: the message that
    the entry points to afterwards. The [memcpy] is given the size of the
    whole buffer as its length, [sizeof(tuple_header)] more than the message
    has; what it reads past the message and writes past the buffer is
    outside this model. *)
Definition rw_entry_set_msg (e : rw_entry) (m : message) : rw_entry :=
  set_msg (Some (message_create (message_class m)
                   (replicate sizeof_tuple_header 0 ++ message_data m))) e.

Definition rw_entry_is_read (e : rw_entry) : bool := is_read e.
Definition rw_entry_is_write (e : rw_entry) : bool :=
  match msg e with Some _ => true | None => false end.

(** The position of the first entry whose key compares equal to [user_key]. *)
Fixpoint find_rw_entry (cfg : data_config) (user_key : slice) (i : nat)
    (es : list rw_entry) : option nat :=
  match es with
  | [] => None
  | e :: rest =>
      if data_key_compare cfg user_key (key e) =? 0 then Some i
      else find_rw_entry cfg user_key (S i) rest
  end.

Definition rw_entry_get (m : build_macros) (cfg : data_config) (user_key : slice)
    (is_read_arg : bool) : M nat :=
  fun st =>
    let '(i, st1) :=
      match find_rw_entry cfg user_key 0 (rw_entries st) with
      | Some i => (i, st)
      | None =>
          (length (rw_entries st),
           with_rw_entries
             (fun es => es ++ [rw_entry_set_key m rw_entry_create user_key]) st)
      end in
    (with_rw_entries (alter (fun e => set_is_read (is_read e || is_read_arg) e) i) st1,
     Ret i).

Definition entry_key (es : list rw_entry) (i : nat) : slice :=
  default [] (key <$> es !! i).

(** The comparator handed to the sort: it follows the two pointers. *)
Definition rw_entry_key_compare (cfg : data_config) (es : list rw_entry)
    (elem1 elem2 : nat) : Z :=
  data_key_compare cfg (entry_key es elem1) (entry_key es elem2).

(** [platform_sort_slow] is [qsort_r]; any sorting algorithm does, here
    insertion from the right. *)
Fixpoint sort_insert {A} (cmpfn : A -> A -> Z) (x : A) (l : list A) : list A :=
  match l with
  | [] => [x]
  | y :: rest =>
      if cmpfn x y <=? 0 then x :: l else y :: sort_insert cmpfn x rest
  end.

Definition platform_sort_slow {A} (base : list A) (cmpfn : A -> A -> Z) : list A :=
  foldr (sort_insert cmpfn) [] base.

Definition rw_entry_try_lock (i : nat) : M bool :=
  e <- get_entry i ;;
  p <- deref_tuple_ts e ;;
  v1 <- timestamp_set_load p ;;
  if lock_bit v1 then ret false
  else timestamp_set_compare_and_swap p v1 (set_lock_bit v1 true).

Fixpoint rw_entry_unlock (fuel : nat) (i : nat) : M unit :=
  match fuel with
  | O => fail OutOfFuel
  | S fuel' =>
      e <- get_entry i ;;
      p <- deref_tuple_ts e ;;
      v1 <- timestamp_set_load p ;;
      ok <- timestamp_set_compare_and_swap p v1 (set_lock_bit v1 false) ;;
      if ok then ret tt else rw_entry_unlock fuel' i
  end.

(** ** [transactional_splinterdb_commit] *)

(** The first loop: the read set and the write set as arrays of pointers
    (positions in [txn->rw_entries]), and the part of [commit_ts] that comes
    from the reads. *)
Definition read_wts_for_commit (m : build_macros) (e : rw_entry) : Z :=
  if EXPERIMENTAL_MODE_SILO m then txn_wrap (entry_wts e + 1) else entry_wts e.

Fixpoint scan_rw_entries (m : build_macros) (i : nat) (es : list rw_entry)
    (commit_ts : Z) : list nat * list nat * Z :=
  match es with
  | [] => ([], [], commit_ts)
  | e :: rest =>
      let commit_ts' :=
        if rw_entry_is_read e then MAX commit_ts (read_wts_for_commit m e)
        else commit_ts in
      let '(read_set, write_set, c) := scan_rw_entries m (S i) rest commit_ts' in
      ((if rw_entry_is_read e then [i] else []) ++ read_set,
       (if rw_entry_is_write e then [i] else []) ++ write_set,
       c)
  end.

Definition unlock_write_set (fuel : nat) (ws : list nat) : M unit :=
  for_each ws (rw_entry_unlock fuel).

(** One pass of the loop under [RETRY_LOCK_WRITE_SET]: [true] when every entry
    of [todo] was locked, [false] after a failed [rw_entry_try_lock], the
    release of the entries locked before it and the sleep. *)
Fixpoint lock_write_set_pass (fuel : nat) (locked todo : list nat) : M bool :=
  match todo with
  | [] => ret true
  | w :: rest =>
      e <- get_entry w ;;
      exec platform_assert (bool_decide (is_Some (tuple_ts e))) ;;
      ok <- rw_entry_try_lock w ;;
      if ok then lock_write_set_pass fuel (locked ++ [w]) rest
      else
        exec unlock_write_set fuel locked ;;
        exec platform_sleep_ns 1000 ;;
        ret false
  end.

Fixpoint lock_write_set (fuel : nat) (write_set : list nat) : M unit :=
  match fuel with
  | O => fail OutOfFuel
  | S fuel' =>
      done <- lock_write_set_pass (S fuel') [] write_set ;;
      if done then ret tt else lock_write_set fuel' write_set
  end.

(** [timestamp_get_from_splinterdb]: the timestamps of the stored tuple, zero
    when there is none. *)
Definition timestamp_get_from_splinterdb (db : splinterdb) (k : slice)
    : M timestamp_set :=
  exec platform_assert (negb (bool_decide (k = []))) ;;
  r <- splinterdb_lookup db k ;;
  exec platform_assert (fst r =? 0) ;;
  match snd r with
  | Some value =>
      let tuple := tuple_header_of_bytes value in
      ret (set_delta (set_wts timestamp_set_zero (tuple_wts tuple)) (tuple_delta tuple))
  | None => ret timestamp_set_zero
  end.

(** The loop that sets [w->rts] and raises [commit_ts] above it.
    [is_new_entries] is zero-initialised and never assigned. *)
Fixpoint raise_commit_ts (txn_kvsb : transactional_splinterdb)
    (is_new_entries : list bool) (write_set : list nat) (commit_ts : Z) : M Z :=
  match write_set with
  | [] => ret commit_ts
  | w :: rest =>
      e <- get_entry w ;;
      rts <-
        (if default false (head is_new_entries)
         then
           ts <- timestamp_get_from_splinterdb (kvsb txn_kvsb) (key e) ;;
           ret (timestamp_set_get_rts ts)
         else
           p <- deref_tuple_ts e ;;
           ts <- timestamp_set_peek p ;;
           ret (timestamp_set_get_rts ts)) ;;
      exec update_entry w (set_entry_rts rts) ;;
      raise_commit_ts txn_kvsb (tail is_new_entries) rest
        (MAX commit_ts (txn_wrap (rts + 1)))
  end.

(** Everything up to [bool is_abort = FALSE]: the read set, the sorted and
    locked write set, and [commit_ts]. *)
Definition commit_timestamp (m : build_macros) (txn_kvsb : transactional_splinterdb)
    (fuel : nat) : M (list nat * list nat * Z) :=
  fun st =>
    let '(read_set, write_set, commit_ts) :=
      scan_rw_entries m 0 (rw_entries st) 0 in
    let write_set :=
      platform_sort_slow write_set
        (rw_entry_key_compare (tcfg_data_cfg txn_kvsb) (rw_entries st)) in
    (exec lock_write_set fuel write_set ;;
     commit_ts <- raise_commit_ts txn_kvsb (replicate (length write_set) false)
                    write_set commit_ts ;;
     ret (read_set, write_set, commit_ts)) st.

(** Lines 686-694: the timestamps to install for a read whose [rts] has to
    reach [commit_ts]; [None] when [platform_assert(shift == 0)] fires. *)
Definition extension_shift (commit_ts : Z) (v1 : timestamp_set) : Z :=
  let delta := txn_wrap (commit_ts - wts v1) in
  txn_wrap (delta - Z.land delta UINT64_MAX).

Definition extend_timestamp (commit_ts : Z) (v1 : timestamp_set)
    : option timestamp_set :=
  let delta := txn_wrap (commit_ts - wts v1) in
  let shift := extension_shift commit_ts v1 in
  if shift =? 0
  then Some (set_delta (set_wts v1 (txn_wrap (wts v1 + shift)))
               (txn_wrap (delta - shift)))
  else None.

(** The [do { ... } while (!is_success)] of one read entry: whether it aborts. *)
Fixpoint validate_read (fuel : nat) (commit_ts : Z) (r : nat) : M bool :=
  match fuel with
  | O => fail OutOfFuel
  | S fuel' =>
      e <- get_entry r ;;
      p <- deref_tuple_ts e ;;
      v1 <- timestamp_set_load p ;;
      let is_wts_different := negb (entry_wts e =? wts v1) in
      let rts := timestamp_set_get_rts v1 in
      is_locked_by_another <-
        (if rts <=? commit_ts
         then
           now <- timestamp_set_peek p ;;
           ret (lock_bit now && negb (rw_entry_is_write e))
         else ret false) ;;
      if is_wts_different || is_locked_by_another then ret true
      else if rts <=? commit_ts then
        match extend_timestamp commit_ts v1 with
        | None => fail AssertionFailed
        | Some v2 =>
            is_success <- timestamp_set_compare_and_swap p v1 v2 ;;
            if is_success then ret false else validate_read fuel' commit_ts r
        end
      else ret false
  end.

Fixpoint validate_read_set (m : build_macros) (txn_kvsb : transactional_splinterdb)
    (fuel : nat) (commit_ts : Z) (read_set : list nat) : M bool :=
  match read_set with
  | [] => ret false
  | r :: rest =>
      e <- get_entry r ;;
      exec platform_assert (rw_entry_is_read e) ;;
      if entry_rts e <? commit_ts then
        is_abort <- validate_read fuel commit_ts r ;;
        exec (if negb (rw_entry_is_write e)
              then rw_entry_iceberg_remove m txn_kvsb r true
              else ret tt) ;;
        if is_abort then ret true
        else validate_read_set m txn_kvsb fuel commit_ts rest
      else validate_read_set m txn_kvsb fuel commit_ts rest
  end.

(** [do { load; v2 = {wts = commit_ts, delta = 0, lock_bit = 0}; } while (!CAS)] *)
Fixpoint install_commit_ts (fuel : nat) (commit_ts : Z) (p : slice) : M unit :=
  match fuel with
  | O => fail OutOfFuel
  | S fuel' =>
      v1 <- timestamp_set_load p ;;
      let v2 := set_lock_bit (set_delta (set_wts v1 commit_ts) 0) false in
      ok <- timestamp_set_compare_and_swap p v1 v2 ;;
      if ok then ret tt else install_commit_ts fuel' commit_ts p
  end.

Definition commit_tuple_header (commit_ts : Z) : tuple_header :=
  {| is_ts_update := false; tuple_delta := 0; tuple_wts := commit_ts |}.

(** The body of the loop over the write set of a transaction that does not
    abort. *)
Definition write_entry (m : build_macros) (txn_kvsb : transactional_splinterdb)
    (fuel : nat) (commit_ts : Z) (w : nat) : M unit :=
  e <- get_entry w ;;
  exec platform_assert (rw_entry_is_write e) ;;
  exec (if EXPERIMENTAL_MODE_BYPASS_SPLINTERDB m then ret tt
        else
          match msg e with
          | None => fail MemoryFault
          | Some wmsg =>
              let wmsg' :=
                message_create (message_class wmsg)
                  (write_tuple_header (commit_tuple_header commit_ts)
                     (message_data wmsg)) in
              exec update_entry w (set_msg (Some wmsg')) ;;
              rc <-
                match message_class wmsg' with
                | MESSAGE_TYPE_INSERT =>
                    splinterdb_insert (kvsb txn_kvsb) (key e) (message_slice wmsg')
                | MESSAGE_TYPE_UPDATE =>
                    splinterdb_update (kvsb txn_kvsb) (key e) (message_slice wmsg')
                | MESSAGE_TYPE_DELETE =>
                    splinterdb_delete (kvsb txn_kvsb) (key e)
                | MESSAGE_TYPE_INVALID => ret 0
                end ;;
              platform_assert (rc =? 0)
          end) ;;
  p <- deref_tuple_ts e ;;
  install_commit_ts fuel commit_ts p.

Definition write_write_set (m : build_macros) (txn_kvsb : transactional_splinterdb)
    (fuel : nat) (commit_ts : Z) (write_set : list nat) : M unit :=
  for_each write_set (write_entry m txn_kvsb fuel commit_ts).

(** [rw_entry_deinit] and [platform_free] only release memory. *)
Definition transaction_deinit (m : build_macros) (txn_kvsb : transactional_splinterdb)
    : M unit :=
  fun st =>
    for_each (seq 0 (length (rw_entries st)))
      (fun i => rw_entry_iceberg_remove m txn_kvsb i false) st.

(** From [bool is_abort = FALSE] to the end: validation, then the writes or
    the release of the locks, [transaction_deinit], and the return code. *)
Definition commit_validate_and_write (m : build_macros)
    (txn_kvsb : transactional_splinterdb) (fuel : nat)
    (read_set write_set : list nat) (commit_ts : Z) : M Z :=
  is_abort <- validate_read_set m txn_kvsb fuel commit_ts read_set ;;
  exec (if negb is_abort
        then write_write_set m txn_kvsb fuel commit_ts write_set
        else unlock_write_set fuel write_set) ;;
  exec transaction_deinit m txn_kvsb ;;
  ret (-1 * Z.b2z is_abort).

Definition transactional_splinterdb_commit (m : build_macros)
    (txn_kvsb : transactional_splinterdb) (fuel : nat) : M Z :=
  sets <- commit_timestamp m txn_kvsb fuel ;;
  let '(read_set, write_set, commit_ts) := sets in
  commit_validate_and_write m txn_kvsb fuel read_set write_set commit_ts.

(** ** [transactional_splinterdb_lookup] *)

Definition record_timestamps (i : nat) (v : timestamp_set) : M unit :=
  update_entry i (fun e =>
    set_entry_rts (timestamp_set_get_rts v) (set_entry_wts (wts v) e)).

(** The [do { ... } while (!timestamp_set_compare_and_swap(...))] of lines
    885-911 and the two assignments after it. [continue] in a [do]-[while]
    jumps to the loop condition, so a snapshot with [lock_bit] set goes
    straight to the CAS with whatever [v2] holds at that moment: the value of
    the previous iteration, or in the first iteration the indeterminate initial
    content [v2] of the local variable. *)
Fixpoint lookup_from_storage (fuel : nat) (txn_kvsb : transactional_splinterdb)
    (i : nat) (rc : Z) (result : option (list Z)) (v2 : timestamp_set)
    : M (Z * option (list Z)) :=
  match fuel with
  | O => fail OutOfFuel
  | S fuel' =>
      e <- get_entry i ;;
      p <- deref_tuple_ts e ;;
      v1 <- timestamp_set_load p ;;
      if lock_bit v1 then
        ok <- timestamp_set_compare_and_swap p v1 v2 ;;
        if ok then exec record_timestamps i v2 ;; ret (rc, result)
        else lookup_from_storage fuel' txn_kvsb i rc result v2
      else
        r <- splinterdb_lookup (kvsb txn_kvsb) (key e) ;;
        exec platform_assert (fst r =? 0) ;;
        match snd r with
        | None => fail AssertionFailed
        | Some value =>
            if (length value <? sizeof_tuple_header)%nat then fail MemoryFault
            else
              let tuple := tuple_header_of_bytes value in
              let v2' :=
                set_wts (set_delta v1 (MAX (delta v1) (tuple_delta tuple)))
                  (MAX (wts v1) (tuple_wts tuple)) in
              let result' := Some (drop sizeof_tuple_header value) in
              ok <- timestamp_set_compare_and_swap p v1 v2' ;;
              if ok then exec record_timestamps i v2' ;; ret (fst r, result')
              else lookup_from_storage fuel' txn_kvsb i (fst r) result' v2'
        end
  end.

(** The block of lines 865-882 stands under
    [#if EXPERIMENTAL_MODE_BYPASS_SPLINTERDB == 0] and ends in [return rc;]
    on both of its branches; the loop of lines 885-911 is reached only when
    the block is compiled out. [result] is what the caller's
    [splinterdb_lookup_result] holds ([None]: nothing), [v2] the indeterminate
    initial content of the local [v2]. *)
Definition transactional_splinterdb_lookup (m : build_macros)
    (txn_kvsb : transactional_splinterdb) (fuel : nat) (user_key : slice)
    (result : option (list Z)) (v2 : timestamp_set) : M (Z * option (list Z)) :=
  i <- rw_entry_get m (tcfg_data_cfg txn_kvsb) user_key true ;;
  is_new_entry <- rw_entry_iceberg_insert m i ;;
  if negb (EXPERIMENTAL_MODE_BYPASS_SPLINTERDB m) then
    e <- get_entry i ;;
    match msg e with
    | Some wmsg => ret (0, Some (message_data wmsg))
    | None =>
        p <- deref_tuple_ts e ;;
        v1 <- timestamp_set_load p ;;
        exec record_timestamps i v1 ;;
        ret (0, result)
    end
  else lookup_from_storage fuel txn_kvsb i 0 result v2.

(** ** Configuration and creation *)

Inductive transaction_isolation_level :=
| TRANSACTION_ISOLATION_LEVEL_INVALID
| TRANSACTION_ISOLATION_LEVEL_SERIALIZABLE
| TRANSACTION_ISOLATION_LEVEL_MAX_VALID.

(** Modelled from the spec: [splinterdb_config] is declared in
    splinterdb/splinterdb.h, which is not among the sources at hand; its fields
    are the configuration options the design document enumerates, among
    them [tscache_log_slots]. *)
Record splinterdb_config := {
  cache_size : Z;
  disk_size : Z;
  page_size : Z;
  extent_size : Z;
  use_log : bool;
  commit_every_n : Z;
  filename : list Z;
  num_bg_threads : Z;
  cfg_tscache_log_slots : Z;
  data_cfg : data_config
}.

Record transactional_splinterdb_config := {
  kvsb_cfg : splinterdb_config;
  isol_level : transaction_isolation_level;
  tscache_log_slots : Z
}.

(** [transactional_data_config_init] replaces the two merge callbacks and keeps
    the rest of the application's [data_config], the comparator included. *)
Definition transactional_data_config_init (in_cfg : data_config) : data_config :=
  {| key_compare := key_compare in_cfg |}.

Definition transactional_splinterdb_config_init (cfg : splinterdb_config)
    : transactional_splinterdb_config :=
  {| kvsb_cfg :=
       {| cache_size := cache_size cfg; disk_size := disk_size cfg;
          page_size := page_size cfg; extent_size := extent_size cfg;
          use_log := use_log cfg; commit_every_n := commit_every_n cfg;
          filename := filename cfg; num_bg_threads := num_bg_threads cfg;
          cfg_tscache_log_slots := cfg_tscache_log_slots cfg;
          data_cfg := transactional_data_config_init (data_cfg cfg) |};
     isol_level := TRANSACTION_ISOLATION_LEVEL_SERIALIZABLE;
     tscache_log_slots := 20 |}.

(** What creation leaves behind: the return code, the configuration of the
    handle stored through [txn_kvsb] (if any), and the arguments of the calls
    to [iceberg_init], in order. *)
Record creation := {
  creation_rc : outcome Z;
  creation_tcfg : option transactional_splinterdb_config;
  iceberg_init_calls : list Z
}.

(** [splinterdb_create_or_open] and [iceberg_init] are external: their
    return codes are given as functions of their arguments. *)
Definition transactional_splinterdb_create_or_open
    (splinterdb_create_or_open : splinterdb_config -> bool -> Z)
    (iceberg_init : Z -> Z)
    (cfg : splinterdb_config) (open_existing : bool) : creation :=
  let txn_splinterdb_cfg := transactional_splinterdb_config_init cfg in
  let rc := splinterdb_create_or_open (kvsb_cfg txn_splinterdb_cfg) open_existing in
  if negb (rc =? 0)
  then {| creation_rc := Ret rc; creation_tcfg := None; iceberg_init_calls := [] |}
  else
    let log_slots := tscache_log_slots txn_splinterdb_cfg in
    if iceberg_init log_slots =? 0
    then {| creation_rc := Ret 0; creation_tcfg := Some txn_splinterdb_cfg;
            iceberg_init_calls := [log_slots] |}
    else {| creation_rc := Fail AssertionFailed; creation_tcfg := None;
            iceberg_init_calls := [log_slots] |}.

Definition transactional_splinterdb_create
    (splinterdb_create_or_open : splinterdb_config -> bool -> Z)
    (iceberg_init : Z -> Z) (cfg : splinterdb_config) : creation :=
  transactional_splinterdb_create_or_open splinterdb_create_or_open iceberg_init
    cfg false.

Definition transactional_splinterdb_open
    (splinterdb_create_or_open : splinterdb_config -> bool -> Z)
    (iceberg_init : Z -> Z) (cfg : splinterdb_config) : creation :=
  transactional_splinterdb_create_or_open splinterdb_create_or_open iceberg_init
    cfg true.

(** ** Vocabulary of the statements *)

(** The [i]-th duration of a spin loop: 1, 2, 4, ..., 2048, 4096, 4096, ... *)
Definition backoff_nth (i : nat) : Z := 2 ^ Z.min (Z.of_nat i) 12.

(** The sleeps of a sequence of spin loops, each starting again at 1. *)
Definition backoff_schedule (l : list Z) : Prop :=
  exists ns : list nat, l = concat (map (fun n => map backoff_nth (seq 0 n)) ns).

(** The loops as the claim words them: a spin loop whose sleep number [k]
    (counted from 0 in that loop) lasts [backoff_nth k], and the three
    functions built from such loops, every loop counting from 0 again. *)
Fixpoint spin_while_spec (fuel : nat) (probe : rw_state -> rw_state * bool)
    (k : nat) (s : rw_state) : rw_state * option unit :=
  match fuel with
  | O => (s, None)
  | S fuel' =>
      let '(s1, contended) := probe s in
      if contended
      then spin_while_spec fuel' probe (S k) (platform_sleep (backoff_nth k) s1)
      else (s1, Some tt)
  end.

Fixpoint wait_for_readers_spec (fuel : nat) (skip : option Z) (tids : list Z)
    (idx : Z) (s : rw_state) : rw_state * option unit :=
  match tids with
  | [] => (s, Some tt)
  | i :: rest =>
      match spin_while_spec fuel (probe_reader skip i idx) 0 s with
      | (s1, Some _) => wait_for_readers_spec fuel skip rest idx s1
      | (s1, None) => (s1, None)
      end
  end.

Definition try_writelock_spec (fuel : nat) (MAX_THREADS tid : Z)
    (lock_idx : Z) (s : rw_state) : rw_state * option bool :=
  let '(s1, old) := test_and_set_write_lock lock_idx s in
  if negb (old =? 0) then (s1, Some false)
  else
    match wait_for_readers_spec fuel (Some tid) (thread_ids MAX_THREADS) lock_idx s1
    with
    | (s2, Some _) => (s2, Some true)
    | (s2, None) => (s2, None)
    end.

Definition writelock_spec (fuel : nat) (MAX_THREADS : Z)
    (lock_idx : Z) (s : rw_state) : rw_state * option unit :=
  match spin_while_spec fuel (probe_write_lock_tas lock_idx) 0 s with
  | (s1, Some _) =>
      wait_for_readers_spec fuel None (thread_ids MAX_THREADS) lock_idx s1
  | (s1, None) => (s1, None)
  end.

Fixpoint readlock_spec (fuel : nat) (tid lock_idx : Z)
    (s : rw_state) : rw_state * option unit :=
  match fuel with
  | O => (s, None)
  | S fuel' =>
      match spin_while_spec (S fuel') (probe_write_lock lock_idx) 0 s with
      | (s1, None) => (s1, None)
      | (s1, Some _) =>
          let s2 := fetch_and_add_read_counter tid lock_idx 1 s1 in
          let '(s3, w) := load_write_lock lock_idx s2 in
          if w =? 0 then (s3, Some tt)
          else readlock_spec fuel' tid lock_idx
                 (fetch_and_add_read_counter tid lock_idx (-1) s3)
      end
  end.

(** A lock whose writer flag stays set during thirteen probes of the caller
    and is released before the fourteenth. *)
Definition held_13 : rw_state :=
  {| rw_lock := set_write_lock rwlock_zero 0 1; rw_sleeps := [];
     rw_others := replicate 13 (fun l => l) ++ [fun l => set_write_lock l 0 0] |}.

(** A probe of a spin loop does not sleep. *)
Definition keeps_sleeps (probe : rw_state -> rw_state * bool) : Prop :=
  forall s, rw_sleeps (probe s).1 = rw_sleeps s.

(** ** Sample builds, stores and transactions *)

Definition default_build : build_macros :=
  {| EXPERIMENTAL_MODE_SILO := false; EXPERIMENTAL_MODE_KEEP_ALL_KEYS := false;
     EXPERIMENTAL_MODE_BYPASS_SPLINTERDB := false; KEY_SIZE := 2 |}.

(** Keys compared as little-endian numbers. *)
Definition numeric_keys : data_config :=
  {| key_compare := fun a b => le_word a - le_word b |}.

(** A store that holds nothing and accepts every call. *)
Definition empty_store : splinterdb :=
  {| lookup_answer := fun _ _ => None; return_code := fun _ _ => 0 |}.

Definition sample_db : transactional_splinterdb :=
  {| kvsb := empty_store; tcfg_data_cfg := numeric_keys |}.

Definition read_entry (k : slice) (w r : Z) : rw_entry :=
  {| key := k; msg := None; entry_wts := w; entry_rts := r; tuple_ts := Some k;
     is_read := true; need_to_keep_key := false;
     need_to_decrease_refcount := false |}.

Definition write_entry_of (k : slice) (c : message_type) (v : list Z) : rw_entry :=
  rw_entry_set_msg
    {| key := k; msg := None; entry_wts := 0; entry_rts := 0; tuple_ts := Some k;
       is_read := false; need_to_keep_key := false;
       need_to_decrease_refcount := false |}
    (message_create c v).

Definition cache_of (l : list (slice * timestamp_set)) : iceberg_table :=
  {| slots := list_to_map l; refcount := list_to_map (map (fun kv => (kv.1, 1%nat)) l) |}.


(** A configuration that asks for a timestamp cache of [2^8] slots. *)
Definition small_cache_config : splinterdb_config :=
  {| cache_size := 1048576; disk_size := 33554432; page_size := 4096;
     extent_size := 131072; use_log := false; commit_every_n := 0;
     filename := []; num_bg_threads := 0; cfg_tscache_log_slots := 8;
     data_cfg := numeric_keys |}.

(** Every event a computation appends to the trace satisfies [P], whatever
    the state it starts in and whatever the other threads do. *)
Definition emits {A} (P : event -> Prop) (m : M A) : Prop :=
  forall st, exists new, trace (m st).1 = trace st ++ new /\ Forall P new.

(** A computation leaves the read/write entries as they are. *)
Definition keeps_entries {A} (m : M A) : Prop :=
  forall st, rw_entries (m st).1 = rw_entries st.

(** The locks of this transaction after a trace: a successful CAS from
    [lock_bit = 0] to [lock_bit = 1] takes the lock of its slot, a successful
    CAS that writes [lock_bit = 0] gives it back. *)
Fixpoint remove_one (p : slice) (held : list slice) : list slice :=
  match held with
  | [] => []
  | q :: rest => if decide (p = q) then rest else q :: remove_one p rest
  end.

Definition track_lock (held : list slice) (ev : event) : list slice :=
  match ev with
  | EvCas p expected desired true =>
      if lock_bit desired
      then (if lock_bit expected then held else held ++ [p])
      else remove_one p held
  | _ => held
  end.

Definition held_locks (t : list event) : list slice := foldl track_lock [] t.

Definition is_sleep (ev : event) : Prop := exists ns, ev = EvSleep ns.

(** The slot an entry of the transaction points to. *)
Definition entry_slot (es : list rw_entry) (i : nat) : option slice :=
  e ← es !! i; tuple_ts e.

(** What may follow a sleep of the locking loop: nothing, or the load that
    starts a new pass at slot [first]. *)
Definition starts_pass (first : option slice) (t : list event) : Prop :=
  t = [] \/ exists p v rest, t = EvLoad p v :: rest /\ first = Some p.

(** Along a trace that starts with the locks [held]: every sleep lasts 1000 ns,
    happens with no lock held, and is followed by a new pass. *)
Fixpoint sleeps_unlocked (first : option slice) (held : list slice)
    (t : list event) : Prop :=
  match t with
  | [] => True
  | EvSleep ns :: rest =>
      ns = 1000 /\ held = [] /\ starts_pass first rest
      /\ sleeps_unlocked first held rest
  | ev :: rest => sleeps_unlocked first (track_lock held ev) rest
  end.

(** [Q] holds of the state and the outcome that [m] reaches from [st]. *)
Definition wp {A} (m : M A) (st : state) (Q : state -> outcome A -> Prop) : Prop :=
  Q (m st).1 (m st).2.

(** Two writes; the slot of the second is locked by another transaction, which
    releases it while this one is retrying. *)
Definition contended_state : state :=
  {| tscache := cache_of [([1; 0], {| lock_bit := false; delta := 0; wts := 3 |});
                          ([2; 0], {| lock_bit := true; delta := 1; wts := 4 |})];
     rw_entries := [write_entry_of [2; 0] MESSAGE_TYPE_INSERT [8];
                    write_entry_of [1; 0] MESSAGE_TYPE_UPDATE [9]];
     trace := [];
     others := replicate 9 (fun t => t)
               ++ [slot_store [2; 0] {| lock_bit := false; delta := 1; wts := 4 |}] |}.

(** A store that holds one tuple, under key [[1; 0]]: header
    [{is_ts_update = 0, delta = 3, wts = 9}] and the one-byte value [118]. *)
Definition stored_tuple : list Z :=
  tuple_header_bytes {| is_ts_update := false; tuple_delta := 3; tuple_wts := 9 |}
  ++ [118].

Definition one_tuple_store : splinterdb :=
  {| lookup_answer := fun _ k => if decide (k = [1; 0]) then Some stored_tuple else None;
     return_code := fun _ _ => 0 |}.

Definition one_tuple_db : transactional_splinterdb :=
  {| kvsb := one_tuple_store; tcfg_data_cfg := numeric_keys |}.

(** A transaction that has just begun, no key cached, nobody else running. *)
Definition fresh_state : state :=
  {| tscache := cache_of []; rw_entries := []; trace := []; others := [] |}.

(** The same build with the store bypassed. *)
Definition bypass_build : build_macros :=
  {| EXPERIMENTAL_MODE_SILO := false; EXPERIMENTAL_MODE_KEEP_ALL_KEYS := false;
     EXPERIMENTAL_MODE_BYPASS_SPLINTERDB := true; KEY_SIZE := 2 |}.

(** A transaction that has just begun while another one holds the lock of the
    cached key [[1; 0]]. *)
Definition locked_state : state :=
  {| tscache := cache_of [([1; 0], {| lock_bit := true; delta := 0; wts := 5 |})];
     rw_entries := []; trace := []; others := [] |}.

(** A transaction that has buffered the insertion of the two bytes [7; 7]
    under key [[3; 0]]. *)
Definition buffered_state : state :=
  {| tscache := cache_of [([3; 0], {| lock_bit := false; delta := 2; wts := 4 |})];
     rw_entries := [write_entry_of [3; 0] MESSAGE_TYPE_INSERT [7; 7]];
     trace := []; others := [] |}.


(** Cached timestamps as the bit-fields can hold them. *)
Definition timestamp_set_wf (v : timestamp_set) : Prop :=
  0 <= wts v < 2 ^ 63 /\ 0 <= delta v < 2 ^ 64.


Definition read_aborts (commit_ts : Z) (e : rw_entry) (v : timestamp_set) : bool :=
  (entry_rts e <? commit_ts)
  && (negb (entry_wts e =? wts v)
      || ((timestamp_set_get_rts v <=? commit_ts) && lock_bit v
          && negb (rw_entry_is_write e))).

(** The timestamp-only message written back when a read entry is evicted. *)
Definition is_timestamp_upsert (k : slice) (c : kv_call) : Prop :=
  exists ts, c = KvUpdate k (tuple_header_bytes
                               (timestamp_set_as_header (set_lock_bit ts true))).

(** A transaction about to commit with nobody else running: every entry points
    to the cache slot of its key, the keys are pairwise different, no key to be
    written is locked, the store accepts every call, and the timestamps are far
    from the ends of their fields. *)
Record commit_ready (db : transactional_splinterdb) (st : state) : Prop := {
  ready_quiet : others st = [];
  ready_slots : forall i e, rw_entries st !! i = Some e -> tuple_ts e = Some (key e);
  ready_keys : NoDup (key <$> rw_entries st);
  ready_unlocked :
    forall i e, rw_entries st !! i = Some e -> rw_entry_is_write e = true ->
                lock_bit (slot_value (tscache st) (key e)) = false;
  ready_store : forall h c, return_code (kvsb db) h c = 0;
  ready_bounds :
    forall i e, rw_entries st !! i = Some e ->
                0 <= entry_wts e < 2 ^ 62
                /\ 0 <= wts (slot_value (tscache st) (key e))
                /\ 0 <= delta (slot_value (tscache st) (key e))
                /\ wts (slot_value (tscache st) (key e))
                   + delta (slot_value (tscache st) (key e)) < 2 ^ 62
}.

(** Two reads and one write, nobody else running. *)
Definition sample_state : state :=
  {| tscache := cache_of [([1; 0], {| lock_bit := false; delta := 10; wts := 5 |});
                          ([2; 0], {| lock_bit := false; delta := 0; wts := 8 |});
                          ([3; 0], {| lock_bit := false; delta := 2; wts := 4 |})];
     rw_entries := [read_entry [1; 0] 5 5; read_entry [2; 0] 8 8;
                    write_entry_of [3; 0] MESSAGE_TYPE_INSERT [7; 7]];
     trace := []; others := [] |}.

(** The timestamps a successful extension installs. *)
Definition extended (commit_ts : Z) (v : timestamp_set) : timestamp_set :=
  {| lock_bit := lock_bit v; delta := commit_ts - wts v; wts := wts v |}.

(** What the validation of the read entry [e], whose key has the cached
    timestamps [v], may append to the trace: the load of the slot, the CAS
    that extends it (only when the entry does not abort and the cached [rts]
    is at most [commit_ts]), and the timestamp-only update written back when
    a read-only entry is evicted. *)
Definition validation_event (commit_ts : Z) (e : rw_entry) (v : timestamp_set)
    (ev : event) : Prop :=
  ev = EvLoad (key e) v
  \/ (ev = EvCas (key e) v (extended commit_ts v) true
      /\ read_aborts commit_ts e v = false
      /\ timestamp_set_get_rts v <= commit_ts)
  \/ (exists c, ev = EvKv c /\ rw_entry_is_write e = false
                /\ is_timestamp_upsert (key e) c).

(** The read set [rs] can be validated against [commit_ts] in a quiet run:
    its entries are reads that point to the slots of their pairwise different
    keys, and the cached timestamps fit their fields. *)
Record validation_ready (commit_ts : Z) (rs : list nat) (st : state) : Prop := {
  vready_quiet : others st = [];
  vready_keys : NoDup (entry_key (rw_entries st) <$> rs);
  vready_commit_ts : 0 <= commit_ts < 2 ^ txn_timestamp_bits;
  vready_entries :
    forall r, r ∈ rs ->
      exists e, rw_entries st !! r = Some e
                /\ rw_entry_is_read e = true
                /\ tuple_ts e = Some (key e)
                /\ timestamp_set_wf (slot_value (tscache st) (key e))
                /\ (timestamp_set_get_rts (slot_value (tscache st) (key e)) <= commit_ts ->
                    commit_ts - wts (slot_value (tscache st) (key e)) < 2 ^ 64)
}.

(** What the validation of [rs] against [commit_ts] has done when it ends in
    [st'] with [is_abort = b], having appended [new] to the trace. *)
Record validated (commit_ts : Z) (rs : list nat) (st st' : state) (b : bool)
    (new : list event) : Prop := {
  val_quiet : others st' = [];
  val_trace : trace st' = trace st ++ new;
  val_abort :
    b = true <->
    exists r e, r ∈ rs /\ rw_entries st !! r = Some e
                /\ read_aborts commit_ts e (slot_value (tscache st) (key e)) = true;
  val_lock_wts :
    forall p, lock_bit (slot_value (tscache st') p) = lock_bit (slot_value (tscache st) p)
              /\ wts (slot_value (tscache st') p) = wts (slot_value (tscache st) p);
  val_frame :
    forall p, p ∉ entry_key (rw_entries st) <$> rs ->
              slot_value (tscache st') p = slot_value (tscache st) p;
  val_length : length (rw_entries st') = length (rw_entries st);
  val_entries :
    forall i e, rw_entries st !! i = Some e ->
      exists e', rw_entries st' !! i = Some e'
                 /\ key e' = key e /\ msg e' = msg e
                 /\ entry_wts e' = entry_wts e /\ entry_rts e' = entry_rts e
                 /\ is_read e' = is_read e
                 /\ (rw_entry_is_write e = true \/ i ∉ rs -> e' = e);
  val_events :
    Forall (fun ev =>
              exists r e, r ∈ rs /\ rw_entries st !! r = Some e
                          /\ entry_rts e < commit_ts
                          /\ validation_event commit_ts e
                               (slot_value (tscache st) (key e)) ev) new;
  val_extended :
    b = false ->
    forall r e, r ∈ rs -> rw_entries st !! r = Some e ->
      entry_rts e < commit_ts ->
      timestamp_set_get_rts (slot_value (tscache st) (key e)) <= commit_ts ->
      EvCas (key e) (slot_value (tscache st) (key e))
        (extended commit_ts (slot_value (tscache st) (key e))) true ∈ new
}.

(** What the validation of the single read entry [e], at position [r], has
    done when it leaves the state [st2]. *)
Record read_validated (commit_ts : Z) (r : nat) (e : rw_entry) (st st2 : state)
    (aborts : bool) (evs : list event) : Prop := {
  rv_quiet : others st2 = [];
  rv_trace : trace st2 = trace st ++ evs;
  rv_aborts : aborts = read_aborts commit_ts e (slot_value (tscache st) (key e));
  rv_events :
    Forall (validation_event commit_ts e (slot_value (tscache st) (key e))) evs;
  rv_extended :
    aborts = false ->
    timestamp_set_get_rts (slot_value (tscache st) (key e)) <= commit_ts ->
    EvCas (key e) (slot_value (tscache st) (key e))
      (extended commit_ts (slot_value (tscache st) (key e))) true ∈ evs;
  rv_slot :
    forall p, slot_value (tscache st2) p = slot_value (tscache st) p
              \/ (p = key e
                  /\ slot_value (tscache st2) p
                     = extended commit_ts (slot_value (tscache st) p));
  rv_length : length (rw_entries st2) = length (rw_entries st);
  rv_others : forall i, i <> r -> rw_entries st2 !! i = rw_entries st !! i;
  rv_entry :
    exists e', rw_entries st2 !! r = Some e'
               /\ key e' = key e /\ msg e' = msg e
               /\ entry_wts e' = entry_wts e /\ entry_rts e' = entry_rts e
               /\ is_read e' = is_read e
               /\ (rw_entry_is_write e = true -> e' = e)
}.

(** The timestamps a committed write installs in the cache. *)
Definition committed_timestamps (commit_ts : Z) : timestamp_set :=
  {| lock_bit := false; delta := 0; wts := commit_ts |}.

(** The call that [write_entry] makes to the store for the write entry [e]:
    the buffered message with the commit header over its first 16 bytes for an
    insertion or an update, the key alone for a deletion. *)
Definition write_call (commit_ts : Z) (e : rw_entry) : option kv_call :=
  wmsg ← msg e;
  let value :=
    tuple_header_bytes {| is_ts_update := false; tuple_delta := 0; tuple_wts := commit_ts |}
    ++ drop sizeof_tuple_header (message_data wmsg) in
  match message_class wmsg with
  | MESSAGE_TYPE_INSERT => Some (KvInsert (key e) value)
  | MESSAGE_TYPE_UPDATE => Some (KvUpdate (key e) value)
  | MESSAGE_TYPE_DELETE => Some (KvDelete (key e))
  | MESSAGE_TYPE_INVALID => None
  end.

(** What a quiet run of [write_entry] appends to the trace for the entry [e]
    whose slot holds [v]. *)
Definition write_events (m : build_macros) (commit_ts : Z) (e : rw_entry)
    (v : timestamp_set) : list event :=
  (if EXPERIMENTAL_MODE_BYPASS_SPLINTERDB m then []
   else EvKv <$> option_list (write_call commit_ts e))
  ++ [EvLoad (key e) v; EvCas (key e) v (committed_timestamps commit_ts) true].

Definition write_set_events (m : build_macros) (commit_ts : Z) (st : state)
    (ws : list nat) : list event :=
  flat_map (fun w => match rw_entries st !! w with
                     | Some e => write_events m commit_ts e
                                   (slot_value (tscache st) (key e))
                     | None => []
                     end) ws.

(** What the locking part of a commit that starts in [st] leaves in a quiet
    run: the read set and the write set hold the positions of the read and of
    the write entries, the slots of the written keys are locked and nothing
    else has changed in the cache, every write entry has the cached [rts] of
    its key recorded, and no call has been made to the store. *)
Record write_set_locked (st st1 : state) (rs ws : list nat) (commit_ts : Z)
    : Prop := {
  locked_quiet : others st1 = [];
  locked_reads :
    forall r, r ∈ rs <->
      exists e, rw_entries st !! r = Some e /\ rw_entry_is_read e = true;
  locked_writes :
    forall w, w ∈ ws <->
      exists e, rw_entries st !! w = Some e /\ rw_entry_is_write e = true;
  locked_read_set : NoDup rs;
  locked_write_set : NoDup ws;
  locked_calls : kv_calls (trace st1) = kv_calls (trace st);
  locked_slots :
    forall p, slot_value (tscache st1) p
              = if decide (p ∈ entry_key (rw_entries st) <$> ws)
                then set_lock_bit (slot_value (tscache st) p) true
                else slot_value (tscache st) p;
  locked_entries :
    forall i, rw_entries st1 !! i
              = (fun e => if decide (i ∈ ws)
                          then set_entry_rts
                                 (timestamp_set_get_rts
                                    (slot_value (tscache st) (key e))) e
                          else e) <$> rw_entries st !! i;
  locked_commit_ts : 0 <= commit_ts < 2 ^ 63
}.

(** A read whose key was rewritten after it was read (recorded [wts] 5, cached
    [wts] 6), and one insertion. *)
Definition stale_state : state :=
  {| tscache := cache_of [([1; 0], {| lock_bit := false; delta := 0; wts := 6 |});
                          ([3; 0], {| lock_bit := false; delta := 2; wts := 4 |})];
     rw_entries := [read_entry [1; 0] 5 5;
                    write_entry_of [3; 0] MESSAGE_TYPE_INSERT [7; 7]];
     trace := []; others := [] |}.

(** A transaction that has buffered the deletion of key [[3; 0]]. *)
Definition deleting_state : state :=
  {| tscache := cache_of [([3; 0], {| lock_bit := false; delta := 2; wts := 4 |})];
     rw_entries := [write_entry_of [3; 0] MESSAGE_TYPE_DELETE []];
     trace := []; others := [] |}.

(** ** [begin] and [abort] *)

(** [memset(txn, 0, sizeof *txn)]: a transaction without entries. The
    entries of an earlier transaction in the same structure are forgotten, not
    released. *)
Definition transactional_splinterdb_begin : M Z :=
  fun st => (with_rw_entries (fun _ => []) st, Ret 0).


(** The key of the entry that [rw_entry_get] creates for [user_key]: the
    [KEY_SIZE] bytes of the zeroed buffer that received the user key. *)
Definition padded_key (m : build_macros) (user_key : slice) : slice :=
  key (rw_entry_set_key m rw_entry_create user_key).

(** "Compares equal" under the comparator of [cfg] is an equivalence. *)
Record key_equivalence (cfg : data_config) : Prop := {
  key_refl : forall a, data_key_compare cfg a a = 0;
  key_sym : forall a b, data_key_compare cfg a b = 0 -> data_key_compare cfg b a = 0;
  key_trans :
    forall a b c, data_key_compare cfg a b = 0 -> data_key_compare cfg b c = 0 ->
                  data_key_compare cfg a c = 0
}.

(** What the operations of a running transaction keep true of its entries: no
    two of them have keys that compare equal, and each holds its reference to
    the cache ([tuple_ts] points to the slot of its key). *)
Record txn_invariant (cfg : data_config) (es : list rw_entry) : Prop := {
  inv_distinct :
    forall i j ei ej, es !! i = Some ei -> es !! j = Some ej ->
                      data_key_compare cfg (key ei) (key ej) = 0 -> i = j;
  inv_slots : forall i e, es !! i = Some e -> tuple_ts e = Some (key e)
}.

(** The position at which [rw_entry_get] finds or creates the entry of
    [user_key]. *)
Definition entry_position (cfg : data_config) (user_key : slice)
    (es : list rw_entry) : nat :=
  default (length es) (find_rw_entry cfg user_key 0 es).

(** ** The merge callbacks installed by [transactional_data_config_init] *)

(** A [tuple_header] read through a pointer to the data of a message: the 16
    bytes of the header have to be there. *)
Definition read_tuple_header (data : list Z) : outcome tuple_header :=
  if (length data <? sizeof_tuple_header)%nat then Fail MemoryFault
  else Ret (tuple_header_of_bytes data).

Definition is_message_timestamps_update (msg : message) : outcome bool :=
  match read_tuple_header (message_data msg) with
  | Ret tuple => Ret (is_ts_update tuple)
  | Fail f => Fail f
  end.

(** [slice_create(message_length(msg) - sizeof(tuple_header),
    message_data(msg) + sizeof(tuple_header))]: what follows the header. *)
Definition get_app_value_from_message (msg : message) : message :=
  message_create (message_class msg) (drop sizeof_tuple_header (message_data msg)).

(** Modelled from the spec: [merge_accumulator] is declared in
    splinterdb/data.h, which is not among the sources at hand; the design
    document has a timestamp-only update "merged into the tuple", a message
    merged into a message. An accumulator is the message it holds, with its
    class and its bytes; [merge_accumulator_copy_message] and
    [merge_accumulator_init_from_message] make it a copy of a message,
    [merge_accumulator_set_class] sets its class, and
    [merge_accumulator_resize] sets its length and keeps the bytes that fit. *)
Definition merge_accumulator : Type := message.

Definition is_merge_accumulator_timestamps_update (ma : merge_accumulator)
    : outcome bool :=
  is_message_timestamps_update ma.

Definition get_app_value_from_merge_accumulator (ma : merge_accumulator) : message :=
  get_app_value_from_message ma.

(** [merge_fantasticc_tuple]: the return code, the old message (whose header
    the second branch overwrites in place) and the accumulator.
    [data_merge_tuples] stands for the call
    [data_merge_tuples(application_data_config, key, old_value, &new_value_ma)],
    whose return code is not looked at: the accumulator it leaves. *)
Definition merge_fantasticc_tuple
    (data_merge_tuples : slice -> message -> merge_accumulator -> merge_accumulator)
    (key_arg : slice) (old_message : message) (new_message : merge_accumulator)
    : outcome (Z * message * merge_accumulator) :=
  match is_message_timestamps_update old_message with
  | Fail f => Fail f
  | Ret true => Ret (0, old_message, new_message)
  | Ret false =>
      match read_tuple_header (message_data new_message) with
      | Fail f => Fail f
      | Ret new_tuple =>
          if is_ts_update new_tuple then
            let old_message' :=
              message_create (message_class old_message)
                (write_tuple_header
                   {| is_ts_update := false;
                      tuple_delta := tuple_delta new_tuple;
                      tuple_wts := tuple_wts new_tuple |}
                   (message_data old_message)) in
            Ret (0, old_message', old_message')
          else
            let old_value_message := get_app_value_from_message old_message in
            let new_value_message :=
              get_app_value_from_merge_accumulator new_message in
            let new_value_ma :=
              data_merge_tuples key_arg old_value_message new_value_message in
            Ret (0, old_message,
                 message_create (message_class old_message)
                   (take sizeof_tuple_header (message_data new_message)
                    ++ message_data new_value_ma))
      end
  end.

(** [merge_fantasticc_tuple_final]; [data_merge_tuples_final] stands for the
    call on the application's [data_config]. The class of [oldest_message] is
    not assigned. *)
Definition merge_fantasticc_tuple_final
    (data_merge_tuples_final : slice -> merge_accumulator -> merge_accumulator)
    (key_arg : slice) (oldest_message : merge_accumulator)
    : outcome (Z * merge_accumulator) :=
  match is_merge_accumulator_timestamps_update oldest_message with
  | Fail f => Fail f
  | Ret true => Fail AssertionFailed
  | Ret false =>
      let oldest_message_value :=
        get_app_value_from_merge_accumulator oldest_message in
      let app_oldest_message :=
        data_merge_tuples_final key_arg oldest_message_value in
      Ret (0, message_create (message_class oldest_message)
                (take sizeof_tuple_header (message_data oldest_message)
                 ++ message_data app_oldest_message))
  end.

(** The message that [rw_entry_iceberg_remove] hands to [splinterdb_update]
    when the timestamps [ts] are evicted: the 16 bytes of [ts] with
    [lock_bit], which lies where [is_ts_update] does, set. *)
Definition timestamps_update_message (ts : timestamp_set) : message :=
  message_create MESSAGE_TYPE_UPDATE
    (tuple_header_bytes (timestamp_set_as_header (set_lock_bit ts true))).

(** ** platform.c: releasing the batched rwlock *)

(** [__sync_lock_release(&lock->write_lock[lock_idx])] *)
Definition platform_batch_rwlock_unwritelock (lock_idx : Z) (s : rw_state) : rw_state :=
  rw_update (fun l => set_write_lock l lock_idx 0) (rw_interfere s).

(** [__sync_fetch_and_sub(&lock->read_counter[tid][lock_idx], 1)]; the
    [debug_assert] on the old value is compiled out of a release build. *)
Definition platform_batch_rwlock_unreadlock (tid lock_idx : Z) (s : rw_state)
    : rw_state :=
  fetch_and_add_read_counter tid lock_idx (-1) s.

(** Two lock words that hold the same flags and the same counters. *)
Definition same_lock (l1 l2 : platform_batch_rwlock) : Prop :=
  (forall idx, get_write_lock l1 idx = get_write_lock l2 idx)
  /\ (forall tid idx, get_read_counter l1 tid idx = get_read_counter l2 tid idx).

(** No thread, [skip] apart, holds a read lock of index [idx]. *)
Definition no_reader (MAX_THREADS : Z) (skip : option Z) (idx : Z)
    (l : platform_batch_rwlock) : Prop :=
  forall i, 0 <= i < MAX_THREADS -> skip <> Some i -> get_read_counter l i idx = 0.

(** A lock of four threads on which thread 1 holds a read lock of index 0;
    nobody else is running. *)
Definition read_locked_by_1 : rw_state :=
  {| rw_lock := set_read_counter rwlock_zero 1 0 1; rw_sleeps := []; rw_others := [] |}.

(** A free lock, nobody else running. *)
Definition free_lock : rw_state :=
  {| rw_lock := rwlock_zero; rw_sleeps := []; rw_others := [] |}.

(** A lock whose write flag of index 0 is set; nobody else is running. *)
Definition write_locked : rw_state :=
  {| rw_lock := set_write_lock rwlock_zero 0 1; rw_sleeps := []; rw_others := [] |}.

(** ** platform.c: buffers *)

Inductive mmap_flag :=
| MAP_PRIVATE | MAP_SHARED_VALIDATE | MAP_SYNC
| MAP_ANONYMOUS | MAP_NORESERVE | MAP_HUGETLB.

(** The calls that the buffer functions make to the system and to the heap. *)
Inductive sys_call :=
| CallMalloc
| CallFree
| CallStat (filepath : list Z)
| CallOpen (filepath : list Z) (create : bool)
| CallFtruncate (fd len : Z)
| CallMmap (len : Z) (flags : list mmap_flag) (fd : Z)
| CallMlock (address len : Z)
| CallMunmap (address len : Z).

(** What the system answers, and the two global switches of platform.c. *)
Record buffer_env := {
  env_malloc_ok : bool;
  platform_use_hugetlb : bool;
  platform_use_mlock : bool;
  env_stat : Z;
  env_open : Z;
  env_ftruncate : Z;
  env_mmap : Z;
  env_mlock : Z
}.

Record buffer_handle := {
  bh_addr : Z;
  bh_length : Z
}.

(** [(void * ) -1] *)
Definition MAP_FAILED : Z := -1.

(** The characters of the literal ["/mnt/pmem0/"]. *)
Definition pmem_prefix : list Z := [47; 109; 110; 116; 47; 112; 109; 101; 109; 48; 47].

(** [strncmp] on strings given by their characters before the terminating
    NUL. *)
Fixpoint strncmp (s1 s2 : list Z) (n : nat) {struct n} : Z :=
  match n with
  | O => 0
  | S n' =>
      match s1, s2 with
      | [], [] => 0
      | [], c2 :: _ => - c2
      | c1 :: _, [] => c1
      | c1 :: r1, c2 :: r2 => if c1 =? c2 then strncmp r1 r2 n' else c1 - c2
      end
  end.

(** [platform_get_fd], with its [assert]s compiled in. *)
Definition platform_get_fd (env : buffer_env) (filepath : list Z) (len : Z)
    : list sys_call * outcome Z :=
  if env_stat env <? 0 then
    let fd := env_open env in
    if fd =? -1
    then ([CallStat filepath; CallOpen filepath true], Fail AssertionFailed)
    else if env_ftruncate env =? -1
    then ([CallStat filepath; CallOpen filepath true; CallFtruncate fd len],
          Fail AssertionFailed)
    else ([CallStat filepath; CallOpen filepath true; CallFtruncate fd len], Ret fd)
  else
    let fd := env_open env in
    if fd =? -1
    then ([CallStat filepath; CallOpen filepath false], Fail AssertionFailed)
    else ([CallStat filepath; CallOpen filepath false], Ret fd).

(** [platform_buffer_create]: the calls made and the handle returned ([None]
    for [NULL]). [bh->length = length] stands after the [if (bh != NULL)], so
    a [NULL] from [TYPED_MALLOC] is dereferenced. *)
Definition platform_buffer_create (env : buffer_env) (len : Z)
    (pathname : option (list Z)) : list sys_call * outcome (option buffer_handle) :=
  if negb (env_malloc_ok env) then ([CallMalloc], Fail MemoryFault)
  else
    let finish (calls : list sys_call) :=
      if env_mmap env =? MAP_FAILED
      then (calls ++ [CallFree], Ret None)
      else (calls, Ret (Some {| bh_addr := env_mmap env; bh_length := len |})) in
    let anonymous :=
      let flags :=
        [MAP_PRIVATE; MAP_ANONYMOUS; MAP_NORESERVE]
        ++ (if platform_use_hugetlb env then [MAP_HUGETLB] else []) in
      let calls := [CallMalloc; CallMmap len flags (-1)] in
      if platform_use_mlock env then
        if negb (env_mlock env =? 0)
        then (calls ++ [CallMlock (env_mmap env) len; CallMunmap (env_mmap env) len;
                        CallFree],
              Ret None)
        else finish (calls ++ [CallMlock (env_mmap env) len])
      else finish calls in
    match pathname with
    | Some path =>
        if strncmp path pmem_prefix 10 =? 0 then
          match platform_get_fd env path len with
          | (calls, Fail f) => (CallMalloc :: calls, Fail f)
          | (calls, Ret fd) =>
              finish (CallMalloc :: calls
                      ++ [CallMmap len [MAP_PRIVATE; MAP_SHARED_VALIDATE; MAP_SYNC] fd])
          end
        else anonymous
    | None => anonymous
    end.

(** [platform_buffer_destroy]: the calls made and the status returned, given
    what [munmap] answers. *)
Definition platform_buffer_destroy (munmap_rc : Z) (bh : buffer_handle)
    : list sys_call * Z :=
  ([CallMunmap (bh_addr bh) (bh_length bh)]
   ++ (if negb (munmap_rc =? 0) then [CallFree] else []),
   munmap_rc).

(** An environment in which everything succeeds and the mapping lands at
    address 4096. *)
Definition all_succeeds : buffer_env :=
  {| env_malloc_ok := true; platform_use_hugetlb := false; platform_use_mlock := true;
     env_stat := 0; env_open := 3; env_ftruncate := 0; env_mmap := 4096;
     env_mlock := 0 |}.

(** The shape of the trace of the locking loop. Taking the lock of slot [p]:
    a load that finds the lock bit clear and the CAS that sets it. *)
Definition locks_slot (p : slice) (t : list event) : Prop :=
  exists v, lock_bit v = false
            /\ t = [EvLoad p v; EvCas p v (set_lock_bit v true) true].

(** A failed [rw_entry_try_lock] on slot [p]: the load finds the lock bit
    set, or the CAS that would set it fails. *)
Definition fails_to_lock (p : slice) (t : list event) : Prop :=
  exists v, (lock_bit v = true /\ t = [EvLoad p v])
            \/ (lock_bit v = false
                /\ t = [EvLoad p v; EvCas p v (set_lock_bit v true) false]).

(** [rw_entry_unlock] on slot [p]: load and CAS, again until the CAS that
    clears the lock bit succeeds. *)
Inductive unlocks_slot (p : slice) : list event -> Prop :=
| unlocks_now v :
    unlocks_slot p [EvLoad p v; EvCas p v (set_lock_bit v false) true]
| unlocks_retry v t :
    unlocks_slot p t ->
    unlocks_slot p (EvLoad p v :: EvCas p v (set_lock_bit v false) false :: t).

(** The slots [ps] one after the other, each by [R]. *)
Definition in_turn (R : slice -> list event -> Prop) (ps : list slice)
    (t : list event) : Prop :=
  exists ts, Forall2 R ps ts /\ t = concat ts.

(** A pass that fails at some entry of the write set: the entries before it
    are locked in order, the attempt on it fails, the locks taken in this
    pass are given back in the order they were taken, and the thread sleeps
    1000 ns. *)
Definition failed_pass (slots : list slice) (t : list event) : Prop :=
  exists taken p todo t1 t2 t3,
    slots = taken ++ p :: todo
    /\ in_turn locks_slot taken t1
    /\ fails_to_lock p t2
    /\ in_turn unlocks_slot taken t3
    /\ t = t1 ++ t2 ++ t3 ++ [EvSleep 1000].

(** The whole loop: failed passes, every one starting again at the first
    slot, and then either a pass that locks every slot, when the loop is left
    ([returned]), or nothing more, when the [fuel] passes allowed to the run
    have all failed. *)
Definition locking_trace (slots : list slice) (fuel : nat) (returned : bool)
    (t : list event) : Prop :=
  exists passes last,
    t = concat passes ++ last
    /\ Forall (failed_pass slots) passes
    /\ if returned
       then (length passes < fuel)%nat /\ in_turn locks_slot slots last
       else length passes = fuel /\ last = [].

(* ===================================================================== *)
(** * Part II: properties                                                 *)
(* ===================================================================== *)

(** ** The batched rwlock: back-off durations *)

Lemma backoff_pow (k : Z) : 0 <= k <= 11 -> backoff (2 ^ k) = 2 ^ (k + 1).
Proof.
  intros Hk. unfold backoff, wrap64.
  assert (H1 : 2 ^ k <= 2 ^ 11) by (apply Z.pow_le_mono_r; lia).
  assert (H0 : 0 < 2 ^ k) by (apply Z.pow_pos_nonneg; lia).
  change (2 ^ 11) with 2048 in H1.
  destruct (2 ^ k >? 2048) eqn:E; [lia|].
  rewrite Z.pow_add_r by lia. change (2 ^ 1) with 2.
  rewrite Z.mod_small; [lia|]. change (2 ^ 64) with 18446744073709551616. lia.
Qed.

Lemma backoff_cap : backoff 4096 = 4096.
Proof. reflexivity. Qed.

Lemma backoff_run_from (n i : nat) :
  backoff_run n (backoff_nth i) = map backoff_nth (seq i n).
Proof.
  revert i. induction n as [|n IH]; intros i; [reflexivity|].
  cbn [backoff_run seq map]. f_equal.
  rewrite <- IH. f_equal. unfold backoff_nth.
  destruct (decide (i < 12)%nat) as [Hi|Hi].
  - rewrite !Z.min_l by lia. rewrite backoff_pow by lia. f_equal. lia.
  - rewrite !Z.min_r by lia. apply backoff_cap.
Qed.

Lemma backoff_run_1 (n : nat) : backoff_run n 1 = map backoff_nth (seq 0 n).
Proof. apply (backoff_run_from n 0). Qed.


Lemma backoff_schedule_nil : backoff_schedule [].
Proof. exists []. reflexivity. Qed.

Lemma backoff_schedule_app (a b : list Z) :
  backoff_schedule a -> backoff_schedule b -> backoff_schedule (a ++ b).
Proof.
  intros [na ->] [nb ->]. exists (na ++ nb). by rewrite map_app, concat_app.
Qed.

Lemma backoff_schedule_run (n : nat) : backoff_schedule (backoff_run n 1).
Proof. exists [n]. cbn. by rewrite app_nil_r, backoff_run_1. Qed.

Lemma backoff_nth_bounds (i : nat) : 1 <= backoff_nth i <= 4096.
Proof.
  unfold backoff_nth. split.
  - assert (0 < 2 ^ Z.min (Z.of_nat i) 12) by (apply Z.pow_pos_nonneg; lia). lia.
  - change 4096 with (2 ^ 12). apply Z.pow_le_mono_r; lia.
Qed.

Lemma backoff_schedule_bounds (l : list Z) :
  backoff_schedule l -> Forall (fun d => 1 <= d <= 4096) l.
Proof.
  intros [ns ->]. apply Forall_concat, Forall_map, Forall_forall.
  intros n _. apply Forall_map, Forall_forall. intros i _. apply backoff_nth_bounds.
Qed.


Lemma rw_interfere_sleeps s : rw_sleeps (rw_interfere s) = rw_sleeps s.
Proof. unfold rw_interfere. by destruct (rw_others s). Qed.

Lemma probe_write_lock_tas_keeps idx : keeps_sleeps (probe_write_lock_tas idx).
Proof. intros s. cbn. apply rw_interfere_sleeps. Qed.

Lemma probe_write_lock_keeps idx : keeps_sleeps (probe_write_lock idx).
Proof. intros s. cbn. apply rw_interfere_sleeps. Qed.

Lemma probe_reader_keeps skip i idx : keeps_sleeps (probe_reader skip i idx).
Proof.
  intros s. unfold probe_reader. case_decide; [done|]. cbn. apply rw_interfere_sleeps.
Qed.

Lemma spin_while_sleeps fuel probe wait s :
  keeps_sleeps probe ->
  exists n, rw_sleeps (spin_while fuel probe wait s).1 = rw_sleeps s ++ backoff_run n wait.
Proof.
  intros Hk. revert wait s. induction fuel as [|fuel IH]; intros wait s.
  - exists 0%nat. cbn. by rewrite app_nil_r.
  - cbn [spin_while]. specialize (Hk s) as Hs. destruct (probe s) as [s1 c]. cbn in Hs.
    destruct c.
    + destruct (IH (backoff wait) (platform_sleep wait s1)) as [n Hn].
      exists (S n). rewrite Hn. cbn. rewrite Hs, <- app_assoc. done.
    + exists 0%nat. cbn. by rewrite app_nil_r.
Qed.

Lemma wait_for_readers_sleeps fuel skip tids idx s :
  exists new, rw_sleeps (wait_for_readers fuel skip tids idx s).1 = rw_sleeps s ++ new
              /\ backoff_schedule new.
Proof.
  revert s. induction tids as [|i rest IH]; intros s.
  - exists []. cbn. rewrite app_nil_r. split; [done|apply backoff_schedule_nil].
  - cbn [wait_for_readers].
    destruct (spin_while_sleeps fuel (probe_reader skip i idx) 1 s
                (probe_reader_keeps skip i idx)) as [n Hn].
    destruct (spin_while fuel (probe_reader skip i idx) 1 s) as [s1 [[]|]]; cbn in Hn.
    + destruct (IH s1) as (new & Hnew & Hsched).
      exists (backoff_run n 1 ++ new). rewrite Hnew, Hn, <- app_assoc. split; [done|].
      apply backoff_schedule_app; [apply backoff_schedule_run|done].
    + exists (backoff_run n 1). split; [done|apply backoff_schedule_run].
Qed.

Lemma writelock_sleeps fuel MAX_THREADS idx s :
  exists new,
    rw_sleeps (platform_batch_rwlock_writelock fuel MAX_THREADS idx s).1
      = rw_sleeps s ++ new /\ backoff_schedule new.
Proof.
  unfold platform_batch_rwlock_writelock.
  destruct (spin_while_sleeps fuel (probe_write_lock_tas idx) 1 s
              (probe_write_lock_tas_keeps idx)) as [n Hn].
  destruct (spin_while fuel (probe_write_lock_tas idx) 1 s) as [s1 [[]|]]; cbn in Hn.
  - destruct (wait_for_readers_sleeps fuel None (thread_ids MAX_THREADS) idx s1)
      as (new & Hnew & Hsched).
    exists (backoff_run n 1 ++ new). rewrite Hnew, Hn, <- app_assoc. split; [done|].
    apply backoff_schedule_app; [apply backoff_schedule_run|done].
  - exists (backoff_run n 1). split; [done|apply backoff_schedule_run].
Qed.

Lemma try_writelock_sleeps fuel MAX_THREADS tid idx s :
  exists new,
    rw_sleeps (platform_batch_rwlock_try_writelock fuel MAX_THREADS tid idx s).1
      = rw_sleeps s ++ new /\ backoff_schedule new.
Proof.
  unfold platform_batch_rwlock_try_writelock, test_and_set_write_lock.
  destruct (negb _).
  - exists []. cbn. rewrite app_nil_r, rw_interfere_sleeps.
    split; [done|apply backoff_schedule_nil].
  - match goal with |- context [wait_for_readers ?f ?k ?t ?i ?s0] =>
      destruct (wait_for_readers_sleeps f k t i s0) as (new & Hnew & Hsched);
      destruct (wait_for_readers f k t i s0) as [s2 [[]|]] end;
    cbn in *; rewrite rw_interfere_sleeps in Hnew; exists new; done.
Qed.

Lemma fetch_and_add_sleeps tid idx d s :
  rw_sleeps (fetch_and_add_read_counter tid idx d s) = rw_sleeps s.
Proof. cbn. apply rw_interfere_sleeps. Qed.

Lemma readlock_sleeps fuel tid idx s :
  exists new,
    rw_sleeps (platform_batch_rwlock_readlock fuel tid idx s).1
      = rw_sleeps s ++ new /\ backoff_schedule new.
Proof.
  revert s. induction fuel as [|fuel IH]; intros s.
  - exists []. cbn. rewrite app_nil_r. split; [done|apply backoff_schedule_nil].
  - cbn [platform_batch_rwlock_readlock].
    destruct (spin_while_sleeps (S fuel) (probe_write_lock idx) 1 s
                (probe_write_lock_keeps idx)) as [n Hn].
    destruct (spin_while (S fuel) (probe_write_lock idx) 1 s) as [s1 [[]|]]; cbn in Hn.
    + unfold load_write_lock. cbn zeta.
      destruct (_ =? 0).
      * exists (backoff_run n 1). cbn.
        rewrite rw_interfere_sleeps, fetch_and_add_sleeps.
        split; [done|apply backoff_schedule_run].
      * match goal with |- context [platform_batch_rwlock_readlock fuel tid idx ?s0] =>
          destruct (IH s0) as (new & Hnew & Hsched) end.
        exists (backoff_run n 1 ++ new). rewrite Hnew.
        rewrite fetch_and_add_sleeps, rw_interfere_sleeps, fetch_and_add_sleeps, Hn.
        rewrite <- app_assoc. split; [done|].
        apply backoff_schedule_app; [apply backoff_schedule_run|done].
    + exists (backoff_run n 1). split; [done|apply backoff_schedule_run].
Qed.

Lemma backoff_nth_succ (k : nat) : backoff (backoff_nth k) = backoff_nth (S k).
Proof.
  unfold backoff_nth. destruct (decide (k < 12)%nat) as [Hk|Hk].
  - rewrite !Z.min_l by lia. rewrite backoff_pow by lia. f_equal. lia.
  - rewrite !Z.min_r by lia. apply backoff_cap.
Qed.

Lemma backoff_nth_doubles (k : nat) :
  backoff_nth 0 = 1
  /\ ((k <= 11)%nat -> backoff_nth (S k) = 2 * backoff_nth k)
  /\ ((12 <= k)%nat -> backoff_nth k = 4096).
Proof.
  unfold backoff_nth. split; [reflexivity|]. split; intros Hk.
  - rewrite !Z.min_l by lia.
    replace (Z.of_nat (S k)) with (Z.of_nat k + 1) by lia.
    rewrite Z.pow_add_r by lia. lia.
  - by rewrite Z.min_r by lia.
Qed.

Lemma spin_while_is_spec fuel probe (k : nat) s :
  spin_while fuel probe (backoff_nth k) s = spin_while_spec fuel probe k s.
Proof.
  revert k s. induction fuel as [|fuel IH]; intros k s; [reflexivity|].
  cbn [spin_while spin_while_spec]. destruct (probe s) as [s1 [|]]; [|reflexivity].
  rewrite backoff_nth_succ. apply IH.
Qed.

Lemma wait_for_readers_is_spec fuel skip tids idx s :
  wait_for_readers fuel skip tids idx s = wait_for_readers_spec fuel skip tids idx s.
Proof.
  revert s. induction tids as [|i rest IH]; intros s; [reflexivity|].
  cbn [wait_for_readers wait_for_readers_spec].
  rewrite <- (spin_while_is_spec fuel _ 0).
  change (backoff_nth 0) with 1.
  destruct (spin_while fuel (probe_reader skip i idx) 1 s) as [s1 [[]|]]; [|reflexivity].
  apply IH.
Qed.

Lemma readlock_is_spec fuel tid idx s :
  platform_batch_rwlock_readlock fuel tid idx s = readlock_spec fuel tid idx s.
Proof.
  revert s. induction fuel as [|fuel IH]; intros s; [reflexivity|].
  cbn [platform_batch_rwlock_readlock readlock_spec].
  rewrite <- (spin_while_is_spec (S fuel) _ 0).
  change (backoff_nth 0) with 1.
  destruct (spin_while (S fuel) (probe_write_lock idx) 1 s) as [s1 [[]|]]; [|reflexivity].
  cbv zeta. destruct (load_write_lock idx _) as [s3 w].
  destruct (w =? 0); [reflexivity|]. apply IH.
Qed.

(** C8 (as amended). In [platform_batch_rwlock_readlock],
    [platform_batch_rwlock_writelock] and [platform_batch_rwlock_try_writelock],
    whatever the other threads do and however long the call spins, every
    spin loop sleeps, at its sleep number [k] counted from 0 within that
    loop, for [backoff_nth k] units: each of the three functions runs exactly
    as the same function in which every spin loop sleeps by that rule. The
    rule starts at 1, doubles the duration while it is at most 2048 and then
    stays at 4096: 1, 2, 4, ..., 2048, 4096, 4096, ... So the durations
    passed to [platform_sleep] are those of a sequence of such loops, and no
    sleep exceeds 4096 units. *)
Theorem C8_backoff_doubles_to_4096 (fuel : nat) (MAX_THREADS tid lock_idx : Z)
    (s : rw_state) :
  let slept (s' : rw_state) :=
    exists new, rw_sleeps s' = rw_sleeps s ++ new
                /\ backoff_schedule new
                /\ Forall (fun d => 1 <= d <= 4096) new in
  (platform_batch_rwlock_readlock fuel tid lock_idx s
   = readlock_spec fuel tid lock_idx s
   /\ platform_batch_rwlock_writelock fuel MAX_THREADS lock_idx s
      = writelock_spec fuel MAX_THREADS lock_idx s
   /\ platform_batch_rwlock_try_writelock fuel MAX_THREADS tid lock_idx s
      = try_writelock_spec fuel MAX_THREADS tid lock_idx s)
  /\ (forall probe, spin_while fuel probe 1 s = spin_while_spec fuel probe 0 s)
  /\ (backoff_nth 0 = 1
      /\ (forall k, (k <= 11)%nat -> backoff_nth (S k) = 2 * backoff_nth k)
      /\ (forall k, (12 <= k)%nat -> backoff_nth k = 4096))
  /\ slept (platform_batch_rwlock_readlock fuel tid lock_idx s).1
  /\ slept (platform_batch_rwlock_writelock fuel MAX_THREADS lock_idx s).1
  /\ slept (platform_batch_rwlock_try_writelock fuel MAX_THREADS tid lock_idx s).1.
Proof.
  cbv zeta. split; [|split; [|split; [|repeat split]]].
  - split; [apply readlock_is_spec|]. split.
    + unfold platform_batch_rwlock_writelock, writelock_spec.
      rewrite <- (spin_while_is_spec fuel _ 0). change (backoff_nth 0) with 1.
      destruct (spin_while fuel _ 1 s) as [s1 [[]|]]; [|reflexivity].
      apply wait_for_readers_is_spec.
    + unfold platform_batch_rwlock_try_writelock, try_writelock_spec.
      destruct (test_and_set_write_lock lock_idx s) as [s1 old].
      destruct (negb (old =? 0)); [reflexivity|].
      by rewrite wait_for_readers_is_spec.
  - intros probe. apply (spin_while_is_spec fuel probe 0).
  - split; [reflexivity|]. split; intros k Hk; by apply (backoff_nth_doubles k).
  - destruct (readlock_sleeps fuel tid lock_idx s) as (new & H1 & H2).
    exists new. eauto using backoff_schedule_bounds.
  - destruct (writelock_sleeps fuel MAX_THREADS lock_idx s) as (new & H1 & H2).
    exists new. eauto using backoff_schedule_bounds.
  - destruct (try_writelock_sleeps fuel MAX_THREADS tid lock_idx s) as (new & H1 & H2).
    exists new. eauto using backoff_schedule_bounds.
Qed.

(** C8, as stated, fails: a writer that finds the lock taken during thirteen
    probes returns after sleeps of 1, 2, ..., 2048 and then 4096 units. *)
Lemma C8_sleep_of_4096 :
  let run := platform_batch_rwlock_writelock 20 4 0 held_13 in
  run.2 = Some tt
  /\ rw_sleeps run.1 = [1; 2; 4; 8; 16; 32; 64; 128; 256; 512; 1024; 2048; 4096]
  /\ ~ Forall (fun d => d <= 2048) (rw_sleeps run.1).
Proof.
  cbv zeta. split; [reflexivity|]. split; [reflexivity|].
  intros H. apply Forall_forall with (x := 4096) in H; [lia|].
  vm_compute. set_solver.
Qed.

(** ** The extension step of the commit *)

Lemma land_UINT64_MAX (x : Z) : Z.land x UINT64_MAX = x mod 2 ^ 64.
Proof.
  unfold UINT64_MAX. rewrite <- (Z.land_ones x 64) by lia. reflexivity.
Qed.

Lemma extension_shift_eq (commit_ts : Z) (v1 : timestamp_set) :
  0 <= wts v1 -> wts v1 <= commit_ts -> commit_ts < 2 ^ txn_timestamp_bits ->
  extension_shift commit_ts v1 = 2 ^ 64 * ((commit_ts - wts v1) / 2 ^ 64).
Proof.
  intros H0 H1 H2. unfold extension_shift, txn_wrap.
  rewrite (Z.mod_small (commit_ts - wts v1)) by lia.
  rewrite land_UINT64_MAX.
  pose proof (Z.div_mod (commit_ts - wts v1) (2 ^ 64) ltac:(lia)) as Hdm.
  pose proof (Z.mod_pos_bound (commit_ts - wts v1) (2 ^ 64) ltac:(lia)) as Hm.
  assert (0 <= (commit_ts - wts v1) / 2 ^ 64) by (apply Z.div_pos; lia).
  rewrite Z.mod_small; lia.
Qed.

(** Where the claim holds: in the extension step, with [v1.wts] at
    most [commit_ts], [shift = delta - (delta & UINT64_MAX)] with
    [delta = commit_ts - v1.wts] is zero exactly when [delta] fits in 64
    bits; then the assertion passes, [v2.wts = v1.wts] and [v2.delta] is
    exactly [commit_ts - v1.wts]. When [delta] needs more than 64 bits,
    [shift] is not zero and the assertion fires. *)
Lemma shift_zero_iff_delta_fits (commit_ts : Z) (v1 : timestamp_set) :
  0 <= wts v1 < 2 ^ 63 ->
  wts v1 <= commit_ts < 2 ^ txn_timestamp_bits ->
  (extension_shift commit_ts v1 = 0 <-> commit_ts - wts v1 < 2 ^ 64)
  /\ (commit_ts - wts v1 < 2 ^ 64 ->
      extend_timestamp commit_ts v1
      = Some {| lock_bit := lock_bit v1; delta := commit_ts - wts v1; wts := wts v1 |})
  /\ (2 ^ 64 <= commit_ts - wts v1 -> extend_timestamp commit_ts v1 = None).
Proof.
  intros Hw [Hle Hc].
  pose proof (extension_shift_eq commit_ts v1 ltac:(lia) Hle ltac:(lia)) as Hs.
  assert (Hdiv : (commit_ts - wts v1) / 2 ^ 64 = 0 <-> commit_ts - wts v1 < 2 ^ 64).
  { rewrite Z.div_small_iff by lia. lia. }
  assert (Hiff : extension_shift commit_ts v1 = 0 <-> commit_ts - wts v1 < 2 ^ 64).
  { rewrite Hs. rewrite <- Hdiv. lia. }
  split; [exact Hiff|]. split.
  - intros Hfit. unfold extend_timestamp.
    apply Hiff in Hfit as Hz. rewrite Hz. cbn [Z.eqb].
    unfold set_delta, set_wts, txn_wrap; cbn [lock_bit delta wts].
    assert (H128 : 2 ^ 63 + 2 ^ 64 < 2 ^ 128) by (vm_compute; reflexivity).
    assert (H64 : 0 < 2 ^ 63 < 2 ^ 64) by (vm_compute; split; reflexivity).
    unfold txn_timestamp_bits in *.
    rewrite Z.sub_0_r, Z.add_0_r.
    rewrite (Z.mod_small (commit_ts - wts v1) (2 ^ 128)) by lia.
    rewrite (Z.mod_small (commit_ts - wts v1) (2 ^ 128)) by lia.
    rewrite (Z.mod_small (commit_ts - wts v1) (2 ^ 64)) by lia.
    rewrite (Z.mod_small (wts v1) (2 ^ 128)) by lia.
    rewrite (Z.mod_small (wts v1) (2 ^ 63)) by lia.
    reflexivity.
  - intros Hbig. unfold extend_timestamp.
    destruct (extension_shift commit_ts v1 =? 0) eqn:E; [|reflexivity].
    apply Z.eqb_eq in E. apply Hiff in E. lia.
Qed.


(** ** Creation of a transactional store *)

Lemma config_init_tscache_log_slots (cfg : splinterdb_config) :
  tscache_log_slots (transactional_splinterdb_config_init cfg) = 20.
Proof. reflexivity. Qed.

(** C7 (as amended). [transactional_splinterdb_create] and
    [transactional_splinterdb_open] size the timestamp cache by the
    [tscache_log_slots] field that [transactional_splinterdb_config_init] sets,
    and it sets 20 for every configuration it is given: when the underlying
    store is created or opened, [iceberg_init] is called once, with 20; when
    it is not, [iceberg_init] is not called. Nothing the caller supplies
    reaches [iceberg_init]. *)
Theorem C7_tscache_always_2_pow_20
    (splinterdb_create_or_open : splinterdb_config -> bool -> Z)
    (iceberg_init : Z -> Z) (cfg : splinterdb_config) (open_existing : bool) :
  let made :=
    transactional_splinterdb_create_or_open splinterdb_create_or_open
      iceberg_init cfg open_existing in
  transactional_splinterdb_create splinterdb_create_or_open iceberg_init cfg
  = transactional_splinterdb_create_or_open splinterdb_create_or_open
      iceberg_init cfg false
  /\ transactional_splinterdb_open splinterdb_create_or_open iceberg_init cfg
     = transactional_splinterdb_create_or_open splinterdb_create_or_open
         iceberg_init cfg true
  /\ iceberg_init_calls made
     = (if splinterdb_create_or_open
             (kvsb_cfg (transactional_splinterdb_config_init cfg)) open_existing =? 0
        then [20] else [])
  /\ (forall tcfg, creation_tcfg made = Some tcfg -> tscache_log_slots tcfg = 20).
Proof.
  cbv zeta. split; [reflexivity|]. split; [reflexivity|].
  unfold transactional_splinterdb_create_or_open.
  destruct (splinterdb_create_or_open _ open_existing =? 0); cbn.
  - destruct (iceberg_init 20 =? 0); cbn; split; try reflexivity.
    + intros tcfg [= <-]. reflexivity.
    + intros tcfg [=].
  - split; [reflexivity|]. intros tcfg [=].
Qed.

(** C7, as stated, fails: a caller that asks for [2^8] slots gets a cache
    initialised with [tscache_log_slots = 20]. *)
Lemma C7_small_cache_not_honoured :
  cfg_tscache_log_slots small_cache_config = 8
  /\ iceberg_init_calls
       (transactional_splinterdb_create (fun _ _ => 0) (fun _ => 0) small_cache_config)
     = [20]
  /\ iceberg_init_calls
       (transactional_splinterdb_open (fun _ _ => 0) (fun _ => 0) small_cache_config)
     = [20]
  /\ ~ In 8 (iceberg_init_calls
               (transactional_splinterdb_create (fun _ _ => 0) (fun _ => 0)
                  small_cache_config)).
Proof.
  repeat split; try reflexivity. cbn. intros [H|[]]. discriminate H.
Qed.

(** ** Computations: running and framing *)

Lemma bind_run {A B} (m : M A) (k : A -> M B) st st1 a :
  m st = (st1, Ret a) -> bind m k st = k a st1.
Proof. intros H. unfold bind. by rewrite H. Qed.

Lemma bind_fail {A B} (m : M A) (k : A -> M B) st st1 f :
  m st = (st1, Fail f) -> bind m k st = (st1, Fail f).
Proof. intros H. unfold bind. by rewrite H. Qed.

Lemma bind_ret_inv {A B} (m : M A) (k : A -> M B) st st' b :
  bind m k st = (st', Ret b) ->
  exists st1 a, m st = (st1, Ret a) /\ k a st1 = (st', Ret b).
Proof.
  unfold bind. destruct (m st) as [st1 [a|f]]; [eauto|discriminate].
Qed.

Lemma emits_ret {A} P (a : A) : emits P (ret a).
Proof. intros st. exists []. cbn. by rewrite app_nil_r. Qed.

Lemma emits_fail {A} P f : emits P (@fail A f).
Proof. intros st. exists []. cbn. by rewrite app_nil_r. Qed.

Lemma emits_bind {A B} P (m : M A) (k : A -> M B) :
  emits P m -> (forall a, emits P (k a)) -> emits P (bind m k).
Proof.
  intros Hm Hk st. unfold bind. destruct (Hm st) as (n1 & E1 & F1).
  destruct (m st) as [st1 [a|f]]; cbn in E1.
  - destruct (Hk a st1) as (n2 & E2 & F2). exists (n1 ++ n2).
    rewrite E2, E1, <- app_assoc. split; [done|]. by apply Forall_app.
  - exists n1. done.
Qed.

Lemma emits_weaken {A} (P Q : event -> Prop) (m : M A) :
  (forall ev, P ev -> Q ev) -> emits P m -> emits Q m.
Proof.
  intros HPQ Hm st. destruct (Hm st) as (new & E & F). exists new. split; [done|].
  eapply Forall_impl; eauto.
Qed.

Lemma emits_if {A} P (b : bool) (m1 m2 : M A) :
  emits P m1 -> emits P m2 -> emits P (if b then m1 else m2).
Proof. by destruct b. Qed.

Lemma interfere_trace st : trace (interfere st) = trace st.
Proof. unfold interfere. by destruct (others st). Qed.

Lemma interfere_entries st : rw_entries (interfere st) = rw_entries st.
Proof. unfold interfere. by destruct (others st). Qed.

Lemma interfere_quiet st : others st = [] -> interfere st = st.
Proof. unfold interfere. by intros ->. Qed.

Lemma trace_emit ev st : trace (emit ev st) = trace st ++ [ev].
Proof. done. Qed.
Lemma trace_with_tscache f st : trace (with_tscache f st) = trace st.
Proof. done. Qed.
Lemma trace_with_rw_entries f st : trace (with_rw_entries f st) = trace st.
Proof. done. Qed.
Lemma entries_emit ev st : rw_entries (emit ev st) = rw_entries st.
Proof. done. Qed.
Lemma entries_with_tscache f st : rw_entries (with_tscache f st) = rw_entries st.
Proof. done. Qed.
Lemma entries_with_rw_entries f st :
  rw_entries (with_rw_entries f st) = f (rw_entries st).
Proof. done. Qed.
Lemma tscache_emit ev st : tscache (emit ev st) = tscache st.
Proof. done. Qed.
Lemma tscache_with_tscache f st : tscache (with_tscache f st) = f (tscache st).
Proof. done. Qed.
Lemma tscache_with_rw_entries f st : tscache (with_rw_entries f st) = tscache st.
Proof. done. Qed.
Lemma others_emit ev st : others (emit ev st) = others st.
Proof. done. Qed.
Lemma others_with_tscache f st : others (with_tscache f st) = others st.
Proof. done. Qed.
Lemma others_with_rw_entries f st : others (with_rw_entries f st) = others st.
Proof. done. Qed.

Create Rewrite HintDb state_simpl.
#[global] Hint Rewrite interfere_trace interfere_entries trace_emit trace_with_tscache
  trace_with_rw_entries entries_emit entries_with_tscache entries_with_rw_entries
  tscache_emit tscache_with_tscache tscache_with_rw_entries others_emit
  others_with_tscache others_with_rw_entries : state_simpl.

Ltac simpl_state := autorewrite with state_simpl in *.

Lemma emits_silent {A} P (m : M A) :
  (forall st, trace (m st).1 = trace st) -> emits P m.
Proof. intros H st. exists []. by rewrite H, app_nil_r. Qed.

Lemma emits_platform_assert P b : emits P (platform_assert b).
Proof. destruct b; [apply emits_ret|apply emits_fail]. Qed.

Lemma emits_get_entry P i : emits P (get_entry i).
Proof. apply emits_silent. intros st. unfold get_entry. by destruct (_ !! _). Qed.

Lemma emits_update_entry P i f : emits P (update_entry i f).
Proof. by apply emits_silent. Qed.

Lemma emits_deref P e : emits P (deref_tuple_ts e).
Proof. unfold deref_tuple_ts. destruct (tuple_ts e); [apply emits_ret|apply emits_fail]. Qed.

Lemma emits_load (P : event -> Prop) p :
  (forall v, P (EvLoad p v)) -> emits P (timestamp_set_load p).
Proof.
  intros H st. eexists [_]. cbn. rewrite interfere_trace. split; [done|].
  by repeat constructor.
Qed.

Lemma emits_peek P p : emits P (timestamp_set_peek p).
Proof. apply emits_silent. intros st. cbn. apply interfere_trace. Qed.

Lemma emits_cas (P : event -> Prop) p v1 v2 :
  (forall ok, P (EvCas p v1 v2 ok)) -> emits P (timestamp_set_compare_and_swap p v1 v2).
Proof.
  intros H st. unfold timestamp_set_compare_and_swap.
  destruct (bool_decide _); eexists [_]; cbn; rewrite interfere_trace;
    (split; [done|by repeat constructor]).
Qed.

Lemma emits_sleep (P : event -> Prop) ns : P (EvSleep ns) -> emits P (platform_sleep_ns ns).
Proof. intros H st. eexists [_]. cbn. split; [done|by repeat constructor]. Qed.

Lemma emits_call (P : event -> Prop) db c : P (EvKv c) -> emits P (splinterdb_call db c).
Proof. intros H st. eexists [_]. cbn. split; [done|by repeat constructor]. Qed.

Lemma emits_for_each {A} P (l : list A) (f : A -> M unit) :
  (forall x, x ∈ l -> emits P (f x)) -> emits P (for_each l f).
Proof.
  induction l as [|x l IH]; intros H; cbn; [apply emits_ret|].
  apply emits_bind; [apply H; set_solver|]. intros _. apply IH. intros y Hy. apply H. set_solver.
Qed.

Lemma keeps_entries_ret {A} (a : A) : keeps_entries (ret a).
Proof. done. Qed.

Lemma keeps_entries_fail {A} f : keeps_entries (@fail A f).
Proof. done. Qed.

Lemma keeps_entries_bind {A B} (m : M A) (k : A -> M B) :
  keeps_entries m -> (forall a, keeps_entries (k a)) -> keeps_entries (bind m k).
Proof.
  intros Hm Hk st. unfold bind. specialize (Hm st).
  destruct (m st) as [st1 [a|f]]; cbn in Hm; [|done]. by rewrite Hk.
Qed.

Lemma keeps_entries_get_entry i : keeps_entries (get_entry i).
Proof. intros st. unfold get_entry. by destruct (_ !! _). Qed.

Lemma keeps_entries_deref e : keeps_entries (deref_tuple_ts e).
Proof. unfold deref_tuple_ts. by destruct (tuple_ts e). Qed.

Lemma keeps_entries_assert b : keeps_entries (platform_assert b).
Proof. by destruct b. Qed.

Lemma keeps_entries_load p : keeps_entries (timestamp_set_load p).
Proof. intros st. cbn. apply interfere_entries. Qed.

Lemma keeps_entries_cas p v1 v2 : keeps_entries (timestamp_set_compare_and_swap p v1 v2).
Proof.
  intros st. unfold timestamp_set_compare_and_swap.
  destruct (bool_decide _); cbn; apply interfere_entries.
Qed.

Lemma keeps_entries_sleep ns : keeps_entries (platform_sleep_ns ns).
Proof. done. Qed.

Lemma keeps_entries_for_each {A} (l : list A) (f : A -> M unit) :
  (forall x, keeps_entries (f x)) -> keeps_entries (for_each l f).
Proof.
  intros H. induction l as [|x l IH]; cbn; [done|].
  apply keeps_entries_bind; [apply H|]. intros _. apply IH.
Qed.

Lemma keeps_entries_try_lock i : keeps_entries (rw_entry_try_lock i).
Proof.
  unfold rw_entry_try_lock.
  apply keeps_entries_bind; [apply keeps_entries_get_entry|]. intros e.
  apply keeps_entries_bind; [apply keeps_entries_deref|]. intros p.
  apply keeps_entries_bind; [apply keeps_entries_load|]. intros v.
  destruct (lock_bit v); [done|apply keeps_entries_cas].
Qed.

Lemma keeps_entries_unlock fuel i : keeps_entries (rw_entry_unlock fuel i).
Proof.
  induction fuel as [|fuel IH]; cbn; [done|].
  apply keeps_entries_bind; [apply keeps_entries_get_entry|]. intros e.
  apply keeps_entries_bind; [apply keeps_entries_deref|]. intros p.
  apply keeps_entries_bind; [apply keeps_entries_load|]. intros v.
  apply keeps_entries_bind; [apply keeps_entries_cas|]. intros [|]; [done|apply IH].
Qed.

Lemma keeps_entries_unlock_write_set fuel ws : keeps_entries (unlock_write_set fuel ws).
Proof. apply keeps_entries_for_each. intros i. apply keeps_entries_unlock. Qed.

Lemma keeps_entries_lock_pass fuel locked todo :
  keeps_entries (lock_write_set_pass fuel locked todo).
Proof.
  revert locked. induction todo as [|w rest IH]; intros locked; cbn; [done|].
  apply keeps_entries_bind; [apply keeps_entries_get_entry|]. intros e.
  apply keeps_entries_bind; [apply keeps_entries_assert|]. intros _.
  apply keeps_entries_bind; [apply keeps_entries_try_lock|]. intros [|]; [apply IH|].
  apply keeps_entries_bind; [apply keeps_entries_unlock_write_set|]. intros _.
  apply keeps_entries_bind; [apply keeps_entries_sleep|]. done.
Qed.

Lemma keeps_entries_lock_write_set fuel ws : keeps_entries (lock_write_set fuel ws).
Proof.
  induction fuel as [|fuel IH]; cbn; [done|].
  apply keeps_entries_bind; [apply keeps_entries_lock_pass|]. intros [|]; [done|apply IH].
Qed.

(** ** The locking loop of the commit *)

Lemma sleeps_unlocked_app_quiet first held t1 t2 :
  Forall (fun ev => ~ is_sleep ev) t1 ->
  sleeps_unlocked first (foldl track_lock held t1) t2 ->
  sleeps_unlocked first held (t1 ++ t2).
Proof.
  revert held. induction t1 as [|ev t1 IH]; intros held Hq H; [done|].
  apply Forall_cons in Hq as [Hev Hq]. cbn [app foldl] in *.
  destruct ev; cbn; try (apply IH; done).
  exfalso. apply Hev. by eexists.
Qed.

Lemma sleeps_unlocked_app first held t1 t2 :
  sleeps_unlocked first held t1 ->
  starts_pass first t2 ->
  sleeps_unlocked first (foldl track_lock held t1) t2 ->
  sleeps_unlocked first held (t1 ++ t2).
Proof.
  revert held. induction t1 as [|ev t1 IH]; intros held H1 Hs H2; [done|].
  cbn [app foldl] in *. destruct ev; cbn in *; try (apply IH; done).
  destruct H1 as (-> & -> & Hst & H1). repeat split; try done.
  - destruct t1 as [|ev1 t1]; [done|].
    destruct Hst as [|(p & v & rest & E & F)]; [done|].
    right. cbn. injection E as -> ->. eauto.
  - by apply IH.
Qed.

Lemma sleeps_unlocked_split first held t pre ns post :
  sleeps_unlocked first held t ->
  t = pre ++ EvSleep ns :: post ->
  ns = 1000 /\ foldl track_lock held pre = [] /\ starts_pass first post.
Proof.
  revert held t. induction pre as [|ev pre IH]; intros held t H ->.
  - cbn in H. destruct H as (-> & -> & Hs & _). done.
  - cbn [app foldl]. cbn [app] in H. destruct ev; cbn in H;
      try (eapply IH; [exact H|reflexivity]).
    destruct H as (-> & -> & _ & H). eapply IH; [exact H|reflexivity].
Qed.

Lemma remove_all_in_order (l : list slice) : foldl (fun h p => remove_one p h) l l = [].
Proof.
  induction l as [|p l IH]; [done|]. cbn. by rewrite decide_True.
Qed.

(** Rules to run a computation step by step. *)

Lemma wp_ret {A} (a : A) st (Q : state -> outcome A -> Prop) :
  Q st (Ret a) -> wp (ret a) st Q.
Proof. done. Qed.

Lemma wp_fail {A} f st (Q : state -> outcome A -> Prop) :
  Q st (Fail f) -> wp (fail f) st Q.
Proof. done. Qed.

Lemma wp_bind {A B} (m : M A) (k : A -> M B) st (Q : state -> outcome B -> Prop) :
  wp m st (fun st1 o => match o with
                        | Ret a => wp (k a) st1 Q
                        | Fail f => Q st1 (Fail f)
                        end) ->
  wp (bind m k) st Q.
Proof. unfold wp, bind. by destruct (m st) as [st1 [a|f]]. Qed.

Lemma wp_conseq {A} (m : M A) st (Q Q' : state -> outcome A -> Prop) :
  wp m st Q -> (forall st' o, Q st' o -> Q' st' o) -> wp m st Q'.
Proof. unfold wp. eauto. Qed.

Lemma wp_intro {A} (m : M A) st : wp m st (fun st' o => m st = (st', o)).
Proof. unfold wp. by destruct (m st). Qed.

Lemma wp_elim {A} (m : M A) st st' o (Q : state -> outcome A -> Prop) :
  wp m st Q -> m st = (st', o) -> Q st' o.
Proof. unfold wp. intros H E. by rewrite E in H. Qed.

Lemma wp_and {A} (m : M A) st (Q1 Q2 : state -> outcome A -> Prop) :
  wp m st Q1 -> wp m st Q2 -> wp m st (fun st' o => Q1 st' o /\ Q2 st' o).
Proof. unfold wp. done. Qed.

Lemma wp_keeps_entries {A} (m : M A) st :
  keeps_entries m -> wp m st (fun st' _ => rw_entries st' = rw_entries st).
Proof. unfold wp. eauto. Qed.

Lemma wp_emits {A} P (m : M A) st :
  emits P m -> wp m st (fun st' _ => exists new, trace st' = trace st ++ new /\ Forall P new).
Proof. unfold wp. eauto. Qed.

Lemma wp_get_entry i st (Q : state -> outcome rw_entry -> Prop) :
  (forall e, rw_entries st !! i = Some e -> Q st (Ret e)) ->
  (rw_entries st !! i = None -> Q st (Fail MemoryFault)) ->
  wp (get_entry i) st Q.
Proof. unfold wp, get_entry. destruct (_ !! _); cbn; eauto. Qed.

Lemma wp_update_entry i f st (Q : state -> outcome unit -> Prop) :
  Q (with_rw_entries (alter f i) st) (Ret tt) -> wp (update_entry i f) st Q.
Proof. done. Qed.

Lemma wp_deref e st (Q : state -> outcome slice -> Prop) :
  (forall p, tuple_ts e = Some p -> Q st (Ret p)) ->
  (tuple_ts e = None -> Q st (Fail MemoryFault)) ->
  wp (deref_tuple_ts e) st Q.
Proof. unfold wp, deref_tuple_ts. destruct (tuple_ts e); cbn; eauto. Qed.

Lemma wp_assert b st (Q : state -> outcome unit -> Prop) :
  (b = true -> Q st (Ret tt)) -> (b = false -> Q st (Fail AssertionFailed)) ->
  wp (platform_assert b) st Q.
Proof. intros H1 H2. destruct b; [apply H1|apply H2]; done. Qed.

Lemma wp_load p st (Q : state -> outcome timestamp_set -> Prop) :
  (let v := slot_value (tscache (interfere st)) p in
   Q (emit (EvLoad p v) (interfere st)) (Ret v)) ->
  wp (timestamp_set_load p) st Q.
Proof. done. Qed.

Lemma wp_peek p st (Q : state -> outcome timestamp_set -> Prop) :
  Q (interfere st) (Ret (slot_value (tscache (interfere st)) p)) ->
  wp (timestamp_set_peek p) st Q.
Proof. done. Qed.

Lemma wp_cas p v1 v2 st (Q : state -> outcome bool -> Prop) :
  (slot_value (tscache (interfere st)) p = v1 ->
   Q (emit (EvCas p v1 v2 true) (with_tscache (slot_store p v2) (interfere st)))
     (Ret true)) ->
  (slot_value (tscache (interfere st)) p <> v1 ->
   Q (emit (EvCas p v1 v2 false) (interfere st)) (Ret false)) ->
  wp (timestamp_set_compare_and_swap p v1 v2) st Q.
Proof.
  intros H1 H2. unfold wp, timestamp_set_compare_and_swap.
  case_bool_decide; cbn; eauto.
Qed.

Lemma wp_sleep ns st (Q : state -> outcome unit -> Prop) :
  Q (emit (EvSleep ns) st) (Ret tt) -> wp (platform_sleep_ns ns) st Q.
Proof. done. Qed.

Lemma wp_call db c st (Q : state -> outcome Z -> Prop) :
  Q (emit (EvKv c) st) (Ret (return_code db (kv_calls (trace st)) c)) ->
  wp (splinterdb_call db c) st Q.
Proof. done. Qed.

Ltac no_events :=
  exists []; cbn; rewrite ?app_nil_r;
  repeat split; first [done | intros; discriminate | idtac].

(** One [rw_entry_unlock]: no sleep, and on return the lock of the entry's
    slot is given back. *)
Lemma unlock_spec fuel i st :
  wp (rw_entry_unlock fuel i) st (fun st' o =>
    exists new, trace st' = trace st ++ new
      /\ Forall (fun ev => ~ is_sleep ev) new
      /\ (o = Ret tt ->
          exists p, entry_slot (rw_entries st) i = Some p
                    /\ forall held, foldl track_lock held new = remove_one p held)).
Proof.
  revert st. induction fuel as [|fuel IH]; intros st; cbn [rw_entry_unlock].
  { apply wp_fail. no_events. }
  apply wp_bind, wp_get_entry; [intros e Ee|no_events].
  apply wp_bind, wp_deref; [intros p Ep|no_events].
  assert (Hslot : entry_slot (rw_entries st) i = Some p).
  { unfold entry_slot. rewrite Ee. done. }
  apply wp_bind, wp_load. intros v.
  apply wp_bind, wp_cas; intros Hv.
  - apply wp_ret. eexists [_; _]. simpl_state. repeat split.
    + by rewrite <- app_assoc.
    + repeat constructor; intros [? [=]].
    + intros _. exists p. done.
  - eapply wp_conseq; [apply IH|]. cbn. intros st' o (new & E & Hq & Hr).
    exists (EvLoad p v :: EvCas p v (set_lock_bit v false) false :: new).
    rewrite E. simpl_state. rewrite <- !app_assoc. split; [reflexivity|split].
    + repeat constructor; try (intros [? [=]]). done.
    + intros Hret. destruct (Hr Hret) as (p' & Hp' & Hh). exists p'. split; [|done].
      by simpl_state.
Qed.

Lemma unlock_write_set_spec fuel locked st :
  wp (unlock_write_set fuel locked) st (fun st' o =>
    exists new, trace st' = trace st ++ new
      /\ Forall (fun ev => ~ is_sleep ev) new
      /\ (o = Ret tt ->
          length (omap (entry_slot (rw_entries st)) locked) = length locked
          /\ forall held,
               foldl track_lock held new
               = foldl (fun h p => remove_one p h) held
                   (omap (entry_slot (rw_entries st)) locked))).
Proof.
  revert st. induction locked as [|i locked IH]; intros st.
  { apply wp_ret. no_events. }
  unfold unlock_write_set in *. cbn [for_each].
  apply wp_bind.
  eapply wp_conseq;
    [apply wp_and; [apply unlock_spec|apply wp_keeps_entries, keeps_entries_unlock]|].
  cbn. intros st1 [[]|f] [(n1 & E1 & Q1 & R1) K1].
  - eapply wp_conseq; [apply IH|]. cbn. intros st2 o (n2 & E2 & Q2 & R2).
    exists (n1 ++ n2). rewrite E2, E1, <- app_assoc.
    split; [done|]. split; [by apply Forall_app|].
    intros Hret. destruct (R1 eq_refl) as (p & Hp & Hh1).
    destruct (R2 Hret) as (Hlen & Hh2). rewrite K1 in Hlen, Hh2.
    rewrite Hp. cbn. split; [by rewrite Hlen|].
    intros held. by rewrite foldl_app, Hh1, Hh2.
  - exists n1. split; [done|]. split; [done|]. intros [=].
Qed.

(** One pass over the write set. *)
Lemma lock_pass_spec fuel locked todo st :
  length (omap (entry_slot (rw_entries st)) locked) = length locked ->
  wp (lock_write_set_pass fuel locked todo) st (fun st' o =>
    exists new, trace st' = trace st ++ new
      /\ (forall first,
            sleeps_unlocked first (omap (entry_slot (rw_entries st)) locked) new)
      /\ (locked = [] -> starts_pass (head todo ≫= entry_slot (rw_entries st)) new)
      /\ (o = Ret true ->
          foldl track_lock (omap (entry_slot (rw_entries st)) locked) new
          = omap (entry_slot (rw_entries st)) (locked ++ todo)
          /\ length (omap (entry_slot (rw_entries st)) (locked ++ todo))
             = length (locked ++ todo))
      /\ (o = Ret false ->
          foldl track_lock (omap (entry_slot (rw_entries st)) locked) new = [])).
Proof.
  revert locked st. induction todo as [|w rest IH]; intros locked st Hlen;
    cbn [lock_write_set_pass].
  { apply wp_ret. exists []. rewrite !app_nil_r. cbn. repeat split; try done.
    by left. }
  apply wp_bind, wp_get_entry; [intros e Ee|].
  2:{ exists []. rewrite app_nil_r. cbn. repeat split; try done. by left. }
  apply wp_bind, wp_assert; intros Hts.
  2:{ exists []. rewrite app_nil_r. cbn. repeat split; try done. by left. }
  apply bool_decide_eq_true in Hts as [p Ep].
  assert (Hslot : entry_slot (rw_entries st) w = Some p).
  { unfold entry_slot. rewrite Ee. done. }
  unfold rw_entry_try_lock.
  apply wp_bind, wp_bind, wp_get_entry; [intros e' Ee'|congruence].
  assert (e' = e) as -> by congruence.
  apply wp_bind, wp_deref; [intros p' Ep'|congruence].
  assert (p' = p) as -> by congruence.
  apply wp_bind, wp_load. intros v.
  destruct (lock_bit v) eqn:Hlock.
  - (* the entry is locked: give the locks back and sleep *)
    apply wp_ret.
    apply wp_bind.
    eapply wp_conseq; [apply unlock_write_set_spec|].
    cbn. intros st1 [[]|f] (n1 & E1 & Q1 & R1).
    + apply wp_bind, wp_sleep, wp_ret. simpl_state.
      destruct (R1 eq_refl) as [_ Hh].
      exists (EvLoad p v :: n1 ++ [EvSleep 1000]). rewrite E1. simpl_state.
      rewrite <- !app_assoc. split; [done|]. split; [|split; [|split]].
      * intros first. cbn. apply sleeps_unlocked_app_quiet; [done|].
        cbn. rewrite Hh, remove_all_in_order. repeat split; try done. by left.
      * intros _. right. cbn. rewrite Hslot. eauto.
      * intros [=].
      * intros _. cbn. rewrite foldl_app. cbn. by rewrite Hh, remove_all_in_order.
    + exists (EvLoad p v :: n1). rewrite E1. simpl_state. rewrite <- !app_assoc.
      split; [done|]. split; [|split; [|split; intros [=]]].
      * intros first. cbn. rewrite <- (app_nil_r n1).
        apply sleeps_unlocked_app_quiet; [done|]. done.
      * intros _. right. cbn. rewrite Hslot. eauto.
  - apply wp_cas; intros Hv.
    + (* locked it: go on *)
      eapply wp_conseq; [apply IH|].
      * simpl_state. rewrite omap_app. cbn. rewrite Hslot. cbn.
        rewrite !length_app. cbn. lia.
      * cbn. intros st' o (new & E & Hs & _ & Ht & Hf). simpl_state.
        rewrite <- app_assoc in Ht. cbn [app] in Ht.
        rewrite omap_app in Hs, Hf, Ht. cbn [omap list_omap] in Hs, Hf, Ht.
        rewrite Hslot in Hs, Hf, Ht. cbn [omap list_omap] in Hs, Hf, Ht.
        exists (EvLoad p v :: EvCas p v (set_lock_bit v true) true :: new).
        rewrite E, <- !app_assoc. split; [done|]. split; [|split; [|split]].
        -- intros first. cbn. rewrite Hlock. apply Hs.
        -- intros _. right. cbn. rewrite Hslot. eauto.
        -- intros Ho. cbn [foldl track_lock]. cbn match. rewrite Hlock.
           apply Ht, Ho.
        -- intros Ho. cbn [foldl track_lock]. cbn match. rewrite Hlock.
           apply Hf, Ho.
    + (* the CAS failed: give the locks back and sleep *)
      apply wp_bind.
      eapply wp_conseq; [apply unlock_write_set_spec|].
      cbn. intros st1 [[]|f] (n1 & E1 & Q1 & R1).
      * apply wp_bind, wp_sleep, wp_ret. simpl_state.
        destruct (R1 eq_refl) as [_ Hh].
        exists (EvLoad p v :: EvCas p v (set_lock_bit v true) false
                  :: n1 ++ [EvSleep 1000]).
        rewrite E1. simpl_state. rewrite <- !app_assoc.
        split; [done|]. split; [|split; [|split]].
        -- intros first. cbn. apply sleeps_unlocked_app_quiet; [done|].
           cbn. rewrite Hh, remove_all_in_order. repeat split; try done. by left.
        -- intros _. right. cbn. rewrite Hslot. eauto.
        -- intros [=].
        -- intros _. cbn. rewrite foldl_app. cbn. by rewrite Hh, remove_all_in_order.
      * exists (EvLoad p v :: EvCas p v (set_lock_bit v true) false :: n1).
        rewrite E1. simpl_state. rewrite <- !app_assoc.
        split; [done|]. split; [|split; [|split; intros [=]]].
        -- intros first. cbn. rewrite <- (app_nil_r n1).
           apply sleeps_unlocked_app_quiet; [done|]. done.
        -- intros _. right. cbn. rewrite Hslot. eauto.
Qed.

Lemma lock_write_set_spec fuel ws st :
  wp (lock_write_set fuel ws) st (fun st' o =>
    exists new, trace st' = trace st ++ new
      /\ sleeps_unlocked (head ws ≫= entry_slot (rw_entries st)) [] new
      /\ starts_pass (head ws ≫= entry_slot (rw_entries st)) new
      /\ (o = Ret tt ->
          held_locks new = omap (entry_slot (rw_entries st)) ws
          /\ length (omap (entry_slot (rw_entries st)) ws) = length ws)).
Proof.
  revert st. induction fuel as [|fuel IH]; intros st; cbn [lock_write_set].
  { apply wp_fail. exists []. rewrite app_nil_r. repeat split; try done. by left. }
  apply wp_bind.
  eapply wp_conseq;
    [apply wp_and; [apply (lock_pass_spec (S fuel) [] ws st); done
                   |apply wp_keeps_entries, keeps_entries_lock_pass]|].
  cbn. intros st1 [[|]|f] [(n1 & E1 & S1 & P1 & T1 & F1) K1].
  - apply wp_ret. exists n1. repeat split; try done; try (by apply P1); apply T1; done.
  - eapply wp_conseq; [apply IH|]. cbn. rewrite K1.
    intros st2 o (n2 & E2 & S2 & P2 & T2).
    exists (n1 ++ n2). rewrite E2, E1, <- app_assoc. split; [done|].
    specialize (F1 eq_refl). split; [|split].
    + apply sleeps_unlocked_app; [apply S1|done|by rewrite F1].
    + destruct n1; [done|]. destruct (P1 eq_refl) as [|(p & v & r & E & F)]; [done|].
      right. injection E as -> ->. cbn. eauto.
    + intros Ho. unfold held_locks in *. rewrite foldl_app, F1. by apply T2.
  - exists n1. repeat split; try done; by apply P1.
Qed.

Lemma raise_commit_ts_silent db ws commit_ts st :
  wp (raise_commit_ts db (replicate (length ws) false) ws commit_ts) st
     (fun st' _ => trace st' = trace st).
Proof.
  revert commit_ts st. induction ws as [|w ws IH]; intros commit_ts st;
    cbn [raise_commit_ts length replicate head tail default].
  { by apply wp_ret. }
  apply wp_bind, wp_get_entry; [intros e Ee|done].
  apply wp_bind, wp_bind, wp_deref; [intros p Ep|done].
  apply wp_bind, wp_peek, wp_ret, wp_bind, wp_update_entry.
  eapply wp_conseq; [apply IH|]. cbn. intros st' _ ->. by simpl_state.
Qed.

Lemma insert_sorted {A} (cmpfn : A -> A -> Z) (x : A) (l : list A) :
  (forall a b, cmpfn a b <= 0 \/ cmpfn b a <= 0) ->
  Sorted (fun a b => cmpfn a b <= 0) l ->
  Sorted (fun a b => cmpfn a b <= 0) (sort_insert cmpfn x l).
Proof.
  intros Htot. induction l as [|y l IH]; intros Hs; cbn.
  { repeat constructor. }
  destruct (cmpfn x y <=? 0) eqn:E.
  - constructor; [done|]. constructor. lia.
  - apply Sorted_inv in Hs as [Hs Hhd]. constructor; [by apply IH|].
    assert (Hyx : cmpfn y x <= 0) by (destruct (Htot x y); lia).
    destruct l as [|z l]; cbn; [by constructor|].
    destruct (cmpfn x z <=? 0); constructor; [done|].
    by apply HdRel_inv in Hhd.
Qed.

Lemma insert_perm {A} (cmpfn : A -> A -> Z) (x : A) (l : list A) :
  sort_insert cmpfn x l ≡ₚ x :: l.
Proof.
  induction l as [|y l IH]; cbn; [done|].
  destruct (cmpfn x y <=? 0); [done|]. rewrite IH. apply Permutation_swap.
Qed.

Lemma platform_sort_slow_sorted {A} (cmpfn : A -> A -> Z) (base : list A) :
  (forall a b, cmpfn a b <= 0 \/ cmpfn b a <= 0) ->
  Sorted (fun a b => cmpfn a b <= 0) (platform_sort_slow base cmpfn).
Proof.
  intros Htot. induction base as [|x l IH]; cbn; [constructor|].
  by apply insert_sorted.
Qed.

Lemma platform_sort_slow_perm {A} (cmpfn : A -> A -> Z) (base : list A) :
  platform_sort_slow base cmpfn ≡ₚ base.
Proof.
  induction base as [|x l IH]; cbn; [done|]. by rewrite insert_perm, IH.
Qed.

(** ** Everything after the locking loop runs without sleeping *)

Lemma emits_iceberg_get_and_remove P k : emits P (iceberg_get_and_remove k).
Proof.
  apply emits_silent. intros st. unfold iceberg_get_and_remove.
  destruct (refcount _ !! k) as [[|[|n]]|]; cbn; apply interfere_trace.
Qed.

Lemma emits_iceberg_insert_and_get P k : emits P (iceberg_insert_and_get k).
Proof.
  apply emits_silent. intros st. unfold iceberg_insert_and_get.
  destruct (refcount _ !! k); cbn; apply interfere_trace.
Qed.

Lemma emits_iceberg_insert_without P k :
  emits P (iceberg_insert_and_get_without_increasing_refcount k).
Proof.
  apply emits_silent. intros st.
  unfold iceberg_insert_and_get_without_increasing_refcount.
  destruct (refcount _ !! k); cbn; apply interfere_trace.
Qed.

Ltac not_sleep := intros; intros [? [=]].

Ltac emits_no_sleep :=
  repeat first
    [ apply emits_ret | apply emits_fail | apply emits_platform_assert
    | apply emits_get_entry | apply emits_update_entry | apply emits_deref
    | apply emits_peek | apply emits_iceberg_get_and_remove
    | apply emits_iceberg_insert_and_get | apply emits_iceberg_insert_without
    | apply emits_load; not_sleep
    | apply emits_cas; not_sleep
    | apply emits_call; not_sleep
    | apply emits_bind; [|intros ?]
    | match goal with
      | |- emits _ (match ?x with _ => _ end) => destruct x
      | |- emits _ (if ?x then _ else _) => destruct x
      end ].

Lemma no_sleep_iceberg_remove m db i upsert_ts :
  emits (fun ev => ~ is_sleep ev) (rw_entry_iceberg_remove m db i upsert_ts).
Proof. unfold rw_entry_iceberg_remove, splinterdb_update. emits_no_sleep. Qed.

Lemma no_sleep_validate_read fuel commit_ts r :
  emits (fun ev => ~ is_sleep ev) (validate_read fuel commit_ts r).
Proof.
  induction fuel as [|fuel IH]; cbn [validate_read]; emits_no_sleep. apply IH.
Qed.

Lemma no_sleep_validate_read_set m db fuel commit_ts rs :
  emits (fun ev => ~ is_sleep ev) (validate_read_set m db fuel commit_ts rs).
Proof.
  induction rs as [|r rs IH]; cbn [validate_read_set]; emits_no_sleep;
    try apply IH; try apply no_sleep_validate_read; try apply no_sleep_iceberg_remove.
Qed.

Lemma no_sleep_install fuel commit_ts p :
  emits (fun ev => ~ is_sleep ev) (install_commit_ts fuel commit_ts p).
Proof.
  induction fuel as [|fuel IH]; cbn [install_commit_ts]; emits_no_sleep. apply IH.
Qed.

Lemma no_sleep_write_entry m db fuel commit_ts w :
  emits (fun ev => ~ is_sleep ev) (write_entry m db fuel commit_ts w).
Proof.
  unfold write_entry, splinterdb_insert, splinterdb_update, splinterdb_delete.
  emits_no_sleep; apply no_sleep_install.
Qed.

Lemma no_sleep_write_write_set m db fuel commit_ts ws :
  emits (fun ev => ~ is_sleep ev) (write_write_set m db fuel commit_ts ws).
Proof. apply emits_for_each. intros w _. apply no_sleep_write_entry. Qed.

Lemma no_sleep_unlock fuel i : emits (fun ev => ~ is_sleep ev) (rw_entry_unlock fuel i).
Proof.
  induction fuel as [|fuel IH]; cbn [rw_entry_unlock]; emits_no_sleep. apply IH.
Qed.

Lemma no_sleep_unlock_write_set fuel ws :
  emits (fun ev => ~ is_sleep ev) (unlock_write_set fuel ws).
Proof. apply emits_for_each. intros w _. apply no_sleep_unlock. Qed.

Lemma no_sleep_deinit m db : emits (fun ev => ~ is_sleep ev) (transaction_deinit m db).
Proof.
  intros st. unfold transaction_deinit.
  apply emits_for_each. intros w _. apply no_sleep_iceberg_remove.
Qed.

Lemma commit_timestamp_spec m db fuel st :
  let es := rw_entries st in
  let ws := platform_sort_slow (scan_rw_entries m 0 es 0).1.2
              (rw_entry_key_compare (tcfg_data_cfg db) es) in
  wp (commit_timestamp m db fuel) st (fun st' o =>
    exists new, trace st' = trace st ++ new
      /\ sleeps_unlocked (head ws ≫= entry_slot es) [] new
      /\ starts_pass (head ws ≫= entry_slot es) new
      /\ (forall rs ws' cts, o = Ret (rs, ws', cts) ->
          rs = (scan_rw_entries m 0 es 0).1.1 /\ ws' = ws
          /\ held_locks new = omap (entry_slot es) ws
          /\ length (omap (entry_slot es) ws) = length ws)).
Proof.
  cbv zeta. unfold wp, commit_timestamp.
  destruct (scan_rw_entries m 0 (rw_entries st) 0) as [[rs ws0] c0] eqn:Escan.
  cbn [fst snd].
  set (ws := platform_sort_slow ws0 _).
  change (wp (bind (lock_write_set fuel ws) (fun _ =>
            bind (raise_commit_ts db (replicate (length ws) false) ws c0)
              (fun commit_ts => ret (rs, ws, commit_ts)))) st
          (fun st' o => exists new, trace st' = trace st ++ new
      /\ sleeps_unlocked (head ws ≫= entry_slot (rw_entries st)) [] new
      /\ starts_pass (head ws ≫= entry_slot (rw_entries st)) new
      /\ (forall rs0 ws' cts, o = Ret (rs0, ws', cts) ->
          rs0 = rs /\ ws' = ws
          /\ held_locks new = omap (entry_slot (rw_entries st)) ws
          /\ length (omap (entry_slot (rw_entries st)) ws) = length ws))).
  apply wp_bind. eapply wp_conseq; [apply lock_write_set_spec|].
  cbn. intros st1 [[]|f] (n1 & E1 & S1 & P1 & T1).
  - apply wp_bind. eapply wp_conseq; [apply raise_commit_ts_silent|].
    cbn. intros st2 [cts|f] E2.
    + apply wp_ret. exists n1. rewrite E2. repeat split; try done;
        try (injection H as <- <- <-; done); try (by apply T1).
      all: injection H as <- <- <-; by apply T1.
    + exists n1. rewrite E2. repeat split; done.
  - exists n1. repeat split; done.
Qed.

Lemma app_eq_split_left {A} (P : A -> Prop) (l1 l2 pre post : list A) (x : A) :
  l1 ++ l2 = pre ++ x :: post -> Forall P l2 -> ~ P x ->
  exists post1, l1 = pre ++ x :: post1 /\ post = post1 ++ l2.
Proof.
  revert pre. induction l1 as [|a l1 IH]; intros pre E HP Hx.
  - cbn in E. subst l2. apply Forall_app in HP as [_ HP].
    apply Forall_cons in HP as [HP _]. done.
  - destruct pre as [|b pre]; cbn in E; injection E as -> E.
    + exists l1. done.
    + destruct (IH pre E HP Hx) as (post1 & -> & ->). by exists post1.
Qed.

Lemma interfere_others st : length (others (interfere st)) = pred (length (others st)).
Proof. unfold interfere. destruct (others st) eqn:E; [by rewrite E|done]. Qed.

Lemma in_turn_nil R : in_turn R [] [].
Proof. exists []. split; [constructor|done]. Qed.

Lemma in_turn_cons (R : slice -> list event -> Prop) p ps t1 t2 :
  R p t1 -> in_turn R ps t2 -> in_turn R (p :: ps) (t1 ++ t2).
Proof. intros H1 (ts & H2 & ->). exists (t1 :: ts). split; [by constructor|done]. Qed.

Lemma in_turn_app (R : slice -> list event -> Prop) ps qs t1 t2 :
  in_turn R ps t1 -> in_turn R qs t2 -> in_turn R (ps ++ qs) (t1 ++ t2).
Proof.
  intros (ts1 & H1 & ->) (ts2 & H2 & ->). exists (ts1 ++ ts2).
  split; [by apply Forall2_app|by rewrite concat_app].
Qed.

(** [rw_entry_unlock] gets through when it may try more often than the other
    threads take steps. *)
Lemma unlock_progress fuel i p st :
  entry_slot (rw_entries st) i = Some p ->
  (length (others st) < fuel)%nat ->
  wp (rw_entry_unlock fuel i) st (fun st' o =>
    o = Ret tt /\ rw_entries st' = rw_entries st
    /\ (length (others st') <= length (others st))%nat
    /\ exists new, trace st' = trace st ++ new /\ unlocks_slot p new).
Proof.
  revert st. induction fuel as [|fuel IH]; intros st Hslot Hb; [lia|].
  cbn [rw_entry_unlock]. unfold entry_slot in Hslot.
  destruct (rw_entries st !! i) as [e|] eqn:Ee; [|done]. cbn in Hslot.
  apply wp_bind, wp_get_entry; [intros e' Ee'|congruence].
  assert (e' = e) as -> by congruence.
  apply wp_bind, wp_deref; [intros p' Ep'|congruence].
  assert (p' = p) as -> by congruence.
  apply wp_bind, wp_load. intros v.
  set (st1 := emit (EvLoad p v) (interfere st)).
  assert (Hb1 : length (others st1) = pred (length (others st))).
  { unfold st1. by rewrite others_emit, interfere_others. }
  apply wp_bind, wp_cas; intros Hv.
  - apply wp_ret. split; [done|]. split.
    { unfold st1. by simpl_state. }
    split.
    { rewrite others_emit, others_with_tscache, interfere_others. lia. }
    exists [EvLoad p v; EvCas p v (set_lock_bit v false) true].
    split; [|constructor]. unfold st1. simpl_state. by rewrite <- app_assoc.
  - assert (Hne : others st1 <> []).
    { intros Hq. apply Hv. rewrite (interfere_quiet st1 Hq). done. }
    set (st2 := emit _ (interfere st1)).
    assert (Hb2 : (length (others st2) < length (others st1))%nat).
    { unfold st2. rewrite others_emit, interfere_others.
      destruct (others st1); [done|cbn; lia]. }
    eapply wp_conseq.
    { apply IH; [|lia]. unfold st2, st1. simpl_state. unfold entry_slot.
      by rewrite Ee. }
    cbv beta. intros st' o (-> & E & Hb' & new & Et & Hu).
    split; [done|]. split.
    { rewrite E. unfold st2, st1. by simpl_state. }
    split; [lia|].
    exists (EvLoad p v :: EvCas p v (set_lock_bit v false) false :: new).
    split; [|by constructor].
    rewrite Et. unfold st2, st1. simpl_state. by rewrite <- !app_assoc.
Qed.

Lemma unlock_write_set_progress fuel locked st :
  Forall (fun i => is_Some (entry_slot (rw_entries st) i)) locked ->
  (length (others st) < fuel)%nat ->
  wp (unlock_write_set fuel locked) st (fun st' o =>
    o = Ret tt /\ rw_entries st' = rw_entries st
    /\ (length (others st') <= length (others st))%nat
    /\ exists new, trace st' = trace st ++ new
         /\ in_turn unlocks_slot (omap (entry_slot (rw_entries st)) locked) new).
Proof.
  revert st. induction locked as [|i locked IH]; intros st Hs Hb.
  { apply wp_ret. repeat split; try done. exists []. rewrite app_nil_r.
    split; [done|apply in_turn_nil]. }
  apply Forall_cons in Hs as [[p Hp] Hs].
  unfold unlock_write_set in *. cbn [for_each].
  apply wp_bind. eapply wp_conseq; [by apply (unlock_progress fuel i p)|].
  cbv beta. intros st1 o (-> & E1 & B1 & n1 & T1 & U1).
  eapply wp_conseq; [apply IH; [by rewrite E1|lia]|].
  cbv beta. intros st2 o (-> & E2 & B2 & n2 & T2 & U2).
  split; [done|]. split; [congruence|]. split; [lia|].
  exists (n1 ++ n2). rewrite T2, T1, <- app_assoc. split; [done|].
  cbn [omap list_omap]. rewrite Hp. cbn [omap list_omap].
  rewrite E1 in U2. by apply in_turn_cons.
Qed.

Lemma omap_slots_app es (l1 l2 : list nat) :
  omap (entry_slot es) (l1 ++ l2) = omap (entry_slot es) l1 ++ omap (entry_slot es) l2.
Proof. apply omap_app. Qed.

(** One pass, for entries that all point to a slot. *)
Lemma lock_pass_progress fuel locked todo st :
  Forall (fun i => is_Some (entry_slot (rw_entries st) i)) (locked ++ todo) ->
  (length (others st) < fuel)%nat ->
  wp (lock_write_set_pass fuel locked todo) st (fun st' o =>
    rw_entries st' = rw_entries st
    /\ exists new, trace st' = trace st ++ new
       /\ ((o = Ret true
            /\ (length (others st') <= length (others st))%nat
            /\ in_turn locks_slot (omap (entry_slot (rw_entries st)) todo) new)
           \/ (o = Ret false
               /\ (length (others st') <= pred (length (others st)))%nat
               /\ exists taken p rest t1 t2 t3,
                    omap (entry_slot (rw_entries st)) todo = taken ++ p :: rest
                    /\ in_turn locks_slot taken t1
                    /\ fails_to_lock p t2
                    /\ in_turn unlocks_slot
                         (omap (entry_slot (rw_entries st)) locked ++ taken) t3
                    /\ new = t1 ++ t2 ++ t3 ++ [EvSleep 1000]))).
Proof.
  revert locked st. induction todo as [|w rest IH]; intros locked st Hs Hb;
    cbn [lock_write_set_pass].
  { apply wp_ret. split; [done|]. exists []. rewrite app_nil_r. split; [done|].
    left. repeat split; try done. apply in_turn_nil. }
  pose proof Hs as Hall.
  apply Forall_app in Hs as [Hlocked Htodo].
  apply Forall_cons in Htodo as [[p Hp] Hrest].
  pose proof Hp as Hp'. unfold entry_slot in Hp'.
  destruct (rw_entries st !! w) as [e|] eqn:Ee; [|done]. cbn in Hp'.
  apply wp_bind, wp_get_entry; [intros e' Ee'|congruence].
  assert (e' = e) as -> by congruence.
  apply wp_bind, wp_assert; intros Hts.
  2:{ apply bool_decide_eq_false in Hts. destruct Hts. by rewrite Hp'. }
  unfold rw_entry_try_lock.
  apply wp_bind, wp_bind, wp_get_entry; [intros e2 Ee2|congruence].
  assert (e2 = e) as -> by congruence.
  apply wp_bind, wp_deref; [intros p' Ep'|congruence].
  assert (p' = p) as -> by congruence.
  apply wp_bind, wp_load. intros v.
  set (st1 := emit (EvLoad p v) (interfere st)).
  assert (Hb1 : length (others st1) = pred (length (others st))).
  { unfold st1. by rewrite others_emit, interfere_others. }
  assert (He1 : rw_entries st1 = rw_entries st) by (unfold st1; by simpl_state).
  assert (Ht1 : trace st1 = trace st ++ [EvLoad p v]) by (unfold st1; by simpl_state).
  cbn [omap list_omap]. rewrite Hp. cbn [omap list_omap].
  destruct (lock_bit v) eqn:Hlock.
  - (* the load finds the slot locked *)
    apply wp_ret, wp_bind.
    eapply wp_conseq; [apply (unlock_write_set_progress fuel locked st1)|].
    { by rewrite He1. }
    { lia. }
    cbv beta. intros st2 o (-> & E2 & B2 & n2 & T2 & U2).
    apply wp_bind, wp_sleep, wp_ret. simpl_state.
    split; [congruence|].
    exists ([EvLoad p v] ++ n2 ++ [EvSleep 1000]).
    split; [by rewrite T2, Ht1, <- !app_assoc|].
    right. split; [done|]. split; [lia|].
    exists [], p, (omap (entry_slot (rw_entries st)) rest), [], [EvLoad p v], n2.
    rewrite app_nil_r. repeat split; try done.
    + apply in_turn_nil.
    + exists v. by left.
    + by rewrite <- He1.
  - apply wp_cas; intros Hv.
    + (* the lock is taken: on to the next entry *)
      set (st2 := emit _ (with_tscache _ (interfere st1))).
      assert (He2 : rw_entries st2 = rw_entries st) by (unfold st2; by simpl_state).
      assert (Hb2 : (length (others st2) <= pred (length (others st)))%nat).
      { unfold st2. rewrite others_emit, others_with_tscache, interfere_others. lia. }
      eapply wp_conseq; [apply (IH (locked ++ [w]) st2)|].
      { rewrite He2, <- app_assoc. done. }
      { lia. }
      cbv beta. intros st' o (E & new & T & Hcase).
      split; [congruence|].
      exists ([EvLoad p v; EvCas p v (set_lock_bit v true) true] ++ new).
      split.
      { rewrite T. unfold st2. simpl_state. rewrite Ht1, <- !app_assoc. done. }
      rewrite He2 in Hcase.
      destruct Hcase as [(-> & B & L)|(-> & B & taken & q & rest' & t1 & t2 & t3
                                       & Esl & L & F & U & ->)].
      * left. split; [done|]. split; [lia|].
        apply in_turn_cons; [|done]. by exists v.
      * right. split; [done|]. split; [lia|].
        exists (p :: taken), q, rest',
          ([EvLoad p v; EvCas p v (set_lock_bit v true) true] ++ t1), t2, t3.
        rewrite Esl. repeat split; try done.
        -- apply in_turn_cons; [|done]. by exists v.
        -- rewrite omap_app in U. cbn [omap list_omap] in U. rewrite Hp in U.
           cbn [omap list_omap] in U. by rewrite <- app_assoc in U.
    + (* the CAS fails *)
      set (st2 := emit _ (interfere st1)).
      assert (He2 : rw_entries st2 = rw_entries st) by (unfold st2; by simpl_state).
      assert (Hb2 : (length (others st2) <= pred (length (others st)))%nat).
      { unfold st2. rewrite others_emit, interfere_others. lia. }
      apply wp_bind.
      eapply wp_conseq; [apply (unlock_write_set_progress fuel locked st2)|].
      { by rewrite He2. }
      { lia. }
      cbv beta. intros st3 o (-> & E3 & B3 & n3 & T3 & U3).
      apply wp_bind, wp_sleep, wp_ret. simpl_state.
      split; [congruence|].
      exists ([EvLoad p v; EvCas p v (set_lock_bit v true) false] ++ n3 ++ [EvSleep 1000]).
      split.
      { rewrite T3. unfold st2. simpl_state. rewrite Ht1, <- !app_assoc. done. }
      right. split; [done|]. split; [lia|].
      exists [], p, (omap (entry_slot (rw_entries st)) rest), [],
        [EvLoad p v; EvCas p v (set_lock_bit v true) false], n3.
      rewrite app_nil_r. repeat split; try done.
      * apply in_turn_nil.
      * exists v. by right.
      * by rewrite <- He2.
Qed.

(** The loop: failed passes until one locks every entry; it stops earlier
    only when the fuel is used up, one unit for each failed pass. *)
Lemma lock_write_set_progress fuel ws st :
  Forall (fun i => is_Some (entry_slot (rw_entries st) i)) ws ->
  (length (others st) <= pred fuel)%nat ->
  wp (lock_write_set fuel ws) st (fun st' o =>
    rw_entries st' = rw_entries st
    /\ exists new, trace st' = trace st ++ new
       /\ match o with
          | Ret _ => locking_trace (omap (entry_slot (rw_entries st)) ws) fuel true new
          | Fail f =>
              f = OutOfFuel
              /\ locking_trace (omap (entry_slot (rw_entries st)) ws) fuel false new
          end).
Proof.
  revert st. induction fuel as [|fuel IH]; intros st Hs Hb; cbn [lock_write_set].
  { apply wp_fail. split; [done|]. exists []. rewrite app_nil_r. split; [done|].
    split; [done|]. exists [], []. repeat split; try done. }
  apply wp_bind.
  eapply wp_conseq; [apply (lock_pass_progress (S fuel) [] ws st); [done|cbn in Hb; lia]|].
  cbv beta. intros st1 o (E1 & n1 & T1 & [(-> & B1 & L1)|(-> & B1 & taken & p & rest & t1 & t2
                                                      & t3 & Esl & L1 & F1 & U1 & ->)]).
  - apply wp_ret. split; [done|]. exists n1. split; [done|].
    exists [], n1. repeat split; try done. cbn [length]. lia.
  - eapply wp_conseq; [apply IH; [by rewrite E1|cbn in Hb; lia]|].
    cbv beta. intros st2 o (E2 & n2 & T2 & Hcase).
    split; [congruence|].
    exists ((t1 ++ t2 ++ t3 ++ [EvSleep 1000]) ++ n2).
    split; [by rewrite T2, T1, <- !app_assoc|].
    assert (Hpass : failed_pass (omap (entry_slot (rw_entries st)) ws)
                      (t1 ++ t2 ++ t3 ++ [EvSleep 1000])).
    { exists taken, p, rest, t1, t2, t3. done. }
    rewrite E1 in Hcase.
    destruct o as [[]|f].
    + destruct Hcase as (passes & last & -> & Hp & Hlen & Hl).
      exists ((t1 ++ t2 ++ t3 ++ [EvSleep 1000]) :: passes), last.
      cbn [concat length]. rewrite <- !app_assoc.
      repeat split; try done; [by constructor|cbn [length] in *; lia].
    + destruct Hcase as (-> & passes & last & -> & Hp & Hlen & ->).
      split; [done|].
      exists ((t1 ++ t2 ++ t3 ++ [EvSleep 1000]) :: passes), [].
      cbn [concat length]. rewrite <- !app_assoc.
      repeat split; try done; [by constructor|cbn [length] in *; lia].
Qed.

Lemma entry_slot_alter_rts es w r i :
  entry_slot (alter (set_entry_rts r) w es) i = entry_slot es i.
Proof.
  unfold entry_slot. destruct (decide (i = w)) as [->|Hne].
  - rewrite list_lookup_alter_eq. by destruct (es !! w).
  - by rewrite list_lookup_alter_ne.
Qed.

Lemma raise_commit_ts_returns db ws commit_ts st :
  Forall (fun i => is_Some (entry_slot (rw_entries st) i)) ws ->
  wp (raise_commit_ts db (replicate (length ws) false) ws commit_ts) st
     (fun _ o => exists cts, o = Ret cts).
Proof.
  revert commit_ts st. induction ws as [|w ws IH]; intros commit_ts st Hs;
    cbn [raise_commit_ts length replicate head tail default].
  { apply wp_ret. by eexists. }
  apply Forall_cons in Hs as [[p Hp] Hs]. unfold entry_slot in Hp.
  destruct (rw_entries st !! w) as [e|] eqn:Ee; [|done]. cbn in Hp.
  apply wp_bind, wp_get_entry; [intros e' Ee'|congruence].
  assert (e' = e) as -> by congruence.
  apply wp_bind, wp_bind, wp_deref; [intros p' Ep'|congruence].
  apply wp_bind, wp_peek, wp_ret, wp_bind, wp_update_entry.
  apply IH. simpl_state.
  eapply Forall_impl; [exact Hs|]. intros i Hi. cbv beta.
  by rewrite entry_slot_alter_rts.
Qed.

Lemma commit_timestamp_progress m db fuel st :
  let es := rw_entries st in
  let ws := platform_sort_slow (scan_rw_entries m 0 es 0).1.2
              (rw_entry_key_compare (tcfg_data_cfg db) es) in
  Forall (fun i => is_Some (entry_slot es i)) ws ->
  (length (others st) < fuel)%nat ->
  wp (commit_timestamp m db fuel) st (fun st' o =>
    exists new, trace st' = trace st ++ new
      /\ match o with
         | Ret _ => locking_trace (omap (entry_slot es) ws) fuel true new
         | Fail f =>
             f = OutOfFuel /\ locking_trace (omap (entry_slot es) ws) fuel false new
         end).
Proof.
  cbv zeta. unfold wp at 1, commit_timestamp.
  destruct (scan_rw_entries m 0 (rw_entries st) 0) as [[rs ws0] c0] eqn:Escan.
  cbn [fst snd]. set (ws := platform_sort_slow ws0 _). intros Hs Hb.
  change (wp (bind (lock_write_set fuel ws) (fun _ =>
            bind (raise_commit_ts db (replicate (length ws) false) ws c0)
              (fun commit_ts => ret (rs, ws, commit_ts)))) st
          (fun st' o => exists new, trace st' = trace st ++ new
      /\ match o with
         | Ret _ => locking_trace (omap (entry_slot (rw_entries st)) ws) fuel true new
         | Fail f =>
             f = OutOfFuel
             /\ locking_trace (omap (entry_slot (rw_entries st)) ws) fuel false new
         end)).
  apply wp_bind.
  eapply wp_conseq; [apply lock_write_set_progress; [done|lia]|].
  cbv beta. intros st1 [[]|f] (E1 & n1 & T1 & H1).
  - apply wp_bind.
    eapply wp_conseq;
      [apply wp_and; [apply raise_commit_ts_silent
                     |apply raise_commit_ts_returns; by rewrite E1]|].
    cbv beta. intros st2 o [T2 [cts ->]]. apply wp_ret.
    exists n1. by rewrite T2.
  - by exists n1.
Qed.

(** C5. The commit sorts its write set by key under the comparator of the
    [data_config] (for a comparator that orders any two keys) and locks the
    entries in that order: when the locking loop is through, the locks it holds
    are those of the sorted array, in order. Whatever the other threads do and
    however often the loop retries, every sleep of the commit is one of the
    locking loop, lasts 1000 ns, happens when every lock taken in the failed
    pass has been given back (the transaction holds no lock), and is followed,
    if the run goes on, by a new pass that starts at the first entry of the
    sorted write set. And the loop does all of this: when every write entry
    points to its slot of the cache and the run may make more passes than
    the other threads take steps, the accesses of the locking loop are a
    sequence of failed passes followed by one pass that locks every entry
    in order, after which the loop is left; a failed pass locks the entries
    before the one whose [rw_entry_try_lock] fails (the load finds the lock
    bit set, or the CAS fails), then gives back exactly the locks it took, in
    the order it took them, then sleeps 1000 ns, and the next pass starts at
    the first entry again. The loop never gives up: it goes on failing only
    for as many passes as the run is allowed. *)
Theorem C5_sorted_no_wait_locking (m : build_macros) (db : transactional_splinterdb)
    (fuel : nat) (st : state) :
  (forall a b, key_compare (tcfg_data_cfg db) a b <= 0
               \/ key_compare (tcfg_data_cfg db) b a <= 0) ->
  let es := rw_entries st in
  let unsorted := (scan_rw_entries m 0 es 0).1.2 in
  let ws := platform_sort_slow unsorted
              (rw_entry_key_compare (tcfg_data_cfg db) es) in
  ws ≡ₚ unsorted
  /\ Sorted (fun i j => data_key_compare (tcfg_data_cfg db)
                          (entry_key es i) (entry_key es j) <= 0) ws
  /\ exists locking rest,
       trace (commit_timestamp m db fuel st).1 = trace st ++ locking
       /\ trace (transactional_splinterdb_commit m db fuel st).1
          = trace st ++ locking ++ rest
       /\ Forall (fun ev => ~ is_sleep ev) rest
       /\ (forall rs ws' cts,
             (commit_timestamp m db fuel st).2 = Ret (rs, ws', cts) ->
             ws' = ws
             /\ held_locks locking = omap (entry_slot es) ws
             /\ length (held_locks locking) = length ws)
       /\ (forall pre ns post,
             locking = pre ++ EvSleep ns :: post ->
             ns = 1000 /\ held_locks pre = []
             /\ starts_pass (head ws ≫= entry_slot es) post)
       /\ (Forall (fun i => is_Some (entry_slot es i)) ws ->
           (length (others st) < fuel)%nat ->
           match (commit_timestamp m db fuel st).2 with
           | Ret _ => locking_trace (omap (entry_slot es) ws) fuel true locking
           | Fail f =>
               f = OutOfFuel
               /\ locking_trace (omap (entry_slot es) ws) fuel false locking
           end).
Proof.
  intros Htot. cbv zeta.
  split; [apply platform_sort_slow_perm|].
  split.
  { apply (platform_sort_slow_sorted
             (rw_entry_key_compare (tcfg_data_cfg db) (rw_entries st))).
    intros i j. apply Htot. }
  pose proof (commit_timestamp_spec m db fuel st) as Hspec. cbv zeta in Hspec.
  pose proof (commit_timestamp_progress m db fuel st) as Hprog. cbv zeta in Hprog.
  unfold transactional_splinterdb_commit, bind at 1.
  unfold wp in Hspec, Hprog.
  destruct (commit_timestamp m db fuel st) as [st1 o1]. cbn [fst snd] in *.
  destruct Hspec as (locking & E1 & S1 & P1 & T1).
  assert (Hsplit : forall pre ns post, locking = pre ++ EvSleep ns :: post ->
            ns = 1000 /\ held_locks pre = []
            /\ starts_pass (head (platform_sort_slow
                  (scan_rw_entries m 0 (rw_entries st) 0).1.2
                  (rw_entry_key_compare (tcfg_data_cfg db) (rw_entries st)))
                ≫= entry_slot (rw_entries st)) post).
  { intros pre ns post E. eapply sleeps_unlocked_split in S1 as (? & ? & ?); eauto. }
  assert (Hshape :
    Forall (fun i => is_Some (entry_slot (rw_entries st) i))
      (platform_sort_slow (scan_rw_entries m 0 (rw_entries st) 0).1.2
         (rw_entry_key_compare (tcfg_data_cfg db) (rw_entries st))) ->
    (length (others st) < fuel)%nat ->
    match o1 with
    | Ret _ =>
        locking_trace
          (omap (entry_slot (rw_entries st))
             (platform_sort_slow (scan_rw_entries m 0 (rw_entries st) 0).1.2
                (rw_entry_key_compare (tcfg_data_cfg db) (rw_entries st))))
          fuel true locking
    | Fail f =>
        f = OutOfFuel
        /\ locking_trace
             (omap (entry_slot (rw_entries st))
                (platform_sort_slow (scan_rw_entries m 0 (rw_entries st) 0).1.2
                   (rw_entry_key_compare (tcfg_data_cfg db) (rw_entries st))))
             fuel false locking
    end).
  { intros Hs Hb. destruct (Hprog Hs Hb) as (new & E2 & H2).
    rewrite E1 in E2. apply app_inv_head in E2 as <-. exact H2. }
  clear Hprog.
  destruct o1 as [[[rs ws'] cts]|f].
  - assert (Hrest : emits (fun ev => ~ is_sleep ev)
                      (commit_validate_and_write m db fuel rs ws' cts)).
    { unfold commit_validate_and_write.
      apply emits_bind; [apply no_sleep_validate_read_set|]. intros is_abort.
      apply emits_bind.
      { destruct (negb is_abort);
          [apply no_sleep_write_write_set|apply no_sleep_unlock_write_set]. }
      intros _. apply emits_bind; [apply no_sleep_deinit|]. intros _. apply emits_ret. }
    destruct (Hrest st1) as (rest & E2 & F2).
    exists locking, rest. rewrite E2, E1, <- app_assoc.
    split; [done|]. split; [done|]. split; [done|]. split; [|split; [|exact Hshape]].
    + intros rs0 ws0 cts0 [= <- <- <-].
      destruct (T1 _ _ _ eq_refl) as (_ & <- & Hh & Hl). by rewrite Hh.
    + intros pre ns post E. eapply Hsplit; eauto.
  - exists locking, []. cbn [bind]. rewrite app_nil_r.
    split; [done|]. split; [done|]. split; [done|]. split; [|split; [|exact Hshape]].
    + intros ? ? ? [=].
    + intros pre ns post E. eapply Hsplit; eauto.
Qed.

Lemma C5_sorted_no_wait_locking_witness :
  let db := sample_db in
  let st := contended_state in
  let fuel := 12%nat in
  let m := default_build in
  let es := rw_entries st in
  let unsorted := (scan_rw_entries m 0 es 0).1.2 in
  let ws := platform_sort_slow unsorted
              (rw_entry_key_compare (tcfg_data_cfg db) es) in
  (forall a b, key_compare (tcfg_data_cfg db) a b <= 0
               \/ key_compare (tcfg_data_cfg db) b a <= 0)
  /\ Forall (fun i => is_Some (entry_slot es i)) ws
  /\ (length (others st) < fuel)%nat
  /\ ws ≡ₚ unsorted
  /\ Sorted (fun i j => data_key_compare (tcfg_data_cfg db)
                          (entry_key es i) (entry_key es j) <= 0) ws
  /\ exists locking rest,
       trace (commit_timestamp m db fuel st).1 = trace st ++ locking
       /\ trace (transactional_splinterdb_commit m db fuel st).1
          = trace st ++ locking ++ rest
       /\ Forall (fun ev => ~ is_sleep ev) rest
       /\ (forall rs ws' cts,
             (commit_timestamp m db fuel st).2 = Ret (rs, ws', cts) ->
             ws' = ws
             /\ held_locks locking = omap (entry_slot es) ws
             /\ length (held_locks locking) = length ws)
       /\ (forall pre ns post,
             locking = pre ++ EvSleep ns :: post ->
             ns = 1000 /\ held_locks pre = []
             /\ starts_pass (head ws ≫= entry_slot es) post)
       /\ (Forall (fun i => is_Some (entry_slot es i)) ws ->
           (length (others st) < fuel)%nat ->
           match (commit_timestamp m db fuel st).2 with
           | Ret _ => locking_trace (omap (entry_slot es) ws) fuel true locking
           | Fail f =>
               f = OutOfFuel
               /\ locking_trace (omap (entry_slot es) ws) fuel false locking
           end).
Proof.
  cbv zeta.
  assert (Htot : forall a b, key_compare (tcfg_data_cfg sample_db) a b <= 0
                             \/ key_compare (tcfg_data_cfg sample_db) b a <= 0).
  { intros a b. cbn. lia. }
  split; [exact Htot|].
  split; [vm_compute; repeat constructor; by eexists|].
  split; [vm_compute; lia|].
  exact (C5_sorted_no_wait_locking default_build sample_db 12 contended_state Htot).
Defined.

(** ** Lookups *)

Lemma wp_iceberg_insert (m : build_macros) k st (Q : state -> outcome bool -> Prop) :
  (forall st' b, trace st' = trace st -> rw_entries st' = rw_entries st -> Q st' (Ret b)) ->
  wp (if EXPERIMENTAL_MODE_KEEP_ALL_KEYS m
      then iceberg_insert_and_get_without_increasing_refcount k
      else iceberg_insert_and_get k) st Q.
Proof.
  intros H. unfold wp.
  destruct (EXPERIMENTAL_MODE_KEEP_ALL_KEYS m);
    [unfold iceberg_insert_and_get_without_increasing_refcount
    |unfold iceberg_insert_and_get];
    destruct (refcount _ !! k); cbn; apply H; by simpl_state.
Qed.

Lemma wp_rw_entry_get_found m cfg user_key is_read_arg st i
    (Q : state -> outcome nat -> Prop) :
  find_rw_entry cfg user_key 0 (rw_entries st) = Some i ->
  Q (with_rw_entries (alter (fun e => set_is_read (is_read e || is_read_arg) e) i) st)
    (Ret i) ->
  wp (rw_entry_get m cfg user_key is_read_arg) st Q.
Proof. intros Hfind HQ. unfold wp, rw_entry_get. by rewrite Hfind. Qed.

(** C10. With the block of lines 865-882 compiled in
    ([EXPERIMENTAL_MODE_BYPASS_SPLINTERDB == 0]), a lookup of a key whose
    entry in the transaction carries a buffered write returns 0 and fills the
    result with the whole buffered message, the [sizeof(tuple_header)] bytes of
    its header included (not stripped); it calls the store not at all, makes
    no atomic access, and leaves the [wts] and [rts] recorded in the entry as
    they were. *)
Theorem C10_read_my_own_write (m : build_macros) (db : transactional_splinterdb)
    (fuel : nat) (user_key : slice) (result : option (list Z)) (v2 : timestamp_set)
    (st : state) (i : nat) (e : rw_entry) (wmsg : message) :
  EXPERIMENTAL_MODE_BYPASS_SPLINTERDB m = false ->
  find_rw_entry (tcfg_data_cfg db) user_key 0 (rw_entries st) = Some i ->
  rw_entries st !! i = Some e ->
  msg e = Some wmsg ->
  let run := transactional_splinterdb_lookup m db fuel user_key result v2 st in
  run.2 = Ret (0, Some (message_data wmsg))
  /\ trace run.1 = trace st
  /\ (exists e', rw_entries run.1 !! i = Some e'
                 /\ msg e' = Some wmsg
                 /\ entry_wts e' = entry_wts e /\ entry_rts e' = entry_rts e)
  /\ (forall e0 app,
        e = rw_entry_set_msg e0 app ->
        message_data wmsg = replicate sizeof_tuple_header 0 ++ message_data app
        /\ length (message_data wmsg)
           = (sizeof_tuple_header + message_length app)%nat
        /\ drop sizeof_tuple_header (message_data wmsg) = message_data app).
Proof.
  intros Hmode Hfind He Hmsg. cbv zeta.
  assert (Hrun : wp (transactional_splinterdb_lookup m db fuel user_key result v2) st
            (fun st' o =>
               o = Ret (0, Some (message_data wmsg)) /\ trace st' = trace st
               /\ exists e', rw_entries st' !! i = Some e' /\ msg e' = Some wmsg
                    /\ entry_wts e' = entry_wts e /\ entry_rts e' = entry_rts e)).
  { unfold transactional_splinterdb_lookup.
    apply wp_bind, (wp_rw_entry_get_found _ _ _ _ _ i); [done|].
    set (e1 := set_is_read (is_read e || true) e).
    set (st1 := with_rw_entries _ st).
    assert (He1 : rw_entries st1 !! i = Some e1).
    { unfold st1. simpl_state. rewrite list_lookup_alter_eq, He. done. }
    apply wp_bind. unfold rw_entry_iceberg_insert.
    apply wp_bind, wp_get_entry; [intros e1' He1'|congruence].
    assert (e1' = e1) as -> by congruence.
    rewrite Hmode. cbn [negb].
    destruct (tuple_ts e1) eqn:Ets.
    - apply wp_ret, wp_bind, wp_get_entry; [intros e2 He2|congruence].
      assert (e2 = e1) as -> by congruence.
      cbn [e1 msg set_is_read]. rewrite Hmsg. apply wp_ret.
      split; [done|]. split; [done|]. exists e1. done.
    - apply wp_bind, wp_iceberg_insert. intros st' b Ht Hes.
      apply wp_bind, wp_update_entry, wp_ret.
      apply wp_bind, wp_get_entry.
      + intros e2. simpl_state. rewrite Hes, list_lookup_alter_eq, He1. cbn.
        intros [= <-]. cbn. rewrite Hmsg. apply wp_ret. simpl_state.
        split; [done|]. split; [done|]. rewrite Hes, list_lookup_alter_eq, He1.
        eexists. split; [done|]. done.
      + simpl_state. rewrite Hes, list_lookup_alter_eq, He1. done. }
  unfold wp in Hrun. destruct Hrun as (H1 & H2 & H3).
  split; [done|]. split; [done|]. split; [done|].
  intros e0 app ->. cbn in Hmsg. injection Hmsg as <-. cbn.
  unfold message_length. repeat split; done.
Qed.

Lemma C10_read_my_own_write_witness :
  let run := transactional_splinterdb_lookup default_build one_tuple_db 3 [3] None
               timestamp_set_zero buffered_state in
  run.2 = Ret (0, Some (replicate sizeof_tuple_header 0 ++ [7; 7]))
  /\ trace run.1 = []
  /\ kv_calls (trace run.1) = [].
Proof.
  pose proof (C10_read_my_own_write default_build one_tuple_db 3 [3] None
                timestamp_set_zero buffered_state 0
                (write_entry_of [3; 0] MESSAGE_TYPE_INSERT [7; 7])
                (message_create MESSAGE_TYPE_INSERT
                   (replicate sizeof_tuple_header 0 ++ [7; 7]))
                eq_refl eq_refl eq_refl eq_refl) as (H1 & H2 & _).
  cbv zeta. rewrite H2. split; [exact H1|]. split; reflexivity.
Defined.

(** In this build a lookup makes one atomic load at most: it never calls the
    store and never writes to the cache. *)
Lemma lookup_only_loads (m : build_macros) (db : transactional_splinterdb)
    (fuel : nat) (user_key : slice) (result : option (list Z)) (v2 : timestamp_set) :
  EXPERIMENTAL_MODE_BYPASS_SPLINTERDB m = false ->
  emits (fun ev => exists p v, ev = EvLoad p v)
    (transactional_splinterdb_lookup m db fuel user_key result v2).
Proof.
  intros Hmode. unfold transactional_splinterdb_lookup. rewrite Hmode. cbn [negb].
  apply emits_bind.
  { apply emits_silent. intros st. unfold rw_entry_get.
    by destruct (find_rw_entry _ _ _ _). }
  intros i. apply emits_bind.
  { unfold rw_entry_iceberg_insert.
    apply emits_bind; [apply emits_get_entry|]. intros e.
    destruct (tuple_ts e); [apply emits_ret|].
    apply emits_bind.
    { destruct (EXPERIMENTAL_MODE_KEEP_ALL_KEYS m);
        [apply emits_iceberg_insert_without|apply emits_iceberg_insert_and_get]. }
    intros b. apply emits_bind; [apply emits_update_entry|]. intros _. apply emits_ret. }
  intros _. apply emits_bind; [apply emits_get_entry|]. intros e.
  destruct (msg e); [apply emits_ret|].
  apply emits_bind; [apply emits_deref|]. intros p.
  apply emits_bind; [apply emits_load; eauto|]. intros v1.
  apply emits_bind; [apply emits_update_entry|]. intros _. apply emits_ret.
Qed.

(** C6 fails on the code. In the default build the lookup of a key that is not
    in the write set (here: not in the transaction at all, while the store
    holds a tuple with [wts = 9] and [delta = 3] for it) returns after one load
    of the cache entry: it never calls the store, the result stays empty, the
    cache entry keeps its zero timestamps instead of becoming
    [{wts = 9, delta = 3}], and the entry records [wts = 0] and [rts = 0]
    instead of 9 and 12. *)
Theorem C6_lookup_never_reads_storage :
  let run := transactional_splinterdb_lookup default_build one_tuple_db 3 [1] None
               timestamp_set_zero fresh_state in
  lookup_answer (kvsb one_tuple_db) [] [1; 0] = Some stored_tuple
  /\ tuple_header_of_bytes stored_tuple
     = {| is_ts_update := false; tuple_delta := 3; tuple_wts := 9 |}
  /\ run.2 = Ret (0, None)
  /\ trace run.1 = [EvLoad [1; 0] timestamp_set_zero]
  /\ kv_calls (trace run.1) = []
  /\ slot_value (tscache run.1) [1; 0] = timestamp_set_zero
  /\ (entry_wts <$> rw_entries run.1 !! 0%nat) = Some 0
  /\ (entry_rts <$> rw_entries run.1 !! 0%nat) = Some 0.
Proof. cbv zeta. repeat split; vm_compute; reflexivity. Qed.

(** Where the loop of lines 885-911 is compiled in, a snapshot with [lock_bit]
    set is not reloaded: [continue] leads to the CAS, which installs the
    unassigned [v2] (here [{wts = 99, delta = 77}]), clears the lock of the
    other transaction and ends the lookup without a call to the store. *)
Lemma lookup_continue_installs_unassigned_v2 :
  let run := transactional_splinterdb_lookup bypass_build one_tuple_db 3 [1] None
               {| lock_bit := false; delta := 77; wts := 99 |} locked_state in
  run.2 = Ret (0, None)
  /\ kv_calls (trace run.1) = []
  /\ slot_value (tscache run.1) [1; 0] = {| lock_bit := false; delta := 77; wts := 99 |}
  /\ (entry_wts <$> rw_entries run.1 !! 0%nat) = Some 99.
Proof. cbv zeta. repeat split; vm_compute; reflexivity. Qed.

(** ** Runs without interference *)

Lemma slot_value_store_eq p v t : slot_value (slot_store p v t) p = v.
Proof. unfold slot_value, slot_store. cbn. by rewrite lookup_insert_eq. Qed.

Lemma slot_value_store_ne p q v t :
  p <> q -> slot_value (slot_store p v t) q = slot_value t q.
Proof. intros H. unfold slot_value, slot_store. cbn. by rewrite lookup_insert_ne. Qed.

Lemma kv_calls_app t1 t2 : kv_calls (t1 ++ t2) = kv_calls t1 ++ kv_calls t2.
Proof. unfold kv_calls. apply omap_app. Qed.

Lemma wp_load_quiet p st (Q : state -> outcome timestamp_set -> Prop) :
  others st = [] ->
  Q (emit (EvLoad p (slot_value (tscache st) p)) st) (Ret (slot_value (tscache st) p)) ->
  wp (timestamp_set_load p) st Q.
Proof. intros Hq H. apply wp_load. cbv zeta. by rewrite (interfere_quiet st Hq). Qed.

Lemma wp_peek_quiet p st (Q : state -> outcome timestamp_set -> Prop) :
  others st = [] ->
  Q st (Ret (slot_value (tscache st) p)) ->
  wp (timestamp_set_peek p) st Q.
Proof. intros Hq H. apply wp_peek. by rewrite (interfere_quiet st Hq). Qed.

Lemma wp_cas_quiet p v1 v2 st (Q : state -> outcome bool -> Prop) :
  others st = [] ->
  slot_value (tscache st) p = v1 ->
  Q (emit (EvCas p v1 v2 true) (with_tscache (slot_store p v2) st)) (Ret true) ->
  wp (timestamp_set_compare_and_swap p v1 v2) st Q.
Proof.
  intros Hq Hv H. apply wp_cas; rewrite (interfere_quiet st Hq); [done|congruence].
Qed.

Lemma entry_key_lookup es i e : es !! i = Some e -> entry_key es i = key e.
Proof. unfold entry_key. by intros ->. Qed.

(** In a quiet run one pass locks the whole write set. *)
Lemma lock_pass_quiet fuel locked todo st :
  others st = [] ->
  (forall w, w ∈ todo ->
     exists e, rw_entries st !! w = Some e /\ tuple_ts e = Some (key e)
               /\ lock_bit (slot_value (tscache st) (key e)) = false) ->
  NoDup (entry_key (rw_entries st) <$> todo) ->
  wp (lock_write_set_pass fuel locked todo) st (fun st' o =>
    o = Ret true /\ others st' = [] /\ rw_entries st' = rw_entries st
    /\ kv_calls (trace st') = kv_calls (trace st)
    /\ forall p, slot_value (tscache st') p
                 = if decide (p ∈ entry_key (rw_entries st) <$> todo)
                   then set_lock_bit (slot_value (tscache st) p) true
                   else slot_value (tscache st) p).
Proof.
  revert locked st. induction todo as [|w rest IH]; intros locked st Hq Hall Hnd;
    cbn [lock_write_set_pass].
  { apply wp_ret. repeat split; try done. }
  destruct (Hall w ltac:(set_solver)) as (e & Ee & Ets & Hlock).
  apply wp_bind, wp_get_entry; [intros e' Ee'|congruence].
  assert (e' = e) as -> by congruence.
  apply wp_bind, wp_assert; [intros _|rewrite Ets; intros H; by apply bool_decide_eq_false in H; destruct H].
  unfold rw_entry_try_lock.
  apply wp_bind, wp_bind, wp_get_entry; [intros e' Ee''|congruence].
  assert (e' = e) as -> by congruence.
  apply wp_bind, wp_deref; [intros p Ep|congruence].
  assert (p = key e) as -> by congruence.
  apply wp_bind, wp_load_quiet; [done|]. rewrite Hlock.
  apply wp_cas_quiet; [done|done|].
  set (v := slot_value (tscache st) (key e)).
  set (st1 := emit _ (with_tscache _ (emit _ st))).
  cbn [fmap list_fmap] in Hnd. apply NoDup_cons in Hnd as [Hnotin Hnd].
  rewrite (entry_key_lookup _ _ _ Ee) in Hnotin.
  eapply wp_conseq; [apply (IH (locked ++ [w]) st1)|].
  - done.
  - intros w' Hw'. destruct (Hall w' ltac:(set_solver)) as (e2 & Ee2 & Ets2 & Hlock2).
    exists e2. unfold st1. simpl_state. repeat split; try done.
    rewrite slot_value_store_ne; [done|]. intros Heq. apply Hnotin.
    rewrite Heq, <- (entry_key_lookup _ _ _ Ee2). by apply list_elem_of_fmap_2.
  - done.
  - cbn. intros st' o (-> & Hq' & Hes & Hkv & Hslots). unfold st1 in *. simpl_state.
    repeat split; try done.
    + rewrite Hkv. rewrite !kv_calls_app. cbn. by rewrite !app_nil_r.
    + intros p. rewrite Hslots. cbn [fmap list_fmap].
      rewrite (entry_key_lookup _ _ _ Ee).
      destruct (decide (p = key e)) as [->|Hne].
      * rewrite decide_False by done. rewrite decide_True by (apply elem_of_cons; by left).
        by rewrite slot_value_store_eq.
      * rewrite slot_value_store_ne by done.
        destruct (decide (p ∈ _)) as [Hin|Hnin].
        -- rewrite decide_True; [done|]. by apply elem_of_cons; right.
        -- rewrite decide_False; [done|]. intros [?|?]%elem_of_cons; done.
Qed.

Lemma entry_key_alter f i es j :
  (forall e, key (f e) = key e) -> entry_key (alter f i es) j = entry_key es j.
Proof.
  intros Hf. unfold entry_key. rewrite list_lookup_alter.
  destruct (decide (i = j)) as [->|]; [|done].
  destruct (es !! j); cbn; [by rewrite Hf|done].
Qed.

(** In a quiet run the second loop records the cached [rts] of every write and
    raises [commit_ts] above each of them. *)
Lemma raise_commit_ts_quiet db ws c0 st :
  others st = [] ->
  NoDup ws ->
  (forall w, w ∈ ws ->
     exists e, rw_entries st !! w = Some e /\ tuple_ts e = Some (key e)) ->
  wp (raise_commit_ts db (replicate (length ws) false) ws c0) st (fun st' o =>
    o = Ret (foldl (fun c rts => MAX c (txn_wrap (rts + 1))) c0
               ((fun w => timestamp_set_get_rts
                            (slot_value (tscache st) (entry_key (rw_entries st) w)))
                <$> ws))
    /\ others st' = [] /\ tscache st' = tscache st /\ trace st' = trace st
    /\ forall i, rw_entries st' !! i
                 = (fun e => if decide (i ∈ ws)
                             then set_entry_rts
                                    (timestamp_set_get_rts
                                       (slot_value (tscache st) (key e))) e
                             else e) <$> rw_entries st !! i).
Proof.
  revert c0 st. induction ws as [|w ws IH]; intros c0 st Hq Hnd Hall;
    cbn [raise_commit_ts length replicate head tail default foldl fmap list_fmap].
  { apply wp_ret. repeat split; try done. intros i.
    destruct (rw_entries st !! i); cbn; [|done].
    rewrite decide_False; [done|]. by intros ?%elem_of_nil. }
  destruct (Hall w ltac:(by apply elem_of_cons; left)) as (e & Ee & Ets).
  apply NoDup_cons in Hnd as [Hnotin Hnd].
  apply wp_bind, wp_get_entry; [intros e' Ee'|congruence].
  assert (e' = e) as -> by congruence.
  apply wp_bind, wp_bind, wp_deref; [intros p Ep|congruence].
  assert (p = key e) as -> by congruence.
  apply wp_bind, wp_peek_quiet; [done|].
  apply wp_ret, wp_bind, wp_update_entry.
  set (rts := timestamp_set_get_rts (slot_value (tscache st) (key e))).
  set (st1 := with_rw_entries _ st).
  eapply wp_conseq; [apply (IH _ st1)|]; unfold st1.
  - done.
  - done.
  - intros w' Hw'.
    destruct (Hall w' ltac:(by apply elem_of_cons; right)) as (e2 & Ee2 & Ets2).
    exists e2. simpl_state. split; [|done].
    rewrite list_lookup_alter_ne; [done|]. intros ->. done.
  - cbn. intros st' o (-> & Hq' & Hc & Ht & Hes). simpl_state.
    repeat split; try done.
    + f_equal. rewrite (entry_key_lookup _ _ _ Ee). fold rts. f_equal.
      apply list_fmap_ext. intros j w' _. by rewrite entry_key_alter.
    + intros i. rewrite Hes. simpl_state. rewrite list_lookup_alter.
      destruct (decide (w = i)) as [->|Hne].
      * rewrite Ee. cbn. rewrite decide_False by done.
        rewrite decide_True by (apply elem_of_cons; by left). done.
      * destruct (rw_entries st !! i) as [ei|]; cbn; [|done].
        destruct (decide (i ∈ ws)) as [Hin|Hnin].
        -- rewrite decide_True; [done|]. by apply elem_of_cons; right.
        -- rewrite decide_False; [done|]. intros [?|?]%elem_of_cons; done.
Qed.

(** The first loop of the commit. *)
Lemma scan_rw_entries_spec m i es c :
  let '(rs, ws, c') := scan_rw_entries m i es c in
  (forall r, r ∈ rs <-> (i <= r)%nat
                        /\ exists e, es !! (r - i)%nat = Some e
                                     /\ rw_entry_is_read e = true)
  /\ (forall w, w ∈ ws <-> (i <= w)%nat
                          /\ exists e, es !! (w - i)%nat = Some e
                                       /\ rw_entry_is_write e = true)
  /\ NoDup rs /\ NoDup ws
  /\ c' = foldl MAX c (read_wts_for_commit m
                        <$> filter (fun e => rw_entry_is_read e = true) es).
Proof.
  revert i c. induction es as [|e es IH]; intros i c; cbn [scan_rw_entries].
  { split; [|split; [|split; [|split]]]; try apply NoDup_nil_2; try done.
    all: intros r; split; [by intros ?%elem_of_nil|].
    all: intros (_ & e & He & _); by rewrite lookup_nil in He. }
  specialize (IH (S i) (if rw_entry_is_read e
                        then MAX c (read_wts_for_commit m e) else c)).
  destruct (scan_rw_entries m (S i) es _) as [[rs ws] c'].
  destruct IH as (Hrs & Hws & Hnr & Hnw & Hc).
  assert (Hshift : forall (P : rw_entry -> Prop) (l : list nat) (b : bool),
            (b = true <-> P e) ->
            (forall r, r ∈ l <-> (S i <= r)%nat
                                /\ exists e', es !! (r - S i)%nat = Some e' /\ P e') ->
            NoDup l ->
            (forall r, r ∈ (if b then [i] else []) ++ l
                       <-> (i <= r)%nat
                           /\ exists e', (e :: es) !! (r - i)%nat = Some e' /\ P e')
            /\ NoDup ((if b then [i] else []) ++ l)).
  { intros P l b Hb Hl Hnd. split.
    - intros r. rewrite elem_of_app, Hl. split.
      + intros [Hin|(Hle & e' & He' & HP)].
        * destruct b; [|by apply elem_of_nil in Hin].
          apply list_elem_of_singleton in Hin as ->. split; [lia|].
          exists e. rewrite Nat.sub_diag. split; [done|]. by apply Hb.
        * split; [lia|]. exists e'. split; [|done].
          replace (r - i)%nat with (S (r - S i)) by lia. done.
      + intros (Hle & e' & He' & HP).
        destruct (decide (r = i)) as [->|Hne].
        * left. rewrite Nat.sub_diag in He'. injection He' as <-.
          apply Hb in HP as ->. by apply list_elem_of_singleton.
        * right. split; [lia|]. exists e'. split; [|done].
          replace (r - i)%nat with (S (r - S i)) in He' by lia. done.
    - destruct b; [|done]. cbn. apply NoDup_cons. split; [|done].
      intros Hin%Hl. lia. }
  destruct (Hshift (fun e => rw_entry_is_read e = true) rs (rw_entry_is_read e)
              ltac:(done) Hrs Hnr) as [Hrs' Hnr'].
  destruct (Hshift (fun e => rw_entry_is_write e = true) ws (rw_entry_is_write e)
              ltac:(done) Hws Hnw) as [Hws' Hnw'].
  split; [exact Hrs'|]. split; [exact Hws'|]. split; [done|]. split; [done|].
  rewrite Hc. rewrite filter_cons.
  destruct (decide (rw_entry_is_read e = true)) as [Hr|Hr].
  - rewrite Hr. done.
  - apply not_true_is_false in Hr. rewrite Hr. done.
Qed.

Lemma keys_inj es i j e e' :
  NoDup (key <$> es) -> es !! i = Some e -> es !! j = Some e' ->
  key e = key e' -> i = j.
Proof.
  intros Hnd Hi Hj Hk. eapply NoDup_lookup; [exact Hnd| |].
  - rewrite list_lookup_fmap, Hi. done.
  - rewrite list_lookup_fmap, Hj. cbn. by rewrite Hk.
Qed.

Lemma entry_keys_NoDup es l :
  NoDup (key <$> es) -> NoDup l -> (forall i, i ∈ l -> is_Some (es !! i)) ->
  NoDup (entry_key es <$> l).
Proof.
  intros Hk Hl Hall. apply NoDup_fmap_2_strong; [|done].
  intros i j Hi Hj Heq.
  destruct (Hall i Hi) as [e He]. destruct (Hall j Hj) as [e' He'].
  rewrite (entry_key_lookup _ _ _ He), (entry_key_lookup _ _ _ He') in Heq.
  eapply keys_inj; eauto.
Qed.

Lemma foldl_MAX_ge c l : c <= foldl MAX c l.
Proof.
  revert c. induction l as [|x l IH]; intros c; cbn; [lia|].
  etrans; [|apply IH]. unfold MAX. destruct (c >? x) eqn:E; lia.
Qed.

Lemma foldl_MAX_upper c l x : x ∈ l -> x <= foldl MAX c l.
Proof.
  revert c. induction l as [|y l IH]; intros c Hin; [by apply elem_of_nil in Hin|].
  apply elem_of_cons in Hin as [->|Hin]; cbn; [|by apply IH].
  etrans; [|apply foldl_MAX_ge]. unfold MAX. destruct (c >? y) eqn:E; lia.
Qed.

Lemma foldl_MAX_in c l : foldl MAX c l = c \/ foldl MAX c l ∈ l.
Proof.
  revert c. induction l as [|y l IH]; intros c; cbn; [by left|].
  destruct (IH (MAX c y)) as [H|H].
  - rewrite H. unfold MAX. destruct (c >? y); [by left|right; by apply elem_of_cons; left].
  - right. by apply elem_of_cons; right.
Qed.

Lemma wp_run_eq {A} (m m' : M A) st (Q : state -> outcome A -> Prop) :
  m st = m' st -> wp m' st Q -> wp m st Q.
Proof. unfold wp. by intros ->. Qed.

(** The state in which the validation of a quiet commit starts. *)
Lemma commit_timestamp_quiet m db fuel st :
  commit_ready db st ->
  let es := rw_entries st in
  let rts_of := fun k => timestamp_set_get_rts (slot_value (tscache st) k) in
  wp (commit_timestamp m db (S fuel)) st (fun st1 o =>
    exists rs ws,
      o = Ret (rs, ws,
               foldl (fun c rts => MAX c (txn_wrap (rts + 1)))
                 (foldl MAX 0 (read_wts_for_commit m
                                 <$> filter (fun e => rw_entry_is_read e = true) es))
                 ((fun w => rts_of (entry_key es w)) <$> ws))
      /\ (forall r, r ∈ rs <-> exists e, es !! r = Some e /\ rw_entry_is_read e = true)
      /\ (forall w, w ∈ ws <-> exists e, es !! w = Some e /\ rw_entry_is_write e = true)
      /\ NoDup rs /\ NoDup ws
      /\ ws = platform_sort_slow (scan_rw_entries m 0 es 0).1.2
                (rw_entry_key_compare (tcfg_data_cfg db) es)
      /\ others st1 = []
      /\ kv_calls (trace st1) = kv_calls (trace st)
      /\ (forall p, slot_value (tscache st1) p
                    = if decide (p ∈ entry_key es <$> ws)
                      then set_lock_bit (slot_value (tscache st) p) true
                      else slot_value (tscache st) p)
      /\ (forall i, rw_entries st1 !! i
                    = (fun e => if decide (i ∈ ws)
                                then set_entry_rts (rts_of (key e)) e
                                else e) <$> es !! i)).
Proof.
  intros [Hq Hslots Hkeys Hunl Hstore Hbounds]. cbv zeta.
  pose proof (scan_rw_entries_spec m 0 (rw_entries st) 0) as Hscan.
  destruct (scan_rw_entries m 0 (rw_entries st) 0) as [[rs ws0] c0] eqn:Escan.
  cbn [fst snd].
  destruct Hscan as (Hrs & Hws & Hnr & Hnw & Hc).
  set (ws := platform_sort_slow ws0
               (rw_entry_key_compare (tcfg_data_cfg db) (rw_entries st))).
  eapply (wp_run_eq _
            (bind (lock_write_set (S fuel) ws) (fun _ =>
               bind (raise_commit_ts db (replicate (length ws) false) ws c0)
                 (fun commit_ts => ret (rs, ws, commit_ts))))).
  { unfold commit_timestamp. rewrite Escan. reflexivity. }
  assert (Hperm : ws ≡ₚ ws0) by apply platform_sort_slow_perm.
  assert (Hws' : forall w, w ∈ ws <-> exists e, rw_entries st !! w = Some e
                                             /\ rw_entry_is_write e = true).
  { intros w. rewrite Hperm, Hws. rewrite Nat.sub_0_r. split; [by intros [_ ?]|].
    intros ?. split; [lia|done]. }
  assert (Hnw' : NoDup ws) by by rewrite Hperm.
  assert (Hkd : NoDup (entry_key (rw_entries st) <$> ws)).
  { apply entry_keys_NoDup; try done. intros w (e & He & _)%Hws'. by exists e. }
  apply wp_bind. cbn [lock_write_set].
  apply wp_bind.
  eapply wp_conseq; [apply lock_pass_quiet|]; [done| |done|].
  { intros w (e & He & Hw)%Hws'. exists e. eauto. }
  cbn. intros st1 o (-> & Hq1 & Hes1 & Hkv1 & Hsl1).
  apply wp_ret, wp_bind.
  eapply wp_conseq; [apply raise_commit_ts_quiet|]; [done|done| |].
  { intros w (e & He & Hw)%Hws'. exists e. rewrite Hes1. eauto. }
  cbn. intros st2 o (-> & Hq2 & Hc2 & Ht2 & Hes2).
  apply wp_ret. exists rs, ws. rewrite Hes1 in *.
  split.
  { f_equal. f_equal. rewrite Hc. f_equal.
    apply list_fmap_ext. intros j w Hj. unfold timestamp_set_get_rts. rewrite Hsl1.
    destruct (decide _); done. }
  split. { intros r. rewrite Hrs, Nat.sub_0_r. split; [by intros [_ ?]|].
           intros ?. split; [lia|done]. }
  split; [done|]. split; [done|]. split; [done|]. split; [done|]. split; [done|].
  split; [by rewrite Ht2|]. split; [by rewrite Hc2|].
  intros i. rewrite Hes2. destruct (rw_entries st !! i) as [e|]; cbn; [|done].
  destruct (decide (i ∈ ws)); [|done]. unfold timestamp_set_get_rts. rewrite Hsl1.
  destruct (decide _); done.
Qed.

(** ** The commit timestamp *)

Lemma pow2_facts :
  2 ^ 62 + 1 < 2 ^ 63 /\ 2 ^ 63 < 2 ^ 64 /\ 2 ^ 64 < 2 ^ txn_timestamp_bits
  /\ 0 < 2 ^ 62.
Proof. unfold txn_timestamp_bits. repeat split; vm_compute; reflexivity. Qed.

Lemma txn_wrap_small x : 0 <= x < 2 ^ 64 -> txn_wrap x = x.
Proof.
  intros H. unfold txn_wrap. apply Z.mod_small.
  pose proof pow2_facts. lia.
Qed.

Lemma sample_state_ready : commit_ready sample_db sample_state.
Proof.
  split; try done.
  - intros [|[|[|i]]] e; cbn; intros [= <-]; done.
  - compute_done.
  - intros [|[|[|i]]] e; cbn; intros [= <-]; done.
  - intros [|[|[|i]]] e; cbn; intros [= <-]; vm_compute; repeat split; congruence.
Qed.

(** C1. For a transaction that is ready to commit in a quiet run, the
    locking part of the commit ends with [commit_ts] equal to the maximum of
    [wts + eps] over the read entries ([eps] is 1 under
    [EXPERIMENTAL_MODE_SILO], 0 otherwise) and of [rts + 1] over the write
    entries, [rts = wts + delta] being the timestamps cached for the key when
    the write is locked: [commit_ts] bounds each of these values and, when
    there is at least one read or write entry, it is one of them. Each write
    entry has this [rts] recorded, and the rest of the commit (validation and
    writes) runs with this [commit_ts]. *)
Theorem C1_commit_ts_is_maximum (m : build_macros) (db : transactional_splinterdb)
    (fuel : nat) (st : state) :
  commit_ready db st ->
  let es := rw_entries st in
  let eps := if EXPERIMENTAL_MODE_SILO m then 1 else 0 in
  let cached := fun e => slot_value (tscache st) (key e) in
  let from_reads :=
    (fun e => entry_wts e + eps) <$> filter (fun e => rw_entry_is_read e = true) es in
  let from_writes :=
    (fun e => wts (cached e) + delta (cached e) + 1)
      <$> filter (fun e => rw_entry_is_write e = true) es in
  exists st1 rs ws commit_ts,
    commit_timestamp m db (S fuel) st = (st1, Ret (rs, ws, commit_ts))
    /\ (forall x, x ∈ from_reads ++ from_writes -> x <= commit_ts)
    /\ (from_reads ++ from_writes <> [] -> commit_ts ∈ from_reads ++ from_writes)
    /\ (forall w e, w ∈ ws -> es !! w = Some e ->
          timestamp_set_get_rts (cached e) = wts (cached e) + delta (cached e)
          /\ entry_rts <$> rw_entries st1 !! w = Some (wts (cached e) + delta (cached e)))
    /\ transactional_splinterdb_commit m db (S fuel) st
       = commit_validate_and_write m db (S fuel) rs ws commit_ts st1.
Proof.
  intros Hready. cbv zeta.
  pose proof (commit_timestamp_quiet m db fuel st Hready) as Hrun. cbv zeta in Hrun.
  destruct Hready as [Hq Hslots Hkeys Hunl Hstore Hbounds].
  pose proof pow2_facts as (P1 & P2 & P3 & P4).
  unfold wp in Hrun.
  destruct (commit_timestamp m db (S fuel) st) as [st1 o] eqn:Erun. cbn [fst snd] in Hrun.
  destruct Hrun as (rs & ws & -> & Hrs & Hws & Hnr & Hnw & _ & Hq1 & Hkv & Hsl & Hes).
  eexists st1, rs, ws, _. split; [reflexivity|].
  set (R := read_wts_for_commit m <$> _).
  set (W := (fun w => timestamp_set_get_rts _) <$> ws).
  assert (Hcts : foldl (fun c rts => MAX c (txn_wrap (rts + 1))) (foldl MAX 0 R) W
                 = foldl MAX 0 (R ++ ((fun rts => txn_wrap (rts + 1)) <$> W))).
  { by rewrite foldl_app, foldl_fmap. }
  rewrite Hcts.
  assert (Hrts : forall i e, rw_entries st !! i = Some e ->
            timestamp_set_get_rts (slot_value (tscache st) (key e))
            = wts (slot_value (tscache st) (key e))
              + delta (slot_value (tscache st) (key e))).
  { intros i e He. destruct (Hbounds i e He) as (_ & ? & ? & ?).
    unfold timestamp_set_get_rts. apply txn_wrap_small. lia. }
  assert (HR : R = (fun e => entry_wts e + (if EXPERIMENTAL_MODE_SILO m then 1 else 0))
                   <$> filter (fun e => rw_entry_is_read e = true) (rw_entries st)).
  { unfold R. apply list_fmap_ext. intros j e Hj.
    apply list_elem_of_lookup_2, list_elem_of_filter in Hj as [_ Hin].
    apply list_elem_of_lookup in Hin as [i He].
    destruct (Hbounds i e He) as (? & _). unfold read_wts_for_commit.
    destruct (EXPERIMENTAL_MODE_SILO m); [|lia]. apply txn_wrap_small. lia. }
  set (FW := (fun e => wts (slot_value (tscache st) (key e))
                       + delta (slot_value (tscache st) (key e)) + 1)
               <$> filter (fun e => rw_entry_is_write e = true) (rw_entries st)).
  assert (HW : forall x, x ∈ (fun rts => txn_wrap (rts + 1)) <$> W <-> x ∈ FW).
  { intros x. unfold W, FW. rewrite <- list_fmap_compose.
    rewrite !list_elem_of_fmap. split.
    - intros (w & -> & (e & He & Hw)%Hws). exists e. cbn.
      rewrite (entry_key_lookup _ _ _ He), (Hrts _ _ He).
      destruct (Hbounds _ _ He) as (_ & ? & ? & ?).
      split; [apply txn_wrap_small; lia|].
      apply list_elem_of_filter. split; [done|]. by eapply list_elem_of_lookup_2.
    - intros (e & -> & [Hw Hin]%list_elem_of_filter).
      apply list_elem_of_lookup in Hin as [w He]. exists w. cbn.
      rewrite (entry_key_lookup _ _ _ He), (Hrts _ _ He).
      destruct (Hbounds _ _ He) as (_ & ? & ? & ?).
      split; [symmetry; apply txn_wrap_small; lia|]. apply Hws. eauto. }
  rewrite <- HR.
  assert (Hmem : forall x, x ∈ R ++ FW <-> x ∈ R ++ ((fun rts => txn_wrap (rts + 1)) <$> W)).
  { intros x. rewrite !elem_of_app, HW. done. }
  split; [|split; [|split]].
  - intros x Hx%Hmem. by apply foldl_MAX_upper.
  - intros Hne. apply Hmem.
    destruct (foldl_MAX_in 0 (R ++ ((fun rts => txn_wrap (rts + 1)) <$> W))) as [H0|Hin];
      [|done].
    rewrite H0.
    assert (exists x, x ∈ R ++ FW) as [x Hx].
    { destruct (R ++ FW) as [|x l]; [done|]. exists x. by apply elem_of_cons; left. }
    assert (Hx0 : 0 <= x).
    { apply elem_of_app in Hx as [Hx|Hx].
      - rewrite HR in Hx. apply list_elem_of_fmap in Hx as (e & -> & [_ Hin]%list_elem_of_filter).
        apply list_elem_of_lookup in Hin as [i He]. destruct (Hbounds i e He) as (? & _).
        destruct (EXPERIMENTAL_MODE_SILO m); lia.
      - apply list_elem_of_fmap in Hx as (e & -> & [_ Hin]%list_elem_of_filter).
        apply list_elem_of_lookup in Hin as [i He]. destruct (Hbounds i e He) as (_ & ? & ? & _).
        lia. }
    apply Hmem in Hx as Hx'.
    pose proof (foldl_MAX_upper 0 _ x Hx') as Hup. rewrite H0 in Hup.
    assert (x = 0) as -> by lia. done.
  - intros w e Hw He. split; [by eapply Hrts|].
    rewrite Hes, He. cbn. rewrite decide_True by done. cbn. f_equal. by eapply Hrts.
  - unfold transactional_splinterdb_commit. erewrite bind_run; [|exact Erun].
    rewrite <- Hcts. reflexivity.
Qed.

Lemma C1_commit_ts_is_maximum_witness :
  exists st1,
    commit_timestamp default_build sample_db 1 sample_state = (st1, Ret ([0%nat; 1%nat], [2%nat], 8))
    /\ 8 ∈ [5 + 0; 8 + 0; 4 + 2 + 1].
Proof.
  destruct (C1_commit_ts_is_maximum default_build sample_db 0 sample_state
              sample_state_ready) as (st1 & rs & ws & cts & Hrun & _ & _ & _ & _).
  exists st1. split; [|compute_done].
  rewrite Hrun. f_equal.
  pose proof (f_equal snd Hrun) as H2. cbn [snd] in H2.
  rewrite <- H2. vm_compute. reflexivity.
Defined.

(** ** Validation of the read set *)

Lemma extend_timestamp_fits (commit_ts : Z) (v1 : timestamp_set) :
  timestamp_set_wf v1 ->
  0 <= commit_ts < 2 ^ txn_timestamp_bits ->
  wts v1 <= commit_ts ->
  commit_ts - wts v1 < 2 ^ 64 ->
  extend_timestamp commit_ts v1 = Some (extended commit_ts v1).
Proof.
  intros [Hw Hd] Hc Hle Hfit. unfold extend_timestamp.
  pose proof (extension_shift_eq commit_ts v1 ltac:(lia) Hle ltac:(lia)) as Hs.
  rewrite (Z.div_small (commit_ts - wts v1)) in Hs by lia. rewrite Z.mul_0_r in Hs.
  rewrite Hs. cbn [Z.eqb].
  unfold extended, set_delta, set_wts, txn_wrap; cbn [lock_bit delta wts].
  pose proof pow2_facts as (P1 & P2 & P3 & P4).
  rewrite Z.sub_0_r, Z.add_0_r.
  rewrite (Z.mod_small (commit_ts - wts v1) (2 ^ txn_timestamp_bits)) by lia.
  rewrite (Z.mod_small (commit_ts - wts v1) (2 ^ txn_timestamp_bits)) by lia.
  rewrite (Z.mod_small (commit_ts - wts v1) (2 ^ 64)) by lia.
  rewrite (Z.mod_small (wts v1) (2 ^ txn_timestamp_bits)) by lia.
  rewrite (Z.mod_small (wts v1) (2 ^ 63)) by lia.
  reflexivity.
Qed.

Lemma get_rts_wf v :
  timestamp_set_wf v -> timestamp_set_get_rts v = wts v + delta v.
Proof.
  intros [Hw Hd]. unfold timestamp_set_get_rts, txn_wrap. apply Z.mod_small.
  pose proof pow2_facts as (P1 & P2 & P3 & P4).
  assert (2 ^ 63 + 2 ^ 64 < 2 ^ txn_timestamp_bits)
    by (unfold txn_timestamp_bits; vm_compute; reflexivity).
  lia.
Qed.

(** The loop of one read entry, in a quiet run. *)
Lemma validate_read_quiet fuel commit_ts r st e :
  let v := slot_value (tscache st) (key e) in
  let aborts := negb (entry_wts e =? wts v)
                || ((timestamp_set_get_rts v <=? commit_ts) && lock_bit v
                    && negb (rw_entry_is_write e)) in
  let extends := negb aborts && (timestamp_set_get_rts v <=? commit_ts) in
  others st = [] ->
  rw_entries st !! r = Some e ->
  tuple_ts e = Some (key e) ->
  timestamp_set_wf v ->
  0 <= commit_ts < 2 ^ txn_timestamp_bits ->
  (timestamp_set_get_rts v <= commit_ts -> commit_ts - wts v < 2 ^ 64) ->
  wp (validate_read (S fuel) commit_ts r) st (fun st' o =>
    o = Ret aborts /\ others st' = [] /\ rw_entries st' = rw_entries st
    /\ refcount (tscache st') = refcount (tscache st)
    /\ (forall p, slot_value (tscache st') p
                  = if extends && bool_decide (p = key e)
                    then extended commit_ts v
                    else slot_value (tscache st) p)
    /\ trace st' = trace st
                   ++ EvLoad (key e) v
                      :: (if extends
                          then [EvCas (key e) v (extended commit_ts v) true]
                          else [])).
Proof.
  intros v aborts extends Hq He Hts Hwf Hc Hfit. cbn [validate_read].
  apply wp_bind, wp_get_entry; [intros e' He'|congruence].
  assert (e' = e) as -> by congruence.
  apply wp_bind, wp_deref; [intros p Hp|congruence].
  assert (p = key e) as -> by congruence.
  apply wp_bind, wp_load_quiet; [done|]. fold v.
  set (st1 := emit (EvLoad (key e) v) st).
  assert (Hq1 : others st1 = []) by done.
  apply wp_bind.
  apply (wp_conseq _ _ (fun st' o =>
           st' = st1 /\ o = Ret ((timestamp_set_get_rts v <=? commit_ts) && lock_bit v
                                 && negb (rw_entry_is_write e)))).
  { destruct (timestamp_set_get_rts v <=? commit_ts) eqn:Erts.
    - apply wp_bind, wp_peek_quiet; [done|]. apply wp_ret. split; [done|].
      unfold st1. simpl_state. fold v. done.
    - by apply wp_ret. }
  intros st' o [-> ->]. fold aborts.
  destruct aborts eqn:Eab.
  { apply wp_ret. unfold extends. cbn. repeat split; try done. }
  unfold extends. cbn [negb andb].
  destruct (timestamp_set_get_rts v <=? commit_ts) eqn:Erts.
  - apply Z.leb_le in Erts. rewrite (get_rts_wf v Hwf) in Erts.
    destruct Hwf as [Hw Hd].
    rewrite extend_timestamp_fits; try done; [|lia|].
    2:{ apply Hfit. rewrite get_rts_wf by done. lia. }
    apply wp_bind, wp_cas_quiet; [done|done|]. apply wp_ret.
    unfold st1. simpl_state. repeat split; try done.
    + intros q. cbn. case_bool_decide as Hqk.
      * subst q. apply slot_value_store_eq.
      * by apply slot_value_store_ne.
    + by rewrite <- app_assoc.
  - apply wp_ret. unfold st1. simpl_state. repeat split; try done.
Qed.

Lemma wp_iceberg_get_and_remove_quiet k st
    (Q : state -> outcome (option timestamp_set) -> Prop) :
  others st = [] ->
  (forall st' x, others st' = [] -> trace st' = trace st ->
                 rw_entries st' = rw_entries st ->
                 slots (tscache st') = slots (tscache st) -> Q st' (Ret x)) ->
  wp (iceberg_get_and_remove k) st Q.
Proof.
  intros Hq H. unfold wp, iceberg_get_and_remove. rewrite (interfere_quiet st Hq).
  destruct (refcount (tscache st) !! k) as [[|[|n]]|]; cbn; by apply H.
Qed.

(** Dropping the reference of an entry, in a quiet run. *)
Lemma iceberg_remove_quiet m db r upsert_ts st e :
  others st = [] ->
  rw_entries st !! r = Some e ->
  wp (rw_entry_iceberg_remove m db r upsert_ts) st (fun st' o =>
    o = Ret tt /\ others st' = []
    /\ slots (tscache st') = slots (tscache st)
    /\ length (rw_entries st') = length (rw_entries st)
    /\ (forall i, i <> r -> rw_entries st' !! i = rw_entries st !! i)
    /\ (exists e', rw_entries st' !! r = Some e'
                   /\ key e' = key e /\ msg e' = msg e
                   /\ entry_wts e' = entry_wts e /\ entry_rts e' = entry_rts e
                   /\ is_read e' = is_read e /\ tuple_ts e' = None)
    /\ exists evs, trace st' = trace st ++ evs
                   /\ (evs = []
                       \/ (upsert_ts = true
                           /\ exists c, evs = [EvKv c]
                                        /\ is_timestamp_upsert (key e) c))).
Proof.
  intros Hq He. unfold rw_entry_iceberg_remove.
  apply wp_bind, wp_get_entry; [intros e' He'|congruence].
  assert (e' = e) as -> by congruence.
  destruct (tuple_ts e) eqn:Ets.
  2:{ apply wp_ret. repeat split; try done.
      - exists e. done.
      - exists []. rewrite app_nil_r. split; [done|by left]. }
  apply wp_bind, wp_update_entry.
  set (st1 := with_rw_entries _ st).
  assert (He1 : rw_entries st1 !! r = Some (set_tuple_ts None e)).
  { unfold st1. simpl_state. by rewrite list_lookup_alter_eq, He. }
  assert (Hne1 : forall i, i <> r -> rw_entries st1 !! i = rw_entries st !! i).
  { intros i Hi. unfold st1. simpl_state. by rewrite list_lookup_alter_ne. }
  assert (Hlen1 : length (rw_entries st1) = length (rw_entries st)).
  { unfold st1. simpl_state. apply length_alter. }
  destruct (EXPERIMENTAL_MODE_KEEP_ALL_KEYS m).
  { apply wp_ret. repeat split; try done.
    - eexists. split; [exact He1|]. done.
    - exists []. rewrite app_nil_r. split; [done|by left]. }
  apply wp_bind, wp_iceberg_get_and_remove_quiet; [done|].
  intros st2 [value_ht|] Hq2 Ht2 Hes2 Hsl2.
  2:{ apply wp_ret. rewrite Hes2. repeat split; try done.
      - eexists. split; [exact He1|]. done.
      - exists []. rewrite app_nil_r. split; [done|by left]. }
  apply wp_bind.
  destruct upsert_ts.
  - unfold splinterdb_update. apply wp_bind, wp_call, wp_ret, wp_update_entry.
    simpl_state. rewrite Hes2. repeat split; try done.
    + by rewrite length_alter.
    + intros i Hi. rewrite list_lookup_alter_ne by done. by apply Hne1.
    + rewrite list_lookup_alter_eq, He1. eexists. split; [done|]. done.
    + eexists [_]. rewrite Ht2. split; [done|]. right. split; [done|].
      eexists. split; [done|]. by eexists.
  - apply wp_ret, wp_update_entry. simpl_state. rewrite Hes2. repeat split; try done.
    + by rewrite length_alter.
    + intros i Hi. rewrite list_lookup_alter_ne by done. by apply Hne1.
    + rewrite list_lookup_alter_eq, He1. eexists. split; [done|]. done.
    + exists []. rewrite app_nil_r, Ht2. split; [done|by left].
Qed.

(** The reference of a validated read is dropped unless the entry is also a
    write. *)
Lemma validated_remove_quiet m db r st e :
  others st = [] ->
  rw_entries st !! r = Some e ->
  wp (if negb (rw_entry_is_write e)
      then rw_entry_iceberg_remove m db r true else ret tt) st (fun st' o =>
    o = Ret tt /\ others st' = []
    /\ slots (tscache st') = slots (tscache st)
    /\ length (rw_entries st') = length (rw_entries st)
    /\ (forall i, i <> r -> rw_entries st' !! i = rw_entries st !! i)
    /\ (exists e', rw_entries st' !! r = Some e'
                   /\ key e' = key e /\ msg e' = msg e
                   /\ entry_wts e' = entry_wts e /\ entry_rts e' = entry_rts e
                   /\ is_read e' = is_read e
                   /\ (rw_entry_is_write e = true -> e' = e))
    /\ exists evs, trace st' = trace st ++ evs
                   /\ (evs = []
                       \/ (rw_entry_is_write e = false
                           /\ exists c, evs = [EvKv c]
                                        /\ is_timestamp_upsert (key e) c))).
Proof.
  intros Hq He. destruct (rw_entry_is_write e) eqn:Ew; cbn [negb].
  - apply wp_ret. repeat split; try done.
    + by exists e.
    + exists []. rewrite app_nil_r. split; [done|by left].
  - eapply wp_conseq; [by apply iceberg_remove_quiet|].
    cbn. intros st' o (-> & Hq' & Hsl & Hlen & Hne & (e' & He' & ? & ? & ? & ? & ? & ?)
                       & (evs & Ht & Hevs)).
    repeat split; try done.
    + exists e'. repeat split; try done.
    + exists evs. split; [done|]. destruct Hevs as [->|(_ & c & -> & Hc)]; [by left|].
      right. split; [done|]. by exists c.
Qed.

Lemma slot_value_slots t t' p : slots t' = slots t -> slot_value t' p = slot_value t p.
Proof. unfold slot_value. by intros ->. Qed.

Lemma entry_key_same es es' :
  length es' = length es ->
  (forall i e, es !! i = Some e -> exists e', es' !! i = Some e' /\ key e' = key e) ->
  forall i, entry_key es' i = entry_key es i.
Proof.
  intros Hlen H i. unfold entry_key.
  destruct (es !! i) as [e|] eqn:He.
  - destruct (H i e He) as (e' & -> & Hk). cbn. by rewrite Hk.
  - apply lookup_ge_None in He. rewrite <- Hlen in He.
    apply lookup_ge_None in He. by rewrite He.
Qed.

Lemma read_aborts_false_of_rts commit_ts e v :
  commit_ts <= entry_rts e -> read_aborts commit_ts e v = false.
Proof.
  intros H. unfold read_aborts. destruct (entry_rts e <? commit_ts) eqn:E; [|done].
  apply Z.ltb_lt in E. lia.
Qed.

Lemma validated_nil commit_ts st : others st = [] -> validated commit_ts [] st st false [].
Proof.
  intros Hq. split; try done.
  - by rewrite app_nil_r.
  - split; [done|]. intros (r & e & Hr%elem_of_nil & _). done.
  - intros i e He. exists e. done.
  - intros _ r e Hr%elem_of_nil. done.
Qed.

(** An entry whose recorded [rts] has reached [commit_ts] is passed over. *)
Lemma validated_skip commit_ts r rest st st' b new e :
  rw_entries st !! r = Some e ->
  commit_ts <= entry_rts e ->
  validated commit_ts rest st st' b new ->
  validated commit_ts (r :: rest) st st' b new.
Proof.
  intros He Hrts [Hq Ht Hab Hlw Hfr Hlen Hes Hev Hex]. split; try done.
  - rewrite Hab. split.
    + intros (r' & e' & Hr' & He' & Ha). exists r', e'. split; [|done].
      by apply elem_of_cons; right.
    + intros (r' & e' & [->|Hr']%elem_of_cons & He' & Ha).
      * assert (e' = e) as -> by congruence.
        by rewrite read_aborts_false_of_rts in Ha.
      * eauto.
  - intros p Hp. apply Hfr. intros Hin. apply Hp. cbn. by apply elem_of_cons; right.
  - intros i ei Hi. destruct (Hes i ei Hi) as (e' & ? & ? & ? & ? & ? & ? & Hsame).
    exists e'. repeat split; try done. intros [Hw|Hni]; apply Hsame; [by left|right].
    intros Hin. apply Hni. by apply elem_of_cons; right.
  - eapply Forall_impl; [exact Hev|]. cbn. intros ev (r' & e' & Hr' & ?).
    exists r', e'. split; [by apply elem_of_cons; right|done].
  - intros Hb r' e' [->|Hr']%elem_of_cons He' Hlt Hle.
    + assert (e' = e) as -> by congruence. lia.
    + by eapply Hex.
Qed.

(** One iteration of the loop over the read set, for an entry whose recorded
    [rts] is below [commit_ts]. *)
Lemma read_validated_quiet {B} m db fuel commit_ts r st e (k : bool -> M B)
    (Q : state -> outcome B -> Prop) :
  others st = [] ->
  rw_entries st !! r = Some e ->
  tuple_ts e = Some (key e) ->
  timestamp_set_wf (slot_value (tscache st) (key e)) ->
  0 <= commit_ts < 2 ^ txn_timestamp_bits ->
  (timestamp_set_get_rts (slot_value (tscache st) (key e)) <= commit_ts ->
   commit_ts - wts (slot_value (tscache st) (key e)) < 2 ^ 64) ->
  entry_rts e < commit_ts ->
  (forall st2 aborts evs,
     read_validated commit_ts r e st st2 aborts evs -> wp (k aborts) st2 Q) ->
  wp (bind (validate_read (S fuel) commit_ts r) (fun is_abort =>
        bind (if negb (rw_entry_is_write e)
              then rw_entry_iceberg_remove m db r true else ret tt)
          (fun _ => k is_abort))) st Q.
Proof.
  intros Hq He Hts Hwf Hc Hfit Hlt HK.
  apply wp_bind.
  eapply wp_conseq; [by apply validate_read_quiet|].
  cbn beta zeta. set (v := slot_value (tscache st) (key e)).
  set (aborts := negb (entry_wts e =? wts v) || _).
  intros st1 o (-> & Hq1 & Hes1 & _ & Hsl1 & Ht1).
  apply wp_bind.
  eapply wp_conseq; [apply validated_remove_quiet; [done|by rewrite Hes1]|].
  cbn beta. intros st2 o (-> & Hq2 & Hsl2 & Hlen2 & Hne2 & He2 & (ups & Ht2 & Hups)).
  apply (HK st2 aborts
    ((EvLoad (key e) v
        :: (if negb aborts && (timestamp_set_get_rts v <=? commit_ts)
            then [EvCas (key e) v (extended commit_ts v) true] else [])) ++ ups)).
  assert (Hab : aborts = read_aborts commit_ts e (slot_value (tscache st) (key e))).
  { unfold read_aborts. apply Z.ltb_lt in Hlt. by rewrite Hlt. }
  split; try done.
  - rewrite Ht2, Ht1, <- app_assoc. done.
  - apply Forall_app. split.
    + apply Forall_cons. split; [by left|].
      destruct (negb aborts && _) eqn:Eext; [|done].
      apply andb_true_iff in Eext as [Hna Hle]. apply negb_true_iff in Hna.
      apply Z.leb_le in Hle. apply Forall_cons. split; [|by apply Forall_nil].
      right. left. split; [done|]. split; [congruence|done].
    + destruct Hups as [->|(Hw & c & -> & Hc')]; [done|].
      apply Forall_cons. split; [|by apply Forall_nil]. right. right. by exists c.
  - intros Hna Hle. apply elem_of_app. left. apply elem_of_cons. right.
    rewrite Hna. cbn [negb andb]. apply Z.leb_le in Hle. fold v in Hle. rewrite Hle.
    by apply list_elem_of_singleton.
  - intros p. rewrite (slot_value_slots _ _ _ Hsl2), Hsl1.
    destruct (negb aborts && _); cbn [andb]; [|by left].
    case_bool_decide as Hp; [|by left]. right. subst p. done.
  - by rewrite Hlen2, Hes1.
  - intros i Hi. rewrite Hne2 by done. by rewrite Hes1.
Qed.

Lemma extended_lock_wts commit_ts v :
  lock_bit (extended commit_ts v) = lock_bit v /\ wts (extended commit_ts v) = wts v.
Proof. done. Qed.

Lemma read_validated_lock_wts commit_ts r e st st2 aborts evs p :
  read_validated commit_ts r e st st2 aborts evs ->
  lock_bit (slot_value (tscache st2) p) = lock_bit (slot_value (tscache st) p)
  /\ wts (slot_value (tscache st2) p) = wts (slot_value (tscache st) p).
Proof.
  intros H. destruct (rv_slot _ _ _ _ _ _ _ H p) as [->|[_ ->]]; [done|].
  apply extended_lock_wts.
Qed.

Lemma read_validated_frame commit_ts r e st st2 aborts evs p :
  read_validated commit_ts r e st st2 aborts evs ->
  p <> key e -> slot_value (tscache st2) p = slot_value (tscache st) p.
Proof. intros H Hp. by destruct (rv_slot _ _ _ _ _ _ _ H p) as [->|[? _]]. Qed.

Lemma read_validated_entries commit_ts r e st st2 aborts evs i ei :
  read_validated commit_ts r e st st2 aborts evs ->
  rw_entries st !! r = Some e ->
  rw_entries st !! i = Some ei ->
  exists e', rw_entries st2 !! i = Some e'
             /\ key e' = key ei /\ msg e' = msg ei
             /\ entry_wts e' = entry_wts ei /\ entry_rts e' = entry_rts ei
             /\ is_read e' = is_read ei
             /\ (rw_entry_is_write ei = true \/ i <> r -> e' = ei).
Proof.
  intros H He Hi. destruct (decide (i = r)) as [->|Hne].
  - assert (ei = e) as -> by congruence.
    destruct (rv_entry _ _ _ _ _ _ _ H) as (e' & ? & ? & ? & ? & ? & ? & Hsame).
    exists e'. repeat split; try done. intros [Hw|Hn]; [by apply Hsame|done].
  - exists ei. rewrite (rv_others _ _ _ _ _ _ _ H) by done. done.
Qed.

(** The validation stops at the first entry that aborts. *)
Lemma validated_abort commit_ts r rest st st2 evs e :
  rw_entries st !! r = Some e ->
  entry_rts e < commit_ts ->
  read_validated commit_ts r e st st2 true evs ->
  validated commit_ts (r :: rest) st st2 true evs.
Proof.
  intros He Hlt H. split.
  - apply (rv_quiet _ _ _ _ _ _ _ H).
  - apply (rv_trace _ _ _ _ _ _ _ H).
  - split; [|done]. intros _. exists r, e. split; [by apply elem_of_cons; left|].
    split; [done|]. symmetry. apply (rv_aborts _ _ _ _ _ _ _ H).
  - intros p. by eapply read_validated_lock_wts.
  - intros p Hp. eapply read_validated_frame; [done|]. intros ->. apply Hp.
    cbn. rewrite (entry_key_lookup _ _ _ He). by apply elem_of_cons; left.
  - apply (rv_length _ _ _ _ _ _ _ H).
  - intros i ei Hi.
    destruct (read_validated_entries _ _ _ _ _ _ _ _ _ H He Hi)
      as (e' & ? & ? & ? & ? & ? & ? & Hsame).
    exists e'. repeat split; try done. intros [Hw|Hn]; apply Hsame; [by left|right].
    intros ->. apply Hn. by apply elem_of_cons; left.
  - eapply Forall_impl; [apply (rv_events _ _ _ _ _ _ _ H)|]. cbn. intros ev Hev.
    exists r, e. split; [by apply elem_of_cons; left|done].
  - done.
Qed.

Lemma validation_ready_tail commit_ts r rest st st2 e aborts evs :
  validation_ready commit_ts (r :: rest) st ->
  rw_entries st !! r = Some e ->
  read_validated commit_ts r e st st2 aborts evs ->
  validation_ready commit_ts rest st2
  /\ (forall i, entry_key (rw_entries st2) i = entry_key (rw_entries st) i)
  /\ (forall r' e', r' ∈ rest -> rw_entries st !! r' = Some e' ->
        rw_entries st2 !! r' = Some e'
        /\ slot_value (tscache st2) (key e') = slot_value (tscache st) (key e')).
Proof.
  intros [Hq Hnd Hc Hall] He H.
  assert (Hkeys : forall i, entry_key (rw_entries st2) i = entry_key (rw_entries st) i).
  { apply entry_key_same; [apply (rv_length _ _ _ _ _ _ _ H)|].
    intros i ei Hi.
    destruct (read_validated_entries _ _ _ _ _ _ _ _ _ H He Hi) as (e' & ? & ? & _).
    by exists e'. }
  cbn [fmap list_fmap] in Hnd. apply NoDup_cons in Hnd as [Hnotin Hnd].
  rewrite (entry_key_lookup _ _ _ He) in Hnotin.
  assert (Hrest : forall r' e', r' ∈ rest -> rw_entries st !! r' = Some e' ->
            rw_entries st2 !! r' = Some e'
            /\ slot_value (tscache st2) (key e') = slot_value (tscache st) (key e')).
  { intros r' e' Hr' He'.
    assert (Hk : key e' <> key e).
    { intros Heq. apply Hnotin. rewrite <- Heq, <- (entry_key_lookup _ _ _ He').
      by apply list_elem_of_fmap_2. }
    split.
    - rewrite (rv_others _ _ _ _ _ _ _ H); [done|]. intros ->.
      assert (e' = e) by congruence. by subst.
    - by eapply read_validated_frame. }
  split; [|done]. split.
  - apply (rv_quiet _ _ _ _ _ _ _ H).
  - erewrite list_fmap_ext; [exact Hnd|]. intros; apply Hkeys.
  - done.
  - intros r' Hr'.
    destruct (Hall r' ltac:(by apply elem_of_cons; right)) as (e' & He' & ? & ? & ? & ?).
    destruct (Hrest r' e' Hr' He') as [He2 Hs2].
    exists e'. rewrite Hs2. done.
Qed.


(** An entry that passes is followed by the validation of the rest. *)
Lemma validated_step commit_ts r rest st st2 st' b evs new2 e :
  validation_ready commit_ts (r :: rest) st ->
  rw_entries st !! r = Some e ->
  entry_rts e < commit_ts ->
  read_validated commit_ts r e st st2 false evs ->
  validated commit_ts rest st2 st' b new2 ->
  validated commit_ts (r :: rest) st st' b (evs ++ new2).
Proof.
  intros Hready He Hlt H Hv.
  destruct (validation_ready_tail _ _ _ _ _ _ _ _ Hready He H) as (_ & Hkeys & Hrest).
  destruct Hv as [Hq Ht Hab Hlw Hfr Hlen Hes Hev Hex].
  assert (Hall : forall r', r' ∈ rest -> exists e', rw_entries st !! r' = Some e').
  { intros r' Hr'.
    destruct (vready_entries _ _ _ Hready r' ltac:(by apply elem_of_cons; right))
      as (e' & ? & _). by exists e'. }
  split.
  - done.
  - by rewrite Ht, (rv_trace _ _ _ _ _ _ _ H), app_assoc.
  - rewrite Hab. split.
    + intros (r' & e' & Hr' & He' & Ha). destruct (Hall r' Hr') as (e0 & He0).
      destruct (Hrest r' e0 Hr' He0) as [He2 Hs2].
      assert (e' = e0) as -> by congruence.
      exists r', e0. split; [by apply elem_of_cons; right|]. split; [done|].
      by rewrite <- Hs2.
    + intros (r' & e' & [->|Hr']%elem_of_cons & He' & Ha).
      * assert (e' = e) as -> by congruence.
        rewrite <- (rv_aborts _ _ _ _ _ _ _ H) in Ha. done.
      * destruct (Hrest r' e' Hr' He') as [He2 Hs2].
        exists r', e'. split; [done|]. split; [done|]. by rewrite Hs2.
  - intros p. destruct (Hlw p) as [-> ->]. by eapply read_validated_lock_wts.
  - intros p Hp. rewrite Hfr.
    + eapply read_validated_frame; [done|]. intros ->. apply Hp.
      cbn. rewrite (entry_key_lookup _ _ _ He). by apply elem_of_cons; left.
    + intros Hin. apply Hp. cbn. apply elem_of_cons. right.
      erewrite list_fmap_ext; [exact Hin|]. intros; symmetry; apply Hkeys.
  - by rewrite Hlen, (rv_length _ _ _ _ _ _ _ H).
  - intros i ei Hi.
    destruct (read_validated_entries _ _ _ _ _ _ _ _ _ H He Hi)
      as (e2 & He2 & Hk2 & Hm2 & Hw2 & Hr2 & Hi2 & Hsame2).
    destruct (Hes i e2 He2) as (e3 & He3 & Hk3 & Hm3 & Hw3 & Hr3 & Hi3 & Hsame3).
    exists e3. split; [done|].
    split; [congruence|]. split; [congruence|]. split; [congruence|].
    split; [congruence|]. split; [congruence|].
    intros Hcase.
    assert (e2 = ei) as ->.
    { apply Hsame2. destruct Hcase as [Hw|Hn]; [by left|right].
      intros ->. apply Hn. by apply elem_of_cons; left. }
    apply Hsame3. destruct Hcase as [Hw|Hn]; [by left|right].
    intros Hin. apply Hn. by apply elem_of_cons; right.
  - apply Forall_app. split.
    + eapply Forall_impl; [apply (rv_events _ _ _ _ _ _ _ H)|]. cbn. intros ev Hev'.
      exists r, e. split; [by apply elem_of_cons; left|done].
    + eapply Forall_impl; [exact Hev|]. cbn. intros ev (r' & e' & Hr' & He' & Hlt' & Hve).
      destruct (Hall r' Hr') as (e0 & He0).
      destruct (Hrest r' e0 Hr' He0) as [He2 Hs2].
      assert (e' = e0) as -> by congruence.
      exists r', e0. split; [by apply elem_of_cons; right|]. split; [done|].
      split; [done|]. by rewrite <- Hs2.
  - intros Hb r' e' [->|Hr']%elem_of_cons He' Hlt' Hle; apply elem_of_app.
    + assert (e' = e) as -> by congruence. left.
      by apply (rv_extended _ _ _ _ _ _ _ H).
    + right. destruct (Hrest r' e' Hr' He') as [He2 Hs2].
      rewrite <- Hs2. apply (Hex Hb r' e' Hr' He2 Hlt'). by rewrite Hs2.
Qed.

(** The validation loop ends, in a quiet run, and does what [validated]
    says. *)
Lemma validate_read_set_quiet m db fuel commit_ts rs :
  forall st, validation_ready commit_ts rs st ->
  wp (validate_read_set m db (S fuel) commit_ts rs) st (fun st' o =>
    exists b new, o = Ret b /\ validated commit_ts rs st st' b new).
Proof.
  induction rs as [|r rest IH]; intros st Hready.
  { apply wp_ret. exists false, []. split; [done|].
    apply validated_nil, (vready_quiet _ _ _ Hready). }
  destruct (vready_entries _ _ _ Hready r ltac:(by apply elem_of_cons; left))
    as (e & He & Hread & Hts & Hwf & Hfit).
  cbn [validate_read_set].
  apply wp_bind, wp_get_entry; [intros e' He'|congruence].
  assert (e' = e) as -> by congruence.
  apply wp_bind, wp_assert; [|by rewrite Hread]. intros _.
  destruct (entry_rts e <? commit_ts) eqn:Elt.
  - apply Z.ltb_lt in Elt.
    apply read_validated_quiet; try done.
    { apply (vready_quiet _ _ _ Hready). }
    { apply (vready_commit_ts _ _ _ Hready). }
    intros st2 aborts evs H. destruct aborts.
    + apply wp_ret. exists true, evs. split; [done|]. by eapply validated_abort.
    + destruct (validation_ready_tail _ _ _ _ _ _ _ _ Hready He H) as (Hready2 & _).
      eapply wp_conseq; [apply IH, Hready2|]. cbn.
      intros st' o (b & new & -> & Hv). exists b, (evs ++ new). split; [done|].
      by eapply validated_step.
  - apply Z.ltb_ge in Elt.
    assert (Hready2 : validation_ready commit_ts rest st).
    { destruct Hready as [Hq Hnd Hc Hall]. split; try done.
      - cbn in Hnd. by apply NoDup_cons in Hnd as [_ ?].
      - intros r' Hr'. apply Hall. by apply elem_of_cons; right. }
    eapply wp_conseq; [apply IH, Hready2|]. cbn.
    intros st' o (b & new & -> & Hv). exists b, new. split; [done|].
    by eapply validated_skip.
Qed.


(** ** The write phase, the release of the locks and [transaction_deinit] *)

Lemma install_small (commit_ts : Z) (v1 : timestamp_set) :
  0 <= commit_ts < 2 ^ 63 ->
  set_lock_bit (set_delta (set_wts v1 commit_ts) 0) false
  = committed_timestamps commit_ts.
Proof.
  intros H. unfold set_lock_bit, set_delta, set_wts, committed_timestamps.
  cbn [lock_bit delta wts]. rewrite (Z.mod_small commit_ts) by done. by rewrite Z.mod_0_l by lia.
Qed.

Lemma write_entry_quiet m db fuel commit_ts w st e :
  others st = [] ->
  (forall h c, return_code (kvsb db) h c = 0) ->
  0 <= commit_ts < 2 ^ 63 ->
  rw_entries st !! w = Some e ->
  rw_entry_is_write e = true ->
  tuple_ts e = Some (key e) ->
  wp (write_entry m db (S fuel) commit_ts w) st (fun st' o =>
    o = Ret tt /\ others st' = []
    /\ trace st' = trace st
                   ++ write_events m commit_ts e (slot_value (tscache st) (key e))
    /\ (forall p, slot_value (tscache st') p
                  = if decide (p = key e) then committed_timestamps commit_ts
                    else slot_value (tscache st) p)
    /\ length (rw_entries st') = length (rw_entries st)
    /\ (forall i, i <> w -> rw_entries st' !! i = rw_entries st !! i)
    /\ exists e', rw_entries st' !! w = Some e' /\ key e' = key e).
Proof.
  intros Hq Hstore Hc He Hw Hts. unfold write_entry.
  apply wp_bind, wp_get_entry; [intros e' He'|congruence].
  assert (e' = e) as -> by congruence.
  apply wp_bind, wp_assert; [intros _|congruence].
  apply wp_bind.
  apply (wp_conseq _ _ (fun st1 o =>
    o = Ret tt /\ others st1 = [] /\ tscache st1 = tscache st
    /\ trace st1 = trace st
                   ++ (if EXPERIMENTAL_MODE_BYPASS_SPLINTERDB m then []
                       else EvKv <$> option_list (write_call commit_ts e))
    /\ length (rw_entries st1) = length (rw_entries st)
    /\ (forall i, i <> w -> rw_entries st1 !! i = rw_entries st !! i)
    /\ exists e', rw_entries st1 !! w = Some e' /\ key e' = key e)).
  { destruct (EXPERIMENTAL_MODE_BYPASS_SPLINTERDB m).
    { apply wp_ret. rewrite app_nil_r. repeat split; try done. by exists e. }
    unfold rw_entry_is_write in Hw. unfold write_call.
    destruct (msg e) as [wmsg|] eqn:Emsg; [|done]. cbn [mbind option_bind].
    apply wp_bind, wp_update_entry. apply wp_bind.
    set (st0 := with_rw_entries _ st).
    assert (Hpost : forall tr,
              trace st0 ++ tr = trace st ++ tr
              /\ length (rw_entries st0) = length (rw_entries st)
              /\ (forall i, i <> w -> rw_entries st0 !! i = rw_entries st !! i)
              /\ exists e', rw_entries st0 !! w = Some e' /\ key e' = key e).
    { intros tr. unfold st0. simpl_state. split; [done|]. split; [apply length_alter|].
      split; [intros i Hi; by rewrite list_lookup_alter_ne|].
      rewrite list_lookup_alter_eq, He. by eexists. }
    cbn [message_class message_create message_slice message_data].
    unfold commit_tuple_header, write_tuple_header.
    destruct (message_class wmsg);
      [apply wp_ret|unfold splinterdb_insert|unfold splinterdb_update
       |unfold splinterdb_delete];
      try apply wp_call; try rewrite Hstore; apply wp_assert; try done; intros _;
      simpl_state; cbn [option_list fmap list_fmap];
      destruct (Hpost []) as (_ & ? & ? & ?); rewrite ?app_nil_r;
      repeat split; try done. }
  cbn beta. intros st1 o (-> & Hq1 & Hts1 & Ht1 & Hlen1 & Hne1 & He1).
  apply wp_bind, wp_deref; [intros p Hp|congruence].
  assert (p = key e) as -> by congruence.
  cbn [install_commit_ts].
  apply wp_bind, wp_load_quiet; [done|].
  apply wp_bind, wp_cas_quiet; [done|by simpl_state|]. apply wp_ret.
  simpl_state. rewrite Hts1, (install_small _ _ Hc). repeat split; try done.
  - rewrite Ht1. unfold write_events. by rewrite <- !app_assoc.
  - intros p. destruct (decide (p = key e)) as [->|Hne].
    + apply slot_value_store_eq.
    + by apply slot_value_store_ne.
Qed.


Lemma flat_map_ext_in {A B} (f g : A -> list B) (l : list A) :
  (forall x, x ∈ l -> f x = g x) -> flat_map f l = flat_map g l.
Proof.
  induction l as [|x l IH]; intros H; cbn; [done|].
  rewrite H by (by apply elem_of_cons; left). f_equal. apply IH.
  intros y Hy. apply H. by apply elem_of_cons; right.
Qed.

Lemma write_write_set_quiet m db fuel commit_ts ws :
  forall st,
  others st = [] ->
  (forall h c, return_code (kvsb db) h c = 0) ->
  0 <= commit_ts < 2 ^ 63 ->
  NoDup (entry_key (rw_entries st) <$> ws) ->
  (forall w, w ∈ ws ->
     exists e, rw_entries st !! w = Some e /\ rw_entry_is_write e = true
               /\ tuple_ts e = Some (key e)) ->
  wp (write_write_set m db (S fuel) commit_ts ws) st (fun st' o =>
    o = Ret tt /\ others st' = []
    /\ trace st' = trace st ++ write_set_events m commit_ts st ws
    /\ (forall p, slot_value (tscache st') p
                  = if decide (p ∈ entry_key (rw_entries st) <$> ws)
                    then committed_timestamps commit_ts
                    else slot_value (tscache st) p)
    /\ length (rw_entries st') = length (rw_entries st)).
Proof.
  unfold write_write_set, write_set_events.
  induction ws as [|w rest IH]; intros st Hq Hstore Hc Hnd Hall; cbn [for_each flat_map].
  { apply wp_ret. rewrite app_nil_r. done. }
  destruct (Hall w ltac:(by apply elem_of_cons; left)) as (e & He & Hw & Hts).
  cbn [fmap list_fmap] in Hnd. apply NoDup_cons in Hnd as [Hnotin Hnd].
  rewrite (entry_key_lookup _ _ _ He) in Hnotin.
  apply wp_bind.
  eapply wp_conseq; [by apply write_entry_quiet|].
  cbn beta. intros st1 o (-> & Hq1 & Ht1 & Hsl1 & Hlen1 & Hne1 & (e1 & He1 & Hk1)).
  assert (Hrest : forall w', w' ∈ rest -> rw_entries st1 !! w' = rw_entries st !! w').
  { intros w' Hw'. apply Hne1. intros ->. apply Hnotin.
    rewrite <- (entry_key_lookup _ _ _ He). by apply list_elem_of_fmap_2. }
  assert (Hkeys : entry_key (rw_entries st1) <$> rest = entry_key (rw_entries st) <$> rest).
  { apply list_fmap_ext. intros j w' Hj. unfold entry_key.
    by rewrite Hrest by by eapply list_elem_of_lookup_2. }
  eapply wp_conseq; [apply IH; try done|].
  { by rewrite Hkeys. }
  { intros w' Hw'. rewrite Hrest by done. apply Hall. by apply elem_of_cons; right. }
  cbn beta. intros st' o (-> & Hq' & Ht' & Hsl' & Hlen').
  split; [done|]. split; [done|]. split; [|split].
  - rewrite Ht', Ht1, He, <- app_assoc. f_equal. f_equal.
    apply flat_map_ext_in. intros w' Hw'.
    rewrite Hrest by done.
    destruct (Hall w' ltac:(by apply elem_of_cons; right)) as (e' & He' & _).
    rewrite He', Hsl1. rewrite decide_False; [done|].
    intros Heq. apply Hnotin. rewrite <- Heq, <- (entry_key_lookup _ _ _ He').
    by apply list_elem_of_fmap_2.
  - intros p. rewrite Hsl', Hkeys, Hsl1. cbn [fmap list_fmap].
    rewrite (entry_key_lookup _ _ _ He).
    destruct (decide (p = key e)) as [->|Hne].
    + rewrite decide_False by done. by rewrite decide_True by (by apply elem_of_cons; left).
    + destruct (decide (p ∈ _)) as [Hin|Hnin].
      * by rewrite decide_True by (by apply elem_of_cons; right).
      * rewrite decide_False; [done|]. by intros [?|?]%elem_of_cons.
  - by rewrite Hlen', Hlen1.
Qed.

Lemma unlock_write_set_quiet fuel ws :
  forall st,
  others st = [] ->
  (forall w, w ∈ ws ->
     exists e, rw_entries st !! w = Some e /\ tuple_ts e = Some (key e)) ->
  wp (unlock_write_set (S fuel) ws) st (fun st' o =>
    o = Ret tt /\ others st' = [] /\ rw_entries st' = rw_entries st
    /\ kv_calls (trace st') = kv_calls (trace st)
    /\ forall p, slot_value (tscache st') p
                 = if decide (p ∈ entry_key (rw_entries st) <$> ws)
                   then set_lock_bit (slot_value (tscache st) p) false
                   else slot_value (tscache st) p).
Proof.
  unfold unlock_write_set.
  induction ws as [|w rest IH]; intros st Hq Hall; cbn [for_each].
  { apply wp_ret. done. }
  destruct (Hall w ltac:(by apply elem_of_cons; left)) as (e & He & Hts).
  apply wp_bind. cbn [rw_entry_unlock].
  apply wp_bind, wp_get_entry; [intros e' He'|congruence].
  assert (e' = e) as -> by congruence.
  apply wp_bind, wp_deref; [intros p Hp|congruence].
  assert (p = key e) as -> by congruence.
  apply wp_bind, wp_load_quiet; [done|].
  apply wp_bind, wp_cas_quiet; [done|by simpl_state|]. apply wp_ret.
  set (v := slot_value (tscache st) (key e)).
  set (st1 := emit _ (with_tscache _ (emit _ st))).
  eapply wp_conseq; [apply (IH st1); [done|]|].
  { intros w' Hw'. unfold st1. simpl_state. apply Hall. by apply elem_of_cons; right. }
  cbn beta. intros st' o (-> & Hq' & Hes' & Hkv' & Hsl'). unfold st1 in *. simpl_state.
  repeat split; try done.
  - rewrite Hkv', !kv_calls_app. cbn. by rewrite !app_nil_r.
  - intros p. rewrite Hsl'. cbn [fmap list_fmap]. rewrite (entry_key_lookup _ _ _ He).
    destruct (decide (p = key e)) as [->|Hne].
    + rewrite slot_value_store_eq. rewrite (decide_True (P := key e ∈ key e :: _))
        by (by apply elem_of_cons; left).
      by destruct (decide _).
    + rewrite slot_value_store_ne by done.
      destruct (decide (p ∈ _)) as [Hin|Hnin].
      * by rewrite decide_True by (by apply elem_of_cons; right).
      * rewrite decide_False; [done|]. by intros [?|?]%elem_of_cons.
Qed.

Lemma deinit_loop_quiet m db k :
  forall a st,
  others st = [] ->
  (a + k <= length (rw_entries st))%nat ->
  wp (for_each (seq a k) (fun i => rw_entry_iceberg_remove m db i false)) st
    (fun st' o => o = Ret tt /\ others st' = [] /\ trace st' = trace st
                  /\ slots (tscache st') = slots (tscache st)).
Proof.
  induction k as [|k IH]; intros a st Hq Hlen; cbn [seq for_each].
  { by apply wp_ret. }
  destruct (lookup_lt_is_Some_2 (rw_entries st) a ltac:(lia)) as [e He].
  apply wp_bind.
  eapply wp_conseq; [by eapply iceberg_remove_quiet|].
  cbn beta. intros st1 o (-> & Hq1 & Hsl1 & Hlen1 & _ & _ & (evs & Ht1 & Hevs)).
  destruct Hevs as [->|[[=] _]]. rewrite app_nil_r in Ht1.
  eapply wp_conseq; [apply IH; [done|lia]|].
  cbn beta. intros st' o (-> & Hq' & Ht' & Hsl'). repeat split; try done; congruence.
Qed.

Lemma transaction_deinit_quiet m db st :
  others st = [] ->
  wp (transaction_deinit m db) st
    (fun st' o => o = Ret tt /\ others st' = [] /\ trace st' = trace st
                  /\ slots (tscache st') = slots (tscache st)).
Proof.
  intros Hq. unfold transaction_deinit.
  eapply wp_run_eq; [reflexivity|]. by apply deinit_loop_quiet.
Qed.


(** ** The whole commit in a quiet run *)

Lemma foldl_MAX_bounds {A} (f : A -> Z) (B : Z) (l : list A) :
  forall c, 0 <= c <= B -> (forall x, x ∈ l -> 0 <= f x <= B) ->
  0 <= foldl (fun c x => MAX c (f x)) c l <= B.
Proof.
  induction l as [|x l IH]; intros c Hc Hl; cbn [foldl]; [done|].
  apply IH.
  - pose proof (Hl x ltac:(by apply elem_of_cons; left)).
    unfold MAX. destruct (c >? f x); lia.
  - intros y Hy. apply Hl. by apply elem_of_cons; right.
Qed.

Lemma locked_entry st st1 rs ws commit_ts i e :
  write_set_locked st st1 rs ws commit_ts ->
  rw_entries st !! i = Some e ->
  exists e1, rw_entries st1 !! i = Some e1
             /\ key e1 = key e /\ msg e1 = msg e /\ tuple_ts e1 = tuple_ts e
             /\ entry_wts e1 = entry_wts e /\ is_read e1 = is_read e
             /\ (i ∉ ws -> e1 = e).
Proof.
  intros H He. rewrite (locked_entries _ _ _ _ _ H), He. cbn.
  destruct (decide (i ∈ ws)); eexists; (split; [done|]); done.
Qed.

Lemma locked_keys st st1 rs ws commit_ts :
  write_set_locked st st1 rs ws commit_ts ->
  forall i, entry_key (rw_entries st1) i = entry_key (rw_entries st) i.
Proof.
  intros H i. unfold entry_key. rewrite (locked_entries _ _ _ _ _ H).
  destruct (rw_entries st !! i); cbn; [|done]. by destruct (decide _).
Qed.

Lemma commit_locked_quiet m db fuel st :
  commit_ready db st ->
  exists st1 rs ws commit_ts,
    commit_timestamp m db (S fuel) st = (st1, Ret (rs, ws, commit_ts))
    /\ write_set_locked st st1 rs ws commit_ts
    /\ validation_ready commit_ts rs st1.
Proof.
  intros Hready.
  pose proof (commit_timestamp_quiet m db fuel st Hready) as Hrun. cbv zeta in Hrun.
  destruct Hready as [Hq Hslots Hkeys Hunl Hstore Hbounds].
  pose proof pow2_facts as (P1 & P2 & P3 & P4).
  unfold wp in Hrun.
  destruct (commit_timestamp m db (S fuel) st) as [st1 o] eqn:Erun. cbn [fst snd] in Hrun.
  destruct Hrun as (rs & ws & -> & Hrs & Hws & Hnr & Hnw & _ & Hq1 & Hkv & Hsl & Hes).
  eexists st1, rs, ws, _. split; [reflexivity|].
  set (cts := foldl _ _ _).
  assert (Hc : 0 <= cts <= 2 ^ 62).
  { unfold cts. apply foldl_MAX_bounds.
    - apply (foldl_MAX_bounds (fun x => x)); [lia|].
      intros x (e & -> & [_ Hin]%list_elem_of_filter)%list_elem_of_fmap.
      apply list_elem_of_lookup in Hin as [i He].
      destruct (Hbounds i e He) as (? & _). unfold read_wts_for_commit.
      destruct (EXPERIMENTAL_MODE_SILO m); [|lia]. rewrite txn_wrap_small; lia.
    - intros x (w & -> & (e & He & _)%Hws)%list_elem_of_fmap.
      rewrite (entry_key_lookup _ _ _ He).
      destruct (Hbounds _ _ He) as (_ & ? & ? & ?).
      unfold timestamp_set_get_rts. rewrite (txn_wrap_small (wts _ + delta _)) by lia.
      rewrite txn_wrap_small; lia. }
  assert (Hlocked : write_set_locked st st1 rs ws cts).
  { split; try done. lia. }
  split; [done|]. split.
  - done.
  - erewrite list_fmap_ext; [|intros; by eapply locked_keys].
    apply entry_keys_NoDup; try done. intros r (e & He & _)%Hrs. by exists e.
  - lia.
  - intros r Hr. apply Hrs in Hr as (e & He & Hread).
    destruct (locked_entry _ _ _ _ _ _ _ Hlocked He) as (e1 & He1 & Hk & Hm & Hts & Hw & Hir & _).
    exists e1. split; [done|]. split; [unfold rw_entry_is_read in *; congruence|].
    split; [rewrite Hts, Hk; by eapply Hslots|].
    destruct (Hbounds _ _ He) as (_ & ? & ? & ?).
    assert (Hwd : wts (slot_value (tscache st1) (key e1)) = wts (slot_value (tscache st) (key e))
                  /\ delta (slot_value (tscache st1) (key e1))
                     = delta (slot_value (tscache st) (key e))).
    { rewrite Hk, Hsl. by destruct (decide _). }
    destruct Hwd as [Hw1 Hd1]. unfold timestamp_set_wf. rewrite Hw1, Hd1.
    split; [lia|]. intros _. lia.
Qed.


Lemma validated_keys commit_ts rs st1 st2 b new :
  validated commit_ts rs st1 st2 b new ->
  forall i, entry_key (rw_entries st2) i = entry_key (rw_entries st1) i.
Proof.
  intros Hv. apply entry_key_same; [apply (val_length _ _ _ _ _ _ Hv)|].
  intros i e He. destruct (val_entries _ _ _ _ _ _ Hv i e He) as (e' & ? & ? & _).
  by exists e'.
Qed.

(** The write entries as the validation leaves them. *)
Lemma validated_write_entry st st1 rs ws commit_ts st2 b new w e :
  write_set_locked st st1 rs ws commit_ts ->
  validated commit_ts rs st1 st2 b new ->
  rw_entries st !! w = Some e ->
  rw_entry_is_write e = true ->
  exists e2, rw_entries st2 !! w = Some e2
             /\ key e2 = key e /\ msg e2 = msg e /\ tuple_ts e2 = tuple_ts e.
Proof.
  intros Hlocked Hv He Hw.
  destruct (locked_entry _ _ _ _ _ _ _ Hlocked He) as (e1 & He1 & Hk & Hm & Hts & _).
  destruct (val_entries _ _ _ _ _ _ Hv w e1 He1) as (e2 & He2 & _ & _ & _ & _ & _ & Hsame).
  assert (e2 = e1) as ->.
  { apply Hsame. left. unfold rw_entry_is_write in *. by rewrite Hm. }
  by exists e1.
Qed.

Lemma commit_quiet m db fuel st :
  commit_ready db st ->
  exists st1 rs ws commit_ts st2 b new st3,
    commit_timestamp m db (S fuel) st = (st1, Ret (rs, ws, commit_ts))
    /\ write_set_locked st st1 rs ws commit_ts
    /\ validate_read_set m db (S fuel) commit_ts rs st1 = (st2, Ret b)
    /\ validated commit_ts rs st1 st2 b new
    /\ transactional_splinterdb_commit m db (S fuel) st = (st3, Ret (-1 * Z.b2z b))
    /\ if b
       then kv_calls (trace st3) = kv_calls (trace st2)
            /\ forall p, slot_value (tscache st3) p
                 = if decide (p ∈ entry_key (rw_entries st) <$> ws)
                   then set_lock_bit (slot_value (tscache st2) p) false
                   else slot_value (tscache st2) p
       else trace st3 = trace st2 ++ write_set_events m commit_ts st2 ws
            /\ forall p, slot_value (tscache st3) p
                 = if decide (p ∈ entry_key (rw_entries st) <$> ws)
                   then committed_timestamps commit_ts
                   else slot_value (tscache st2) p.
Proof.
  intros Hready.
  destruct (commit_locked_quiet m db fuel st Hready)
    as (st1 & rs & ws & cts & Erun & Hlocked & Hvready).
  pose proof (validate_read_set_quiet m db fuel cts rs st1 Hvready) as Hval.
  unfold wp in Hval.
  destruct (validate_read_set m db (S fuel) cts rs st1) as [st2 o] eqn:Eval.
  cbn [fst snd] in Hval. destruct Hval as (b & new & -> & Hv).
  assert (Hkeys2 : forall i, entry_key (rw_entries st2) i = entry_key (rw_entries st) i).
  { intros i. rewrite (validated_keys _ _ _ _ _ _ Hv).
    by eapply locked_keys. }
  assert (Hws2 : forall w, w ∈ ws ->
            exists e, rw_entries st2 !! w = Some e /\ rw_entry_is_write e = true
                      /\ tuple_ts e = Some (key e)).
  { intros w (e & He & Hw)%(locked_writes _ _ _ _ _ Hlocked).
    destruct (validated_write_entry _ _ _ _ _ _ _ _ _ _ Hlocked Hv He Hw)
      as (e2 & He2 & Hk & Hm & Hts).
    exists e2. split; [done|]. split; [unfold rw_entry_is_write in *; by rewrite Hm|].
    rewrite Hts, Hk. by eapply (ready_slots _ _ Hready). }
  assert (Hkeq : entry_key (rw_entries st2) <$> ws = entry_key (rw_entries st) <$> ws).
  { apply list_fmap_ext. intros; apply Hkeys2. }
  assert (Hend :
    wp (bind (if negb b
              then write_write_set m db (S fuel) cts ws
              else unlock_write_set (S fuel) ws)
          (fun _ => bind (transaction_deinit m db)
                      (fun _ => ret (-1 * Z.b2z b)))) st2
      (fun st3 o =>
         o = Ret (-1 * Z.b2z b)
         /\ if b
            then kv_calls (trace st3) = kv_calls (trace st2)
                 /\ forall p, slot_value (tscache st3) p
                      = if decide (p ∈ entry_key (rw_entries st) <$> ws)
                        then set_lock_bit (slot_value (tscache st2) p) false
                        else slot_value (tscache st2) p
            else trace st3 = trace st2 ++ write_set_events m cts st2 ws
                 /\ forall p, slot_value (tscache st3) p
                      = if decide (p ∈ entry_key (rw_entries st) <$> ws)
                        then committed_timestamps cts
                        else slot_value (tscache st2) p)).
  { apply wp_bind. destruct b; cbn [negb].
    - eapply wp_conseq; [apply unlock_write_set_quiet|].
      + apply (val_quiet _ _ _ _ _ _ Hv).
      + intros w Hw. destruct (Hws2 w Hw) as (e & ? & _ & ?). by exists e.
      + cbn beta. intros st' o (-> & Hq' & _ & Hkv' & Hsl').
        apply wp_bind.
        eapply wp_conseq; [by apply transaction_deinit_quiet|].
        cbn beta. intros st3 o (-> & _ & Ht3 & Hsl3). apply wp_ret.
        split; [done|]. split; [by rewrite Ht3|].
        intros p. rewrite (slot_value_slots _ _ _ Hsl3), Hsl', Hkeq. done.
    - eapply wp_conseq; [apply write_write_set_quiet|].
      + apply (val_quiet _ _ _ _ _ _ Hv).
      + apply (ready_store _ _ Hready).
      + apply (locked_commit_ts _ _ _ _ _ Hlocked).
      + rewrite Hkeq. apply entry_keys_NoDup.
        * apply (ready_keys _ _ Hready).
        * apply (locked_write_set _ _ _ _ _ Hlocked).
        * intros w (e & He & _)%(locked_writes _ _ _ _ _ Hlocked). by exists e.
      + done.
      + cbn beta. intros st' o (-> & Hq' & Ht' & Hsl' & _).
        apply wp_bind.
        eapply wp_conseq; [by apply transaction_deinit_quiet|].
        cbn beta. intros st3 o (-> & _ & Ht3 & Hsl3). apply wp_ret.
        split; [done|]. split; [by rewrite Ht3|].
        intros p. rewrite (slot_value_slots _ _ _ Hsl3), Hsl', Hkeq. done. }
  unfold wp in Hend.
  destruct (bind _ _ st2) as [st3 o3] eqn:Eend. cbn [fst snd] in Hend.
  destruct Hend as [-> Hpost].
  exists st1, rs, ws, cts, st2, b, new, st3.
  split; [done|]. split; [done|]. split; [done|]. split; [done|]. split; [|done].
  unfold transactional_splinterdb_commit. erewrite bind_run; [|exact Erun].
  unfold commit_validate_and_write. erewrite bind_run; [|exact Eval]. exact Eend.
Qed.


(** ** C2: validation of the read set *)









(** ** C3: the abort path *)


Lemma write_key_locked st st1 rs ws commit_ts w e :
  write_set_locked st st1 rs ws commit_ts ->
  rw_entries st !! w = Some e -> rw_entry_is_write e = true ->
  key e ∈ entry_key (rw_entries st) <$> ws.
Proof.
  intros Hlocked He Hw. rewrite <- (entry_key_lookup _ _ _ He).
  apply list_elem_of_fmap_2, (locked_writes _ _ _ _ _ Hlocked). by exists e.
Qed.





(** ** C4: the write phase *)

Lemma buffered_state_ready : commit_ready sample_db buffered_state.
Proof.
  split; try done.
  - intros [|i] e; cbn; intros [= <-]; done.
  - compute_done.
  - intros [|i] e; cbn; intros [= <-]; done.
  - intros [|i] e; cbn; intros [= <-]; vm_compute; repeat split; congruence.
Qed.

(** C4. For a transaction that is ready to commit in a quiet run, in the
    build that does not bypass the store: when the validation does not abort,
    the commit returns 0 and the write phase appends to the trace, for the
    write entries in the order of the sorted write set, the call to the store
    followed by the load of the slot and a successful CAS that installs
    [{wts = commit_ts, delta = 0, lock_bit = 0}], and nothing else. The call
    is [write_call]: for an insertion or an update, the buffered message whose
    first 16 bytes are the header [{is_ts_update = 0, delta = 0,
    wts = commit_ts}] and whose remaining bytes are the value; for a deletion,
    [splinterdb_delete] with the key alone. *)
Theorem C4_write_phase_issues_calls_then_installs (m : build_macros)
    (db : transactional_splinterdb) (fuel : nat) (st : state) :
  commit_ready db st ->
  EXPERIMENTAL_MODE_BYPASS_SPLINTERDB m = false ->
  exists st1 rs ws commit_ts st2 is_abort st3,
    commit_timestamp m db (S fuel) st = (st1, Ret (rs, ws, commit_ts))
    /\ validate_read_set m db (S fuel) commit_ts rs st1 = (st2, Ret is_abort)
    /\ transactional_splinterdb_commit m db (S fuel) st
       = (st3, Ret (if is_abort then -1 else 0))
    /\ (is_abort = false ->
        trace st3 = trace st2 ++ write_set_events m commit_ts st2 ws
        /\ forall w e, rw_entries st !! w = Some e -> rw_entry_is_write e = true ->
             w ∈ ws
             /\ slot_value (tscache st3) (key e) = committed_timestamps commit_ts
             /\ exists before after v,
                  write_set_events m commit_ts st2 ws
                  = before
                    ++ (EvKv <$> option_list (write_call commit_ts e))
                    ++ [EvLoad (key e) v;
                        EvCas (key e) v (committed_timestamps commit_ts) true]
                    ++ after).
Proof.
  intros Hready Hbypass.
  destruct (commit_quiet m db fuel st Hready)
    as (st1 & rs & ws & cts & st2 & b & new & st3 & Erun & Hlocked & Eval & Hv
        & Ecommit & Hpost).
  exists st1, rs, ws, cts, st2, b, st3.
  split; [done|]. split; [done|].
  split; [rewrite Ecommit; by destruct b|].
  intros ->. destruct Hpost as [Ht3 Hsl3]. split; [done|].
  intros w e He Hw.
  assert (Hin : w ∈ ws) by (apply (locked_writes _ _ _ _ _ Hlocked); by exists e).
  split; [done|]. split.
  - rewrite Hsl3. rewrite decide_True; [done|]. by eapply write_key_locked.
  - destruct (validated_write_entry _ _ _ _ _ _ _ _ _ _ Hlocked Hv He Hw)
      as (e2 & He2 & Hk & Hm & _).
    apply list_elem_of_split in Hin as (l1 & l2 & ->).
    assert (Hcall : write_call cts e2 = write_call cts e).
    { unfold write_call. by rewrite Hm, Hk. }
    unfold write_set_events.
    set (f := fun w : nat => match rw_entries st2 !! w with
                             | Some e => write_events m cts e (slot_value (tscache st2) (key e))
                             | None => []
                             end).
    exists (flat_map f l1), (flat_map f l2), (slot_value (tscache st2) (key e2)).
    rewrite flat_map_app. cbn [flat_map]. unfold f at 2. rewrite He2.
    unfold write_events. rewrite Hbypass, Hcall, Hk, <- app_assoc. reflexivity.
Qed.

Lemma C4_write_phase_issues_calls_then_installs_witness :
  exists st3 before after v,
    transactional_splinterdb_commit default_build sample_db 1 buffered_state
    = (st3, Ret 0)
    /\ slot_value (tscache st3) [3; 0] = {| lock_bit := false; delta := 0; wts := 7 |}
    /\ trace st3
       = before
         ++ [EvKv (KvInsert [3; 0]
                     (tuple_header_bytes
                        {| is_ts_update := false; tuple_delta := 0; tuple_wts := 7 |}
                      ++ [7; 7]));
             EvLoad [3; 0] v;
             EvCas [3; 0] v {| lock_bit := false; delta := 0; wts := 7 |} true]
         ++ after.
Proof.
  destruct (C4_write_phase_issues_calls_then_installs default_build sample_db 0
              buffered_state buffered_state_ready eq_refl)
    as (st1 & rs & ws & cts & st2 & b & st3 & Hrun & _ & Hcommit & Hwrite).
  pose proof (f_equal snd Hrun) as H1. cbn [snd] in H1.
  pose proof (f_equal snd Hcommit) as H3. cbn [snd] in H3.
  assert (Hsets : (rs, ws, cts) = ([], [0%nat], 7)).
  { assert (Hret : Ret (rs, ws, cts) = Ret ([], [0%nat], 7));
      [rewrite <- H1; vm_compute; reflexivity|congruence]. }
  injection Hsets as -> -> ->.
  assert (Hb : b = false).
  { assert (Hret : Ret (if b then -1 else 0) = Ret 0);
      [rewrite <- H3; vm_compute; reflexivity|]. destruct b; [discriminate|done]. }
  subst b. destruct (Hwrite eq_refl) as [Ht3 Hall].
  destruct (Hall 0%nat (write_entry_of [3; 0] MESSAGE_TYPE_INSERT [7; 7]) eq_refl eq_refl)
    as (_ & Hslot & before & after & v & Hev).
  exists st3, (trace st2 ++ before), after, v.
  split; [done|]. split; [done|].
  rewrite Ht3, Hev, <- app_assoc. reflexivity.
Defined.

(** A deletion reaches the store as [splinterdb_delete(kvsb, key)]: the call
    carries the key and nothing else, no header and no value. *)
Lemma C4_delete_is_issued_without_header :
  exists st3,
    transactional_splinterdb_commit default_build sample_db 1 deleting_state
    = (st3, Ret 0)
    /\ kv_calls (trace st3) = [KvDelete [3; 0]].
Proof.
  destruct (transactional_splinterdb_commit default_build sample_db 1 deleting_state)
    as [st3 o3] eqn:E3.
  exists st3.
  pose proof (f_equal snd E3) as H3. cbn [snd] in H3.
  pose proof (f_equal (fun x => kv_calls (trace x.1)) E3) as H5. cbn [fst] in H5.
  split; [f_equal; rewrite <- H3; vm_compute; reflexivity|].
  rewrite <- H5. vm_compute. reflexivity.
Qed.


(* ===================================================================== *)
(** * Part III: further properties of the code                            *)
(* ===================================================================== *)

(** ** [transaction_deinit], [abort] and the end of [commit] *)

Lemma wp_bind_any {A B} (m : M A) (k : A -> M B) st (Q : state -> outcome B -> Prop) :
  (forall a st1, wp (k a) st1 Q) -> (forall f st1, Q st1 (Fail f)) ->
  wp (bind m k) st Q.
Proof.
  intros Hk Hf. apply wp_bind. unfold wp. destruct (m st) as [st1 [a|f]]; cbn.
  - apply Hk.
  - apply Hf.
Qed.

Lemma wp_iceberg_get_and_remove k st
    (Q : state -> outcome (option timestamp_set) -> Prop) :
  (forall st' x, trace st' = trace st -> rw_entries st' = rw_entries st -> Q st' (Ret x)) ->
  wp (iceberg_get_and_remove k) st Q.
Proof.
  intros H. unfold wp, iceberg_get_and_remove.
  destruct (refcount (tscache (interfere st)) !! k) as [[|[|n]]|]; cbn; apply H;
    simpl_state; by rewrite ?interfere_trace, ?interfere_entries.
Qed.

(** Dropping the reference of one entry without writing its timestamps back,
    whatever the other threads do. *)
Lemma iceberg_remove_silent m db r st e :
  rw_entries st !! r = Some e ->
  wp (rw_entry_iceberg_remove m db r false) st (fun st' o =>
    o = Ret tt /\ trace st' = trace st
    /\ length (rw_entries st') = length (rw_entries st)
    /\ (forall i, i <> r -> rw_entries st' !! i = rw_entries st !! i)
    /\ exists e', rw_entries st' !! r = Some e'
                  /\ key e' = key e /\ msg e' = msg e
                  /\ entry_wts e' = entry_wts e /\ entry_rts e' = entry_rts e
                  /\ is_read e' = is_read e /\ tuple_ts e' = None).
Proof.
  intros He. unfold rw_entry_iceberg_remove.
  apply wp_bind, wp_get_entry; [intros e' He'|congruence].
  assert (e' = e) as -> by congruence.
  destruct (tuple_ts e) eqn:Ets.
  2:{ apply wp_ret. repeat split; try done. by exists e. }
  apply wp_bind, wp_update_entry.
  set (st1 := with_rw_entries _ st).
  assert (He1 : rw_entries st1 !! r = Some (set_tuple_ts None e)).
  { unfold st1. simpl_state. by rewrite list_lookup_alter_eq, He. }
  assert (Hne1 : forall i, i <> r -> rw_entries st1 !! i = rw_entries st !! i).
  { intros i Hi. unfold st1. simpl_state. by rewrite list_lookup_alter_ne. }
  assert (Hlen1 : length (rw_entries st1) = length (rw_entries st)).
  { unfold st1. simpl_state. apply length_alter. }
  destruct (EXPERIMENTAL_MODE_KEEP_ALL_KEYS m).
  { apply wp_ret. repeat split; try done. eexists. split; [exact He1|]. done. }
  apply wp_bind, wp_iceberg_get_and_remove.
  intros st2 [value_ht|] Ht2 Hes2.
  2:{ apply wp_ret. rewrite Hes2. repeat split; try done.
      eexists. split; [exact He1|]. done. }
  apply wp_bind, wp_ret, wp_update_entry. simpl_state. rewrite Hes2.
  repeat split; try done.
  - by rewrite length_alter.
  - intros i Hi. rewrite list_lookup_alter_ne by done. by apply Hne1.
  - rewrite list_lookup_alter_eq, He1. eexists. split; [done|]. done.
Qed.

Lemma deinit_loop_silent m db k :
  forall a st,
  (a + k <= length (rw_entries st))%nat ->
  wp (for_each (seq a k) (fun i => rw_entry_iceberg_remove m db i false)) st
    (fun st' o =>
       o = Ret tt /\ trace st' = trace st
       /\ length (rw_entries st') = length (rw_entries st)
       /\ (forall i e, rw_entries st !! i = Some e ->
             exists e', rw_entries st' !! i = Some e'
                        /\ key e' = key e /\ msg e' = msg e
                        /\ entry_wts e' = entry_wts e /\ entry_rts e' = entry_rts e
                        /\ is_read e' = is_read e
                        /\ ((a <= i < a + k)%nat -> tuple_ts e' = None)
                        /\ (~ (a <= i < a + k)%nat -> e' = e))).
Proof.
  induction k as [|k IH]; intros a st Hlen; cbn [seq for_each].
  { apply wp_ret. repeat split; try done. intros i e He. exists e.
    repeat split; try done. lia. }
  destruct (lookup_lt_is_Some_2 (rw_entries st) a ltac:(lia)) as [ea Hea].
  apply wp_bind.
  eapply wp_conseq; [by eapply iceberg_remove_silent|].
  cbn beta. intros st1 o (-> & Ht1 & Hlen1 & Hne1 & (ea' & Hea' & Hk1 & Hm1 & Hw1 & Hr1 & Hi1 & Hts1)).
  eapply wp_conseq; [apply IH; lia|].
  cbn beta. intros st' o (-> & Ht' & Hlen' & Hes').
  split; [done|]. split; [congruence|]. split; [congruence|].
  intros i e He. destruct (decide (i = a)) as [->|Hia].
  - assert (e = ea) as -> by congruence.
    destruct (Hes' a ea' Hea') as (e' & He' & ? & ? & ? & ? & ? & _ & Hsame).
    exists e'. split; [done|].
    split; [congruence|]. split; [congruence|]. split; [congruence|].
    split; [congruence|]. split; [congruence|].
    split; [|intros Hn; lia].
    intros _. rewrite (Hsame ltac:(lia)). done.
  - rewrite <- Hne1 in He by done.
    destruct (Hes' i e He) as (e' & He' & ? & ? & ? & ? & ? & Hin & Hout).
    exists e'. repeat split; try done.
    + intros Hr. apply Hin. lia.
    + intros Hr. apply Hout. lia.
Qed.

Lemma transaction_deinit_silent m db st :
  wp (transaction_deinit m db) st (fun st' o =>
    o = Ret tt /\ trace st' = trace st
    /\ length (rw_entries st') = length (rw_entries st)
    /\ forall i e, rw_entries st !! i = Some e ->
         exists e', rw_entries st' !! i = Some e'
                    /\ key e' = key e /\ msg e' = msg e
                    /\ entry_wts e' = entry_wts e /\ entry_rts e' = entry_rts e
                    /\ is_read e' = is_read e /\ tuple_ts e' = None).
Proof.
  unfold transaction_deinit.
  eapply wp_run_eq; [reflexivity|].
  eapply wp_conseq; [apply (deinit_loop_silent m db (length (rw_entries st)) 0%nat); lia|].
  cbn beta. intros st' o (-> & Ht & Hlen & Hes). repeat split; try done.
  intros i e He. destruct (Hes i e He) as (e' & He' & ? & ? & ? & ? & ? & Hin & _).
  exists e'. repeat split; try done. apply Hin.
  apply lookup_lt_Some in He. lia.
Qed.



Lemma entries_released (st' : state) (n : nat) :
  length (rw_entries st') = n ->
  (forall i, (i < n)%nat -> exists e', rw_entries st' !! i = Some e' /\ tuple_ts e' = None) ->
  forall i e, rw_entries st' !! i = Some e -> tuple_ts e = None.
Proof.
  intros Hlen H i e He. destruct (H i) as (e' & He' & Hts).
  - apply lookup_lt_Some in He. lia.
  - congruence.
Qed.

(** X2. Whenever [transactional_splinterdb_commit] returns, on the path that
    writes as on the path that aborts and whatever the other threads do, the
    code it returns is 0 or -1 and every entry of the transaction ends with
    [tuple_ts = NULL]: [transaction_deinit] has dropped the reference that
    each of them held on the timestamp cache. *)
Theorem commit_returns_0_or_minus_1_and_releases (m : build_macros)
    (db : transactional_splinterdb) (fuel : nat) (st st' : state) (z : Z) :
  transactional_splinterdb_commit m db fuel st = (st', Ret z) ->
  (z = 0 \/ z = -1)
  /\ forall i e, rw_entries st' !! i = Some e -> tuple_ts e = None.
Proof.
  intros Hrun.
  assert (H : wp (transactional_splinterdb_commit m db fuel) st (fun st' o =>
            forall z, o = Ret z ->
              (z = 0 \/ z = -1)
              /\ forall i e, rw_entries st' !! i = Some e -> tuple_ts e = None)).
  { unfold transactional_splinterdb_commit.
    apply wp_bind_any; [|intros f st1 z' [=]].
    intros [[rs ws] cts] st1. unfold commit_validate_and_write.
    apply wp_bind_any; [|intros f st2 z' [=]]. intros b st2.
    apply wp_bind_any; [|intros f st3 z' [=]]. intros _ st3.
    apply wp_bind.
    eapply wp_conseq; [apply transaction_deinit_silent|].
    cbn beta. intros st4 o (-> & _ & Hlen & Hes). apply wp_ret.
    intros z' [= <-]. split; [destruct b; cbn; lia|].
    apply (entries_released st4 (length (rw_entries st3)) Hlen).
    intros i Hi. destruct (lookup_lt_is_Some_2 (rw_entries st3) i Hi) as [e He].
    destruct (Hes i e He) as (e' & He' & _ & _ & _ & _ & _ & Hts). by exists e'. }
  unfold wp in H. rewrite Hrun in H. by apply H.
Qed.

Lemma commit_returns_0_or_minus_1_and_releases_witness :
  exists st',
    transactional_splinterdb_commit default_build sample_db 1 stale_state
    = (st', Ret (-1))
    /\ forall i e, rw_entries st' !! i = Some e -> tuple_ts e = None.
Proof.
  destruct (transactional_splinterdb_commit default_build sample_db 1 stale_state)
    as [st' o] eqn:Hrun.
  assert (Ho : o = Ret (-1)).
  { pose proof (f_equal snd Hrun) as H. cbn [snd] in H. rewrite <- H.
    vm_compute. reflexivity. }
  subst o. exists st'. split; [done|].
  apply (commit_returns_0_or_minus_1_and_releases default_build sample_db 1
           stale_state st' (-1) Hrun).
Defined.

Lemma scan_no_reads m es :
  (forall e, e ∈ es -> rw_entry_is_read e = false) ->
  (scan_rw_entries m 0 es 0).1.1 = [].
Proof.
  intros Hno. pose proof (scan_rw_entries_spec m 0 es 0) as Hscan.
  destruct (scan_rw_entries m 0 es 0) as [[rs ws] c]. cbn [fst].
  destruct Hscan as (Hrs & _).
  destruct rs as [|r rs]; [done|].
  destruct (Hrs r) as [Hin _].
  destruct (Hin ltac:(by apply elem_of_cons; left)) as (_ & e & He & Hread).
  rewrite Hno in Hread; [done|]. by eapply list_elem_of_lookup_2.
Qed.

(** X3. A transaction none of whose entries was read never aborts: whatever
    the other threads do, when [transactional_splinterdb_commit] returns for
    it, it returns 0. (The validation loop runs over an empty read set, so
    [is_abort] stays [FALSE].) *)
Theorem write_only_commit_never_aborts (m : build_macros)
    (db : transactional_splinterdb) (fuel : nat) (st st' : state) (z : Z) :
  (forall e, e ∈ rw_entries st -> rw_entry_is_read e = false) ->
  transactional_splinterdb_commit m db fuel st = (st', Ret z) ->
  z = 0.
Proof.
  intros Hno Hrun.
  assert (H : wp (transactional_splinterdb_commit m db fuel) st (fun st' o =>
            forall z, o = Ret z -> z = 0)).
  { unfold transactional_splinterdb_commit. apply wp_bind.
    eapply wp_conseq; [apply commit_timestamp_spec|].
    cbn beta zeta. intros st1 [[[rs ws] cts]|f] (new & _ & _ & _ & Hret); [|intros z' [=]].
    destruct (Hret rs ws cts eq_refl) as (Hrs & _).
    rewrite (scan_no_reads m _ Hno) in Hrs. subst rs.
    unfold commit_validate_and_write. cbn [validate_read_set].
    apply wp_bind, wp_ret. cbn [negb].
    apply wp_bind_any; [|intros f st3 z' [=]]. intros _ st3.
    apply wp_bind_any; [|intros f st4 z' [=]]. intros _ st4.
    apply wp_ret. intros z' [= <-]. done. }
  unfold wp in H. rewrite Hrun in H. by apply H.
Qed.

Lemma write_only_commit_never_aborts_witness :
  exists st',
    transactional_splinterdb_commit default_build sample_db 1 buffered_state
    = (st', Ret 0).
Proof.
  destruct (transactional_splinterdb_commit default_build sample_db 1 buffered_state)
    as [st' o] eqn:Hrun.
  assert (Ho : exists z, o = Ret z).
  { pose proof (f_equal snd Hrun) as H. cbn [snd] in H. rewrite <- H.
    eexists. vm_compute. reflexivity. }
  destruct Ho as [z ->]. exists st'.
  rewrite (write_only_commit_never_aborts default_build sample_db 1 buffered_state
             st' z); [done| |exact Hrun].
  intros e [->|[]%elem_of_nil]%elem_of_cons. reflexivity.
Defined.

(** X4. A transaction without entries commits at once: with fuel for one
    pass of the locking loop the commit returns 0 and leaves the state as it
    was, cache, trace and interference schedule included (no atomic access is
    made, so no step of another thread is observed). *)
Theorem empty_transaction_commits (m : build_macros) (db : transactional_splinterdb)
    (fuel : nat) (st : state) :
  rw_entries st = [] ->
  transactional_splinterdb_commit m db (S fuel) st = (st, Ret 0).
Proof.
  intros Hes.
  unfold transactional_splinterdb_commit, commit_timestamp, bind.
  rewrite Hes. cbn.
  unfold commit_validate_and_write, transaction_deinit, bind. cbn.
  rewrite Hes. cbn. reflexivity.
Qed.

Lemma empty_transaction_commits_witness :
  transactional_splinterdb_commit default_build sample_db 1 fresh_state
  = (fresh_state, Ret 0).
Proof. apply (empty_transaction_commits default_build sample_db 0 fresh_state eq_refl). Defined.






(** ** [rw_entry_get] and the entries of a transaction *)

Lemma find_rw_entry_Some cfg k es :
  forall i0 i, find_rw_entry cfg k i0 es = Some i ->
  (i0 <= i)%nat
  /\ exists e, es !! (i - i0)%nat = Some e /\ data_key_compare cfg k (key e) = 0.
Proof.
  induction es as [|e es IH]; intros i0 i; cbn [find_rw_entry]; [done|].
  destruct (data_key_compare cfg k (key e) =? 0) eqn:E.
  - intros [= <-]. split; [lia|]. exists e. rewrite Nat.sub_diag. split; [done|].
    by apply Z.eqb_eq.
  - intros H. destruct (IH _ _ H) as (Hle & e' & He' & Hc). split; [lia|].
    exists e'. split; [|done].
    replace (i - i0)%nat with (S (i - S i0)) by lia. done.
Qed.

Lemma find_rw_entry_None cfg k es :
  forall i0, find_rw_entry cfg k i0 es = None ->
  forall j e, es !! j = Some e -> data_key_compare cfg k (key e) <> 0.
Proof.
  induction es as [|e es IH]; intros i0; cbn [find_rw_entry]; [done|].
  destruct (data_key_compare cfg k (key e) =? 0) eqn:E; [done|].
  intros H [|j] e'; cbn.
  - intros [= <-]. by apply Z.eqb_neq.
  - by eapply IH.
Qed.

(** [rw_entry_get] followed by [rw_entry_iceberg_insert], as
    [transactional_splinterdb_lookup] starts, whatever the other threads do:
    the entry of the key is found or appended, marked as read on demand, and
    made to point to a slot of the cache. *)
Lemma wp_get_and_pin {B} m cfg k is_read_arg (cont : nat -> M B) st
    (Q : state -> outcome B -> Prop) :
  let es := rw_entries st in
  let i := entry_position cfg k es in
  let es1 := match find_rw_entry cfg k 0 es with
             | Some _ => es
             | None => es ++ [rw_entry_set_key m rw_entry_create k]
             end in
  (forall st' e1 e2,
     trace st' = trace st ->
     length (rw_entries st') = length es1 ->
     (forall j, j <> i -> rw_entries st' !! j = es1 !! j) ->
     es1 !! i = Some e1 ->
     rw_entries st' !! i = Some e2 ->
     key e2 = key e1 -> msg e2 = msg e1 ->
     entry_wts e2 = entry_wts e1 -> entry_rts e2 = entry_rts e1 ->
     is_read e2 = is_read e1 || is_read_arg ->
     tuple_ts e2 = Some (default (key e1) (tuple_ts e1)) ->
     wp (cont i) st' Q) ->
  wp (bind (rw_entry_get m cfg k is_read_arg)
        (fun i => bind (rw_entry_iceberg_insert m i) (fun _ => cont i))) st Q.
Proof.
  cbv zeta. intros HQ. apply wp_bind.
  unfold entry_position in HQ.
  set (mark := fun e => set_is_read (is_read e || is_read_arg) e).
  assert (Hget : forall es1 i,
    (match find_rw_entry cfg k 0 (rw_entries st) with
     | Some i => (i, st)
     | None => (length (rw_entries st),
                with_rw_entries
                  (fun es => es ++ [rw_entry_set_key m rw_entry_create k]) st)
     end) = (i, es1) ->
    wp (rw_entry_get m cfg k is_read_arg) st (fun st1 o =>
      o = Ret i /\ st1 = with_rw_entries (alter mark i) es1)).
  { intros es1 i H. unfold wp, rw_entry_get. rewrite H. done. }
  destruct (find_rw_entry cfg k 0 (rw_entries st)) as [i|] eqn:Efind; cbn [default] in HQ;
    (eapply wp_conseq; [by apply Hget|]); cbn beta; intros st1 o [-> ->].
  - destruct (find_rw_entry_Some _ _ _ _ _ Efind) as (_ & e & He & _).
    rewrite Nat.sub_0_r in He.
    unfold rw_entry_iceberg_insert. apply wp_bind, wp_bind, wp_get_entry.
    2:{ simpl_state. by rewrite list_lookup_alter_eq, He. }
    intros e1 He1. simpl_state. rewrite list_lookup_alter_eq, He in He1.
    injection He1 as <-.
    destruct (tuple_ts (mark e)) as [p|] eqn:Ets.
    + apply wp_ret. eapply (HQ _ e (mark e)); simpl_state;
        rewrite ?length_alter, ?list_lookup_alter_eq, ?He; try done.
      * intros j Hj. by rewrite list_lookup_alter_ne.
      * cbn in Ets. cbn. by rewrite Ets.
    + apply wp_bind, wp_iceberg_insert. intros st2 b Ht2 Hes2.
      apply wp_bind, wp_update_entry, wp_ret.
      eapply (HQ _ e (set_need_to_keep_key (need_to_keep_key (mark e) || b)
                        (set_tuple_ts (Some (key (mark e))) (mark e))));
        simpl_state; rewrite ?Hes2; simpl_state;
        rewrite ?length_alter, ?list_lookup_alter_eq, ?He; try done.
      * intros j Hj. by rewrite !list_lookup_alter_ne.
      * cbn in Ets. cbn. by rewrite Ets.
  - set (new := rw_entry_set_key m rw_entry_create k) in *.
    assert (He : (rw_entries st ++ [new]) !! length (rw_entries st) = Some new).
    { rewrite lookup_app_r by lia. by rewrite Nat.sub_diag. }
    unfold rw_entry_iceberg_insert. apply wp_bind, wp_bind, wp_get_entry.
    2:{ simpl_state. by rewrite list_lookup_alter_eq, He. }
    intros e1 He1. simpl_state. rewrite list_lookup_alter_eq, He in He1.
    injection He1 as <-. cbn [mark new tuple_ts set_is_read rw_entry_set_key rw_entry_create].
    apply wp_bind, wp_iceberg_insert. intros st2 b Ht2 Hes2.
    apply wp_bind, wp_update_entry, wp_ret.
    eapply (HQ _ new (set_need_to_keep_key (need_to_keep_key (mark new) || b)
                        (set_tuple_ts (Some (key (mark new))) (mark new))));
      simpl_state; rewrite ?Hes2; simpl_state;
      rewrite ?length_alter, ?list_lookup_alter_eq, ?He; try done.
    intros j Hj. by rewrite !list_lookup_alter_ne.
Qed.


(** [transactional_splinterdb_lookup] in the build that does not bypass the
    store, whatever the other threads do. *)
Lemma lookup_spec m db fuel k result v2 st :
  EXPERIMENTAL_MODE_BYPASS_SPLINTERDB m = false ->
  let cfg := tcfg_data_cfg db in
  let es := rw_entries st in
  let i := entry_position cfg k es in
  let es1 := match find_rw_entry cfg k 0 es with
             | Some _ => es
             | None => es ++ [rw_entry_set_key m rw_entry_create k]
             end in
  wp (transactional_splinterdb_lookup m db fuel k result v2) st (fun st' o =>
    length (rw_entries st') = length es1
    /\ (forall j, j <> i -> rw_entries st' !! j = es1 !! j)
    /\ exists e1 e2,
         es1 !! i = Some e1 /\ rw_entries st' !! i = Some e2
         /\ key e2 = key e1 /\ msg e2 = msg e1 /\ is_read e2 = true
         /\ tuple_ts e2 = Some (default (key e1) (tuple_ts e1))
         /\ match msg e1 with
            | Some wmsg =>
                o = Ret (0, Some (message_data wmsg)) /\ trace st' = trace st
                /\ entry_wts e2 = entry_wts e1 /\ entry_rts e2 = entry_rts e1
            | None =>
                o = Ret (0, result)
                /\ exists v, trace st' = trace st
                                         ++ [EvLoad (default (key e1) (tuple_ts e1)) v]
                             /\ entry_wts e2 = wts v
                             /\ entry_rts e2 = timestamp_set_get_rts v
            end).
Proof.
  intros Hmode cfg es i es1.
  match goal with |- wp _ _ ?Q => set (Post := Q) end.
  unfold transactional_splinterdb_lookup. rewrite Hmode. cbn [negb].
  apply wp_get_and_pin. cbv zeta. fold cfg es i es1.
  intros st' e1 e2 Ht Hlen Hne He1 He2 Hk Hm Hw Hr Hread Hts.
  rewrite orb_true_r in Hread.
  apply wp_bind, wp_get_entry; [intros e He|congruence].
  assert (e = e2) as -> by congruence.
  destruct (msg e2) as [wmsg|] eqn:Emsg.
  - apply wp_ret. unfold Post. split; [done|]. split; [done|].
    exists e1, e2. rewrite <- Hm. repeat split; try done.
  - apply wp_bind, wp_deref; [intros p Hp|congruence].
    assert (p = default (key e1) (tuple_ts e1)) as -> by congruence.
    apply wp_bind, wp_load. intros v.
    unfold record_timestamps. apply wp_bind, wp_update_entry, wp_ret.
    unfold Post. simpl_state. rewrite ?interfere_entries, ?interfere_trace.
    split; [by rewrite length_alter|].
    split; [intros j Hj; rewrite list_lookup_alter_ne by done; by apply Hne|].
    exists e1, (set_entry_rts (timestamp_set_get_rts v) (set_entry_wts (wts v) e2)).
    rewrite list_lookup_alter_eq, He2. rewrite <- Hm.
    split; [done|]. split; [done|]. cbn.
    split; [done|]. split; [done|]. split; [done|]. split; [done|].
    split; [done|]. exists v. rewrite Ht. done.
Qed.

Lemma found_or_new (m : build_macros) cfg k es e1 :
  match find_rw_entry cfg k 0 es with
  | Some _ => es
  | None => es ++ [rw_entry_set_key m rw_entry_create k]
  end !! entry_position cfg k es = Some e1 ->
  (find_rw_entry cfg k 0 es = Some (entry_position cfg k es)
   /\ es !! entry_position cfg k es = Some e1
   /\ data_key_compare cfg k (key e1) = 0)
  \/ (find_rw_entry cfg k 0 es = None
      /\ entry_position cfg k es = length es
      /\ e1 = rw_entry_set_key m rw_entry_create k).
Proof.
  unfold entry_position.
  destruct (find_rw_entry cfg k 0 es) as [i|] eqn:Ef; simpl; intros He1.
  - left. destruct (find_rw_entry_Some _ _ _ _ _ Ef) as (_ & e & He & Hc).
    rewrite Nat.sub_0_r in He. split; [done|]. split; [done|]. congruence.
  - right. rewrite lookup_app_r in He1 by lia. rewrite Nat.sub_diag in He1.
    injection He1 as <-. done.
Qed.

Lemma numeric_keys_equivalence : key_equivalence numeric_keys.
Proof. split; unfold data_key_compare; cbn; intros; lia. Qed.

Lemma txn_invariant_step (m : build_macros) cfg k es es' e1 e2 :
  key_equivalence cfg ->
  data_key_compare cfg k (padded_key m k) = 0 ->
  txn_invariant cfg es ->
  let i := entry_position cfg k es in
  let es1 := match find_rw_entry cfg k 0 es with
             | Some _ => es
             | None => es ++ [rw_entry_set_key m rw_entry_create k]
             end in
  length es' = length es1 ->
  (forall j, j <> i -> es' !! j = es1 !! j) ->
  es1 !! i = Some e1 -> es' !! i = Some e2 ->
  key e2 = key e1 ->
  tuple_ts e2 = Some (default (key e1) (tuple_ts e1)) ->
  txn_invariant cfg es'.
Proof.
  intros Heq Hpad [Hdist Hslots] i es1 Hlen Hne He1 He2 Hk Hts.
  assert (Hdist1 : forall a b ea eb, es1 !! a = Some ea -> es1 !! b = Some eb ->
                     data_key_compare cfg (key ea) (key eb) = 0 -> a = b).
  { destruct (found_or_new _ _ _ _ _ He1) as [(Ef & _ & _)|(Ef & Hi & ->)].
    - subst es1. rewrite Ef. apply Hdist.
    - subst es1. rewrite Ef.
      assert (Hno : forall a ea, es !! a = Some ea ->
                       data_key_compare cfg (key ea) (padded_key m k) <> 0
                       /\ data_key_compare cfg (padded_key m k) (key ea) <> 0).
      { intros a ea Ha.
        pose proof (find_rw_entry_None _ _ _ _ Ef a ea Ha) as Hn.
        split; intros Hc; apply Hn.
        - eapply (key_trans _ Heq); [exact Hpad|]. by apply (key_sym _ Heq).
        - eapply (key_trans _ Heq); [exact Hpad|done]. }
      intros a b ea eb Ha Hb Hc.
      destruct (decide (a < length es)%nat) as [Hla|Hla];
        destruct (decide (b < length es)%nat) as [Hlb|Hlb].
      + rewrite lookup_app_l in Ha, Hb by done. by eapply Hdist.
      + rewrite lookup_app_l in Ha by done. rewrite lookup_app_r in Hb by lia.
        apply list_lookup_singleton_Some in Hb as [_ <-].
        destruct (Hno a ea Ha) as [Hn _]. done.
      + rewrite lookup_app_l in Hb by done. rewrite lookup_app_r in Ha by lia.
        apply list_lookup_singleton_Some in Ha as [_ <-].
        destruct (Hno b eb Hb) as [_ Hn]. done.
      + apply lookup_lt_Some in Ha, Hb. rewrite length_app in Ha, Hb. cbn in Ha, Hb.
        lia. }
  assert (Hback : forall a ea, es' !! a = Some ea ->
                    exists ea1, es1 !! a = Some ea1 /\ key ea1 = key ea).
  { intros a ea Ha. destruct (decide (a = i)) as [->|Hai].
    - exists e1. split; [done|]. congruence.
    - exists ea. by rewrite <- Hne. }
  split.
  - intros a b ea eb Ha Hb Hc.
    destruct (Hback a ea Ha) as (ea1 & Ha1 & Hka).
    destruct (Hback b eb Hb) as (eb1 & Hb1 & Hkb).
    eapply Hdist1; [exact Ha1|exact Hb1|]. by rewrite Hka, Hkb.
  - intros a ea Ha. destruct (decide (a = i)) as [->|Hai].
    + assert (ea = e2) as -> by congruence. rewrite Hts, Hk. f_equal.
      destruct (found_or_new _ _ _ _ _ He1) as [(_ & He & _)|(_ & _ & ->)].
      * by rewrite (Hslots _ _ He).
      * done.
    + rewrite Hne in Ha by done.
      destruct (found_or_new _ _ _ _ _ He1) as [(Ef & _ & _)|(Ef & Hi & _)].
      * subst es1. rewrite Ef in Ha. by eapply Hslots.
      * subst es1. rewrite Ef in Ha.
        assert (a < length es)%nat.
        { apply lookup_lt_Some in Ha. rewrite length_app in Ha. cbn in Ha.
          fold i in Hi. lia. }
        rewrite lookup_app_l in Ha by done. by eapply Hslots.
Qed.

Lemma txn_invariant_NoDup cfg es :
  (forall a, data_key_compare cfg a a = 0) ->
  txn_invariant cfg es -> NoDup (key <$> es).
Proof.
  intros Hrefl [Hdist _]. apply NoDup_alt. intros i j x Hi Hj.
  rewrite list_lookup_fmap in Hi, Hj.
  destruct (es !! i) as [ei|] eqn:Ei; [|done].
  destruct (es !! j) as [ej|] eqn:Ej; [|done].
  cbn in Hi, Hj. eapply Hdist; [exact Ei|exact Ej|].
  assert (key ei = key ej) as -> by congruence. apply Hrefl.
Qed.

Lemma padded_key_short (m : build_macros) (k : slice) :
  (length k <= KEY_SIZE m)%nat ->
  padded_key m k = k ++ replicate (KEY_SIZE m - length k) 0.
Proof.
  intros Hk. unfold padded_key. cbn [rw_entry_set_key key].
  apply take_ge. rewrite length_app, length_replicate. lia.
Qed.

(** X8. A lookup keeps the entries of a transaction well formed, whatever the
    other threads do. For a comparator under which "compares equal" is an
    equivalence and a user key of at most [KEY_SIZE] bytes that compares
    equal to its zero-padded copy (the key that a new entry gets): if no two
    entries have keys that compare equal and every entry points to the cache
    slot of its key, the same holds after
    [transactional_splinterdb_lookup] (in the build that does not bypass the
    store); it holds of the empty transaction that
    [transactional_splinterdb_begin] leaves; and it gives what [commit_ready]
    asks of the entries: pairwise different keys, each entry pointing to the
    slot of its key. *)
Theorem operations_keep_entries_well_formed (m : build_macros)
    (db : transactional_splinterdb) (fuel : nat) (user_key : slice)
    (result : option (list Z)) (v2 : timestamp_set) (st : state) :
  let cfg := tcfg_data_cfg db in
  key_equivalence cfg ->
  (length user_key <= KEY_SIZE m)%nat ->
  data_key_compare cfg user_key
    (user_key ++ replicate (KEY_SIZE m - length user_key) 0) = 0 ->
  txn_invariant cfg (rw_entries st) ->
  (EXPERIMENTAL_MODE_BYPASS_SPLINTERDB m = false ->
   txn_invariant cfg
     (rw_entries (transactional_splinterdb_lookup m db fuel user_key result v2 st).1))
  /\ txn_invariant cfg (rw_entries (transactional_splinterdb_begin st).1)
  /\ NoDup (key <$> rw_entries st)
  /\ (forall i e, rw_entries st !! i = Some e -> tuple_ts e = Some (key e)).
Proof.
  intros cfg Heq Hlen Hpad Hinv. rewrite <- (padded_key_short m) in Hpad by done.
  split; [|split; [|split]].
  - intros Hmode.
    pose proof (lookup_spec m db fuel user_key result v2 st Hmode) as Hl.
    cbv zeta in Hl. unfold wp in Hl.
    destruct Hl as (Hlen' & Hne & e1 & e2 & He1 & He2 & Hk & _ & _ & Hts & _).
    by eapply (txn_invariant_step m cfg user_key (rw_entries st)).
  - split; cbn; intros i; intros; by rewrite lookup_nil in *.
  - apply (txn_invariant_NoDup cfg); [apply (key_refl _ Heq)|done].
  - apply (inv_slots _ _ Hinv).
Qed.

Lemma operations_keep_entries_well_formed_witness :
  txn_invariant numeric_keys
    (rw_entries (transactional_splinterdb_lookup default_build sample_db 0 [1]
                   None timestamp_set_zero fresh_state).1).
Proof.
  assert (Hinv : txn_invariant numeric_keys (rw_entries fresh_state)).
  { split; cbn; intros i; intros; by rewrite lookup_nil in *. }
  destruct (operations_keep_entries_well_formed default_build sample_db
              0 [1] None timestamp_set_zero fresh_state numeric_keys_equivalence
              ltac:(vm_compute; lia) ltac:(vm_compute; reflexivity) Hinv)
    as (Hl & _).
  exact (Hl eq_refl).
Defined.


(** ** Tuple headers: bytes and fields *)

Lemma le_bytes_length n w : length (le_bytes n w) = n.
Proof. revert w. induction n as [|n IH]; intros w; cbn; [done|]. by rewrite IH. Qed.

Lemma le_word_bytes n w : le_word (le_bytes n w) = w mod 256 ^ Z.of_nat n.
Proof.
  revert w. induction n as [|n IH]; intros w; cbn [le_bytes le_word].
  { cbn. by rewrite Z.mod_1_r. }
  rewrite IH, Z.mod_mod by lia.
  rewrite Nat2Z.inj_succ, Z.pow_succ_r by lia.
  rewrite Z.rem_mul_r by (try apply Z.pow_pos_nonneg; lia). done.
Qed.

Lemma tuple_header_word_bounds t : 0 <= tuple_header_word t < 256 ^ 16.
Proof.
  unfold tuple_header_word.
  pose proof (Z.mod_pos_bound (tuple_delta t) (2 ^ 64) ltac:(lia)).
  pose proof (Z.mod_pos_bound (tuple_wts t) (2 ^ 63) ltac:(lia)).
  assert (0 <= Z.b2z (is_ts_update t) <= 1) by (destruct (is_ts_update t); cbn; lia).
  change (256 ^ 16) with (2 ^ 65 * 2 ^ 63).
  change (2 ^ 65) with (2 * 2 ^ 64) in *. nia.
Qed.

(** Decoding the bytes of a header gives back its fields, each cut to the
    width of its bit-field, whatever follows the header. *)
Lemma tuple_header_round_trip t rest :
  tuple_header_of_bytes (tuple_header_bytes t ++ rest)
  = {| is_ts_update := is_ts_update t;
       tuple_delta := tuple_delta t mod 2 ^ 64;
       tuple_wts := tuple_wts t mod 2 ^ 63 |}.
Proof.
  unfold tuple_header_of_bytes, tuple_header_bytes.
  rewrite take_app_length' by (by rewrite le_bytes_length).
  rewrite le_word_bytes.
  change (Z.of_nat sizeof_tuple_header) with 16.
  rewrite Z.mod_small by apply tuple_header_word_bounds.
  unfold tuple_header_word.
  set (d := tuple_delta t mod 2 ^ 64). set (w := tuple_wts t mod 2 ^ 63).
  pose proof (Z.mod_pos_bound (tuple_delta t) (2 ^ 64) ltac:(lia)) as Hd.
  pose proof (Z.mod_pos_bound (tuple_wts t) (2 ^ 63) ltac:(lia)) as Hw.
  fold d in Hd. fold w in Hw.
  assert (Hb : 0 <= Z.b2z (is_ts_update t) <= 1) by (destruct (is_ts_update t); cbn; lia).
  f_equal.
  - replace (Z.b2z (is_ts_update t) + 2 * d + 2 ^ 65 * w)
      with (Z.b2z (is_ts_update t) + 2 * (d + 2 ^ 64 * w))
      by (change (2 ^ 65) with (2 * 2 ^ 64); lia).
    rewrite Z.odd_add_mul_2. by destruct (is_ts_update t).
  - replace (Z.b2z (is_ts_update t) + 2 * d + 2 ^ 65 * w)
      with (Z.b2z (is_ts_update t) + (d + w * 2 ^ 64) * 2)
      by (change (2 ^ 65) with (2 * 2 ^ 64); lia).
    rewrite Z.div_add by lia. rewrite (Z.div_small (Z.b2z _)) by lia.
    rewrite Z.add_0_l, Z.mod_add by lia. apply Z.mod_small. lia.
  - replace (Z.b2z (is_ts_update t) + 2 * d + 2 ^ 65 * w)
      with (Z.b2z (is_ts_update t) + 2 * d + w * 2 ^ 65) by lia.
    rewrite Z.div_add by lia.
    rewrite (Z.div_small (_ + _)) by (change (2 ^ 65) with (2 * 2 ^ 64); lia).
    rewrite Z.add_0_l. apply Z.mod_small. lia.
Qed.


(** ** [timestamp_get_from_splinterdb] *)

(** X9. The timestamps stored in the header of a tuple are read back by
    [timestamp_get_from_splinterdb]: when the store answers the lookup of a
    key (not the null slice) with return code 0 and a value that starts with
    the 16 bytes of a header, as the values written by the commit and by the
    write-back of evicted timestamps do, the function makes this one lookup
    and returns the [wts] and the [delta] of that header (cut to the 63 and 64
    bits of their fields) with the lock bit clear. *)
Theorem timestamp_get_reads_stored_header (db : splinterdb) (k : slice)
    (h : tuple_header) (payload : list Z) (st : state) :
  k <> [] ->
  return_code db (kv_calls (trace st)) (KvLookup k) = 0 ->
  lookup_answer db (kv_calls (trace st)) k = Some (tuple_header_bytes h ++ payload) ->
  timestamp_get_from_splinterdb db k st
  = (emit (EvKv (KvLookup k)) st,
     Ret {| lock_bit := false;
            delta := tuple_delta h mod 2 ^ 64;
            wts := tuple_wts h mod 2 ^ 63 |}).
Proof.
  intros Hk Hrc Hans.
  unfold timestamp_get_from_splinterdb, bind, splinterdb_lookup, platform_assert, ret.
  rewrite bool_decide_eq_false_2 by done. cbn [negb fst snd].
  rewrite Hrc, Hans. cbn [Z.eqb fst snd]. cbv zeta.
  rewrite tuple_header_round_trip.
  unfold set_delta, set_wts, timestamp_set_zero.
  cbn [lock_bit delta wts tuple_delta tuple_wts].
  by rewrite !Z.mod_mod by lia.
Qed.

Lemma timestamp_get_reads_stored_header_witness :
  timestamp_get_from_splinterdb one_tuple_store [1; 0] fresh_state
  = (emit (EvKv (KvLookup [1; 0])) fresh_state,
     Ret {| lock_bit := false; delta := 3 mod 2 ^ 64; wts := 9 mod 2 ^ 63 |}).
Proof.
  apply (timestamp_get_reads_stored_header one_tuple_store [1; 0]
           {| is_ts_update := false; tuple_delta := 3; tuple_wts := 9 |} [118]
           fresh_state); done.
Defined.

(** X10. The edges of [timestamp_get_from_splinterdb]: for the null slice the
    assertion fires before any call to the store; a lookup that returns an
    error fires the second assertion; and a key that the store does not hold
    gets the timestamps [{0}], all zero, after one lookup. *)
Theorem timestamp_get_edges (db : splinterdb) (k : slice) (st : state) :
  timestamp_get_from_splinterdb db [] st = (st, Fail AssertionFailed)
  /\ (k <> [] -> return_code db (kv_calls (trace st)) (KvLookup k) <> 0 ->
      timestamp_get_from_splinterdb db k st
      = (emit (EvKv (KvLookup k)) st, Fail AssertionFailed))
  /\ (k <> [] -> return_code db (kv_calls (trace st)) (KvLookup k) = 0 ->
      lookup_answer db (kv_calls (trace st)) k = None ->
      timestamp_get_from_splinterdb db k st
      = (emit (EvKv (KvLookup k)) st, Ret timestamp_set_zero)).
Proof.
  split; [done|]. split.
  - intros Hk Hrc. unfold timestamp_get_from_splinterdb, bind, splinterdb_lookup.
    rewrite bool_decide_eq_false_2 by done. cbn.
    apply Z.eqb_neq in Hrc. by rewrite Hrc.
  - intros Hk Hrc Hans. unfold timestamp_get_from_splinterdb, bind, splinterdb_lookup.
    rewrite bool_decide_eq_false_2 by done. cbn. by rewrite Hrc, Hans.
Qed.


(** ** The merge callbacks *)

Lemma tuple_header_bytes_length t : length (tuple_header_bytes t) = sizeof_tuple_header.
Proof. apply le_bytes_length. Qed.

Lemma drop_header t rest :
  drop sizeof_tuple_header (tuple_header_bytes t ++ rest) = rest.
Proof. apply drop_app_length'. by rewrite tuple_header_bytes_length. Qed.

Lemma take_header t rest :
  take sizeof_tuple_header (tuple_header_bytes t ++ rest) = tuple_header_bytes t.
Proof. apply take_app_length'. by rewrite tuple_header_bytes_length. Qed.

Lemma read_tuple_header_bytes t rest :
  read_tuple_header (tuple_header_bytes t ++ rest)
  = Ret {| is_ts_update := is_ts_update t;
           tuple_delta := tuple_delta t mod 2 ^ 64;
           tuple_wts := tuple_wts t mod 2 ^ 63 |}.
Proof.
  unfold read_tuple_header.
  rewrite length_app, tuple_header_bytes_length.
  destruct (_ <? _)%nat eqn:E; [apply Nat.ltb_lt in E; lia|].
  by rewrite tuple_header_round_trip.
Qed.

(** X11. The write-back of evicted timestamps is merged into the stored
    tuple: when [merge_fantasticc_tuple] meets a stored message with
    [is_ts_update = 0] and, above it, the timestamp-only update that
    [rw_entry_iceberg_remove] writes for the cached timestamps [ts], it
    returns 0 and leaves in the accumulator the stored message with its class
    and its value unchanged and with the [delta] and [wts] of [ts] in its
    header, [is_ts_update] clear; the header of the old message has been
    overwritten in the same way. *)
Theorem timestamps_update_merges_into_tuple
    (data_merge_tuples : slice -> message -> merge_accumulator -> merge_accumulator)
    (k : slice) (c : message_type) (h : tuple_header) (value : list Z)
    (ts : timestamp_set) :
  is_ts_update h = false ->
  let merged :=
    message_create c
      (tuple_header_bytes {| is_ts_update := false;
                             tuple_delta := delta ts mod 2 ^ 64;
                             tuple_wts := wts ts mod 2 ^ 63 |} ++ value) in
  merge_fantasticc_tuple data_merge_tuples k
    (message_create c (tuple_header_bytes h ++ value))
    (timestamps_update_message ts)
  = Ret (0, merged, merged)
  /\ tuple_header_of_bytes (message_data merged)
     = {| is_ts_update := false;
          tuple_delta := delta ts mod 2 ^ 64;
          tuple_wts := wts ts mod 2 ^ 63 |}
  /\ get_app_value_from_message merged = message_create c value.
Proof.
  intros Hflag merged. split; [|split].
  - unfold merge_fantasticc_tuple, is_message_timestamps_update, timestamps_update_message.
    cbn [message_data message_class message_create].
    rewrite read_tuple_header_bytes. cbn [is_ts_update]. rewrite Hflag.
    rewrite <- (app_nil_r (tuple_header_bytes (timestamp_set_as_header _))).
    rewrite read_tuple_header_bytes.
    cbn [is_ts_update tuple_delta tuple_wts timestamp_set_as_header set_lock_bit
         lock_bit delta wts].
    unfold write_tuple_header.
    by rewrite drop_header.
  - unfold merged. cbn [message_data message_create].
    rewrite tuple_header_round_trip. cbn [is_ts_update tuple_delta tuple_wts].
    by rewrite !Z.mod_mod by lia.
  - unfold merged, get_app_value_from_message. cbn [message_data message_class message_create].
    by rewrite drop_header.
Qed.

Lemma timestamps_update_merges_into_tuple_witness :
  merge_fantasticc_tuple (fun _ _ ma => ma) [1; 0]
    (message_create MESSAGE_TYPE_INSERT stored_tuple)
    (timestamps_update_message {| lock_bit := false; delta := 10; wts := 5 |})
  = Ret (0,
         message_create MESSAGE_TYPE_INSERT
           (tuple_header_bytes {| is_ts_update := false; tuple_delta := 10 mod 2 ^ 64;
                                  tuple_wts := 5 mod 2 ^ 63 |} ++ [118]),
         message_create MESSAGE_TYPE_INSERT
           (tuple_header_bytes {| is_ts_update := false; tuple_delta := 10 mod 2 ^ 64;
                                  tuple_wts := 5 mod 2 ^ 63 |} ++ [118])).
Proof.
  apply (timestamps_update_merges_into_tuple (fun _ _ ma => ma) [1; 0]
           MESSAGE_TYPE_INSERT
           {| is_ts_update := false; tuple_delta := 3; tuple_wts := 9 |} [118]
           {| lock_bit := false; delta := 10; wts := 5 |} eq_refl).
Defined.

(** X12. A timestamp-only update that lies below a newer message is
    discarded: when the old message has [is_ts_update = 1],
    [merge_fantasticc_tuple] returns 0 and leaves the accumulator (and the old
    message) as they are, whatever the accumulator holds; of two write-backs
    of timestamps for a key only the newer one survives a merge. *)
Theorem older_timestamps_update_is_discarded
    (data_merge_tuples : slice -> message -> merge_accumulator -> merge_accumulator)
    (k : slice) (c : message_type) (h : tuple_header) (rest : list Z)
    (new_message : merge_accumulator) :
  is_ts_update h = true ->
  merge_fantasticc_tuple data_merge_tuples k
    (message_create c (tuple_header_bytes h ++ rest)) new_message
  = Ret (0, message_create c (tuple_header_bytes h ++ rest), new_message).
Proof.
  intros Hflag. unfold merge_fantasticc_tuple, is_message_timestamps_update.
  cbn [message_data message_create]. rewrite read_tuple_header_bytes.
  cbn [is_ts_update]. by rewrite Hflag.
Qed.

Lemma older_timestamps_update_is_discarded_witness :
  merge_fantasticc_tuple (fun _ _ ma => ma) [1; 0]
    (timestamps_update_message {| lock_bit := false; delta := 3; wts := 9 |})
    (timestamps_update_message {| lock_bit := false; delta := 10; wts := 5 |})
  = Ret (0,
         timestamps_update_message {| lock_bit := false; delta := 3; wts := 9 |},
         timestamps_update_message {| lock_bit := false; delta := 10; wts := 5 |}).
Proof.
  pose proof (older_timestamps_update_is_discarded (fun _ _ ma => ma) [1; 0]
                MESSAGE_TYPE_UPDATE
                (timestamp_set_as_header
                   (set_lock_bit {| lock_bit := false; delta := 3; wts := 9 |} true))
                []
                (timestamps_update_message {| lock_bit := false; delta := 10; wts := 5 |})
                eq_refl) as H.
  rewrite app_nil_r in H. exact H.
Defined.

(** X13. Two data messages: when neither the old message nor the accumulator
    is a timestamp-only update, [merge_fantasticc_tuple] returns 0 and leaves
    in the accumulator the header of the newer message (so its timestamps),
    followed by what the application's merge makes of the two values with
    their headers stripped, under the class of the old message. *)
Theorem data_messages_merge_under_newer_header
    (data_merge_tuples : slice -> message -> merge_accumulator -> merge_accumulator)
    (k : slice) (c_old c_new : message_type) (h_old h_new : tuple_header)
    (v_old v_new : list Z) :
  is_ts_update h_old = false ->
  is_ts_update h_new = false ->
  merge_fantasticc_tuple data_merge_tuples k
    (message_create c_old (tuple_header_bytes h_old ++ v_old))
    (message_create c_new (tuple_header_bytes h_new ++ v_new))
  = Ret (0, message_create c_old (tuple_header_bytes h_old ++ v_old),
         message_create c_old
           (tuple_header_bytes h_new
            ++ message_data (data_merge_tuples k (message_create c_old v_old)
                               (message_create c_new v_new)))).
Proof.
  intros Hold Hnew. unfold merge_fantasticc_tuple, is_message_timestamps_update.
  cbn [message_data message_class message_create].
  rewrite !read_tuple_header_bytes. cbn [is_ts_update]. rewrite Hold, Hnew.
  unfold get_app_value_from_merge_accumulator, get_app_value_from_message.
  cbn [message_data message_class message_create].
  rewrite !drop_header.
  by rewrite take_header.
Qed.

Lemma data_messages_merge_under_newer_header_witness :
  merge_fantasticc_tuple
    (fun _ old ma => message_create MESSAGE_TYPE_UPDATE
                       (message_data old ++ message_data ma))
    [1; 0]
    (message_create MESSAGE_TYPE_INSERT stored_tuple)
    (message_create MESSAGE_TYPE_UPDATE
       (tuple_header_bytes {| is_ts_update := false; tuple_delta := 0; tuple_wts := 12 |}
        ++ [7]))
  = Ret (0, message_create MESSAGE_TYPE_INSERT stored_tuple,
         message_create MESSAGE_TYPE_INSERT
           (tuple_header_bytes {| is_ts_update := false; tuple_delta := 0; tuple_wts := 12 |}
            ++ [118; 7])).
Proof.
  apply (data_messages_merge_under_newer_header
           (fun _ old ma => message_create MESSAGE_TYPE_UPDATE
                              (message_data old ++ message_data ma))
           [1; 0] MESSAGE_TYPE_INSERT MESSAGE_TYPE_UPDATE
           {| is_ts_update := false; tuple_delta := 3; tuple_wts := 9 |}
           {| is_ts_update := false; tuple_delta := 0; tuple_wts := 12 |}
           [118] [7] eq_refl eq_refl).
Defined.

(** X14. [merge_fantasticc_tuple_final]: on a timestamp-only update (a key
    for which only timestamps were ever written back) the [platform_assert]
    fires; on a data message it returns 0 and leaves the header as it was,
    followed by what the application's final merge makes of the value, and the
    class of the message as it was: the class that the application's final
    merge gives its result is not copied to the message. *)
Theorem final_merge_asserts_on_timestamps_update
    (data_merge_tuples_final : slice -> merge_accumulator -> merge_accumulator)
    (k : slice) (c : message_type) (h : tuple_header) (rest : list Z) :
  (is_ts_update h = true ->
   merge_fantasticc_tuple_final data_merge_tuples_final k
     (message_create c (tuple_header_bytes h ++ rest))
   = Fail AssertionFailed)
  /\ (is_ts_update h = false ->
      merge_fantasticc_tuple_final data_merge_tuples_final k
        (message_create c (tuple_header_bytes h ++ rest))
      = Ret (0, message_create c
                  (tuple_header_bytes h
                   ++ message_data (data_merge_tuples_final k (message_create c rest))))).
Proof.
  split; intros Hflag;
    unfold merge_fantasticc_tuple_final, is_merge_accumulator_timestamps_update,
      is_message_timestamps_update;
    cbn [message_data message_class message_create];
    rewrite read_tuple_header_bytes; cbn [is_ts_update]; rewrite Hflag; [done|].
  unfold get_app_value_from_merge_accumulator, get_app_value_from_message.
  cbn [message_data message_class message_create].
  rewrite drop_header.
  by rewrite take_header.
Qed.


(** ** The batched rwlock without interference *)

Lemma rw_interfere_quiet s : rw_others s = [] -> rw_interfere s = s.
Proof. unfold rw_interfere. by intros ->. Qed.

Lemma get_write_lock_set l idx v idx' :
  get_write_lock (set_write_lock l idx v) idx'
  = if decide (idx' = idx) then v else get_write_lock l idx'.
Proof.
  unfold get_write_lock, set_write_lock. cbn. case_decide as H.
  - subst. by rewrite lookup_insert_eq.
  - by rewrite lookup_insert_ne.
Qed.

Lemma get_read_counter_set_write l idx v tid idx' :
  get_read_counter (set_write_lock l idx v) tid idx' = get_read_counter l tid idx'.
Proof. done. Qed.

Lemma get_read_counter_set l tid idx v tid' idx' :
  get_read_counter (set_read_counter l tid idx v) tid' idx'
  = if decide ((tid', idx') = (tid, idx)) then v else get_read_counter l tid' idx'.
Proof.
  unfold get_read_counter, set_read_counter. cbn. case_decide as H.
  - rewrite H. by rewrite lookup_insert_eq.
  - by rewrite lookup_insert_ne.
Qed.

Lemma get_write_lock_set_read l tid idx v idx' :
  get_write_lock (set_read_counter l tid idx v) idx' = get_write_lock l idx'.
Proof. done. Qed.

(** A spin loop whose probe finds nothing to wait for ends at once. *)
Lemma spin_while_free fuel probe wait s :
  probe s = (s, false) -> spin_while (S fuel) probe wait s = (s, Some tt).
Proof. intros H. cbn [spin_while]. by rewrite H. Qed.

(** A spin loop whose probe depends on the lock word alone and finds it
    contended never ends when nobody changes the lock. *)
Lemma spin_while_stuck probe (l : platform_batch_rwlock) :
  (forall s, rw_lock s = l -> rw_others s = [] -> probe s = (s, true)) ->
  forall fuel wait s, rw_lock s = l -> rw_others s = [] ->
  (spin_while fuel probe wait s).2 = None
  /\ rw_lock (spin_while fuel probe wait s).1 = l
  /\ rw_others (spin_while fuel probe wait s).1 = [].
Proof.
  intros Hprobe. induction fuel as [|fuel IH]; intros wait s Hl Hq; cbn [spin_while].
  { done. }
  rewrite (Hprobe s Hl Hq). apply IH; done.
Qed.

Lemma probe_reader_quiet skip i idx s :
  rw_others s = [] ->
  probe_reader skip i idx s
  = (s, if decide (skip = Some i) then false
        else negb (get_read_counter (rw_lock s) i idx =? 0)).
Proof.
  intros Hq. unfold probe_reader, load_read_counter. case_decide; [done|].
  by rewrite (rw_interfere_quiet s Hq).
Qed.

Lemma wait_for_readers_free fuel skip tids idx s :
  rw_others s = [] ->
  (forall i, i ∈ tids -> skip <> Some i -> get_read_counter (rw_lock s) i idx = 0) ->
  wait_for_readers (S fuel) skip tids idx s = (s, Some tt).
Proof.
  intros Hq. induction tids as [|i rest IH]; intros Hfree; cbn [wait_for_readers]; [done|].
  rewrite spin_while_free.
  - apply IH. intros j Hj. apply Hfree. by apply elem_of_cons; right.
  - rewrite probe_reader_quiet by done. case_decide as Hs; [done|].
    rewrite (Hfree i) by (done || by apply elem_of_cons; left). done.
Qed.

Lemma wait_for_readers_stuck skip tids idx s i :
  rw_others s = [] ->
  i ∈ tids -> skip <> Some i -> get_read_counter (rw_lock s) i idx <> 0 ->
  forall fuel,
    (wait_for_readers fuel skip tids idx s).2 = None
    /\ rw_lock (wait_for_readers fuel skip tids idx s).1 = rw_lock s.
Proof.
  intros Hq Hin Hskip Hc fuel.
  induction tids as [|j rest IH]; [by apply elem_of_nil in Hin|].
  cbn [wait_for_readers].
  destruct (decide (skip <> Some j /\ get_read_counter (rw_lock s) j idx <> 0))
    as [[Hsj Hcj]|Hfree].
  - destruct (spin_while_stuck (probe_reader skip j idx) (rw_lock s)) with
      (fuel := fuel) (wait := 1) (s := s) as (Hn & Hl & _); try done.
    { intros s' Hl' Hq'. rewrite probe_reader_quiet by done.
      rewrite decide_False by done. rewrite Hl'.
      apply Z.eqb_neq in Hcj. by rewrite Hcj. }
    destruct (spin_while fuel (probe_reader skip j idx) 1 s) as [s1 [[]|]]; done.
  - destruct fuel as [|fuel]; [done|].
    rewrite spin_while_free.
    + apply elem_of_cons in Hin as [->|Hin]; [tauto|]. destruct fuel; by apply IH.
    + rewrite probe_reader_quiet by done. case_decide as Hs; [done|].
      destruct (decide (get_read_counter (rw_lock s) j idx = 0)) as [->|Hne]; [done|].
      tauto.
Qed.

Lemma elem_of_thread_ids MAX_THREADS i : i ∈ thread_ids MAX_THREADS <-> 0 <= i < MAX_THREADS.
Proof.
  unfold thread_ids. rewrite list_elem_of_In, in_map_iff. split.
  - intros (n & <- & Hn%in_seq). lia.
  - intros Hi. exists (Z.to_nat i). split; [lia|]. apply in_seq. lia.
Qed.


(** X15. [platform_batch_rwlock_try_writelock] gives up at once when the write
    flag is taken: whatever the other threads do and whatever fuel it has, if
    the test-and-set finds the flag set it returns FALSE without sleeping and
    without looking at a read counter; the flag stays set and the counters are
    as the other threads left them. *)
Theorem try_writelock_fails_at_once (fuel : nat) (MAX_THREADS tid lock_idx : Z)
    (s : rw_state) :
  get_write_lock (rw_lock (rw_interfere s)) lock_idx <> 0 ->
  let r := platform_batch_rwlock_try_writelock fuel MAX_THREADS tid lock_idx s in
  r.2 = Some false
  /\ rw_sleeps r.1 = rw_sleeps s
  /\ rw_others r.1 = rw_others (rw_interfere s)
  /\ get_write_lock (rw_lock r.1) lock_idx = 1
  /\ forall i idx, get_read_counter (rw_lock r.1) i idx
                   = get_read_counter (rw_lock (rw_interfere s)) i idx.
Proof.
  intros Hheld. cbv zeta.
  unfold platform_batch_rwlock_try_writelock, test_and_set_write_lock.
  apply Z.eqb_neq in Hheld. rewrite Hheld. cbn [negb fst snd rw_update rw_lock rw_sleeps rw_others].
  rewrite rw_interfere_sleeps, get_write_lock_set, decide_True by done. done.
Qed.

Lemma try_writelock_fails_at_once_witness :
  (platform_batch_rwlock_try_writelock 0 4 2 0 write_locked).2 = Some false
  /\ rw_sleeps (platform_batch_rwlock_try_writelock 0 4 2 0 write_locked).1 = [].
Proof.
  destruct (try_writelock_fails_at_once 0 4 2 0 write_locked) as (H1 & H2 & _).
  - vm_compute. discriminate.
  - split; [exact H1|exact H2].
Defined.

(** X16. [platform_batch_rwlock_try_writelock] on a free write flag, when no
    other thread touches the lock: if no thread other than the caller holds a
    read lock of the index it returns TRUE without sleeping, with the flag set
    and every counter as it was (a read lock of the caller itself is passed
    over); if another thread holds a read lock it does not return FALSE but
    waits, for ever if the reader stays, with the write flag set. *)
Theorem try_writelock_waits_for_other_readers (fuel : nat)
    (MAX_THREADS tid lock_idx : Z) (s : rw_state) :
  rw_others s = [] ->
  get_write_lock (rw_lock s) lock_idx = 0 ->
  let r := platform_batch_rwlock_try_writelock fuel MAX_THREADS tid lock_idx s in
  get_write_lock (rw_lock r.1) lock_idx = 1
  /\ (forall i idx, get_read_counter (rw_lock r.1) i idx
                    = get_read_counter (rw_lock s) i idx)
  /\ (no_reader MAX_THREADS (Some tid) lock_idx (rw_lock s) ->
      (0 < fuel)%nat ->
      r.2 = Some true /\ rw_sleeps r.1 = rw_sleeps s)
  /\ ((exists i, 0 <= i < MAX_THREADS /\ i <> tid
                 /\ get_read_counter (rw_lock s) i lock_idx <> 0) ->
      r.2 = None).
Proof.
  intros Hq Hfree. cbv zeta.
  unfold platform_batch_rwlock_try_writelock, test_and_set_write_lock.
  rewrite (rw_interfere_quiet s Hq), Hfree. cbn [Z.eqb negb].
  set (s1 := rw_update (fun l => set_write_lock l lock_idx 1) s).
  assert (Hq1 : rw_others s1 = []) by done.
  assert (Hflag1 : get_write_lock (rw_lock s1) lock_idx = 1).
  { unfold s1. cbn. by rewrite get_write_lock_set, decide_True. }
  assert (Hc1 : forall i idx, get_read_counter (rw_lock s1) i idx
                              = get_read_counter (rw_lock s) i idx) by done.
  destruct (decide (Exists (fun i => Some tid <> Some i
                                     /\ get_read_counter (rw_lock s1) i lock_idx <> 0)
                      (thread_ids MAX_THREADS)))
    as [(i & Hi & Hskip & Hc)%Exists_exists|Hnone].
  - destruct (wait_for_readers_stuck (Some tid) (thread_ids MAX_THREADS) lock_idx s1 i
                Hq1 Hi Hskip Hc fuel) as [Hn Hl].
    destruct (wait_for_readers fuel (Some tid) (thread_ids MAX_THREADS) lock_idx s1)
      as [s2 [[]|]]; [done|]. cbn [fst snd] in *.
    rewrite Hl. split; [done|]. split; [done|]. split; [|done].
    intros Hno _. exfalso. apply Hc. rewrite Hc1. apply Hno; [|done].
    by apply elem_of_thread_ids.
  - assert (Hall : forall i, i ∈ thread_ids MAX_THREADS -> Some tid <> Some i ->
                     get_read_counter (rw_lock s1) i lock_idx = 0).
    { intros i Hi Hskip.
      destruct (decide (get_read_counter (rw_lock s1) i lock_idx = 0)); [done|].
      exfalso. apply Hnone. apply Exists_exists. by exists i. }
    destruct fuel as [|fuel].
    + assert (Hl : rw_lock (wait_for_readers 0 (Some tid) (thread_ids MAX_THREADS)
                              lock_idx s1).1 = rw_lock s1).
      { clear. induction (thread_ids MAX_THREADS) as [|j rest IH]; done. }
      destruct (wait_for_readers 0 (Some tid) (thread_ids MAX_THREADS) lock_idx s1)
        as [s2 [[]|]]; cbn [fst snd] in *; rewrite Hl;
        (split; [done|]); (split; [done|]); (split; [intros; lia|]);
        intros (i & Hi & Hne & Hc); exfalso; apply Hc; rewrite <- Hc1;
        apply Hall; [by apply elem_of_thread_ids|congruence
                    |by apply elem_of_thread_ids|congruence].
    + rewrite (wait_for_readers_free fuel (Some tid) _ lock_idx s1 Hq1 Hall).
      cbn [fst snd]. split; [done|]. split; [done|]. split; [done|].
      intros (i & Hi & Hne & Hc). exfalso. apply Hc. rewrite <- Hc1.
      apply Hall; [by apply elem_of_thread_ids|congruence].
Qed.

Lemma try_writelock_waits_for_other_readers_witness :
  (platform_batch_rwlock_try_writelock 5 4 1 0 read_locked_by_1).2 = Some true
  /\ (platform_batch_rwlock_try_writelock 5 4 2 0 read_locked_by_1).2 = None.
Proof.
  split.
  - destruct (try_writelock_waits_for_other_readers 5 4 1 0 read_locked_by_1
                eq_refl eq_refl) as (_ & _ & Hok & _).
    apply Hok; [|lia]. intros i Hi Hskip.
    cbn. rewrite get_read_counter_set. case_decide as Heq; [|done].
    injection Heq as ->. done.
  - destruct (try_writelock_waits_for_other_readers 5 4 2 0 read_locked_by_1
                eq_refl eq_refl) as (_ & _ & _ & Hwait).
    apply Hwait. exists 1. split; [lia|]. split; [lia|]. vm_compute. discriminate.
Defined.

(** X17. [platform_batch_rwlock_writelock] counts the caller among the
    readers: its loop over the read counters has no [i != tid]. When no other
    thread touches the lock, a thread of the lock's range that holds a read
    lock of an index never gets the write lock of that index from
    [platform_batch_rwlock_writelock], whatever the fuel, while
    [platform_batch_rwlock_try_writelock] from the same state (free flag, no
    other reader) succeeds. *)
Theorem writelock_waits_for_the_callers_own_read_lock (fuel fuel' : nat)
    (MAX_THREADS tid lock_idx : Z) (s : rw_state) :
  rw_others s = [] ->
  0 <= tid < MAX_THREADS ->
  get_read_counter (rw_lock s) tid lock_idx <> 0 ->
  (platform_batch_rwlock_writelock fuel MAX_THREADS lock_idx s).2 = None
  /\ (get_write_lock (rw_lock s) lock_idx = 0 ->
      no_reader MAX_THREADS (Some tid) lock_idx (rw_lock s) ->
      (platform_batch_rwlock_try_writelock (S fuel') MAX_THREADS tid lock_idx s).2
      = Some true).
Proof.
  intros Hq Htid Hc. split.
  - unfold platform_batch_rwlock_writelock.
    destruct (spin_while fuel (probe_write_lock_tas lock_idx) 1 s) as [s1 [[]|]] eqn:Espin;
      [|done].
    assert (Hs1 : rw_others s1 = []
                  /\ forall i idx, get_read_counter (rw_lock s1) i idx
                                   = get_read_counter (rw_lock s) i idx).
    { clear -Hq Espin. revert s Hq Espin. generalize 1.
      induction fuel as [|fuel IH]; intros wait s Hq; cbn [spin_while]; [done|].
      unfold probe_write_lock_tas, test_and_set_write_lock.
      rewrite (rw_interfere_quiet s Hq).
      destruct (negb _).
      - intros Espin. apply IH in Espin as [? Hsame]; [|done]. split; [done|].
        intros i idx. by rewrite Hsame.
      - intros [= <-]. done. }
    destruct Hs1 as [Hq1 Hc1].
    apply (wait_for_readers_stuck None (thread_ids MAX_THREADS) lock_idx s1 tid);
      [done|by apply elem_of_thread_ids|done|by rewrite Hc1].
  - intros Hfree Hno.
    destruct (try_writelock_sleeps (S fuel') MAX_THREADS tid lock_idx s) as [_ _].
    pose proof (wait_for_readers_free fuel' (Some tid) (thread_ids MAX_THREADS) lock_idx
                  (rw_update (fun l => set_write_lock l lock_idx 1) s)) as Hw.
    unfold platform_batch_rwlock_try_writelock, test_and_set_write_lock.
    rewrite (rw_interfere_quiet s Hq), Hfree. cbn [Z.eqb negb].
    rewrite Hw; [done|done|].
    intros i Hi Hskip. cbn. apply Hno; [by apply elem_of_thread_ids|done].
Qed.

Lemma writelock_waits_for_the_callers_own_read_lock_witness :
  (platform_batch_rwlock_writelock 9 4 0 read_locked_by_1).2 = None
  /\ (platform_batch_rwlock_try_writelock 1 4 1 0 read_locked_by_1).2 = Some true.
Proof.
  destruct (writelock_waits_for_the_callers_own_read_lock 9 0 4 1 0 read_locked_by_1
              eq_refl ltac:(lia) ltac:(vm_compute; discriminate)) as [Hw Ht].
  split; [exact Hw|]. apply Ht; [done|].
  intros i Hi Hskip. cbn. rewrite get_read_counter_set. case_decide as Heq; [|done].
  injection Heq as ->. done.
Defined.

Lemma spin_while_passes fuel probe wait s s1 :
  probe s = (s1, false) -> spin_while (S fuel) probe wait s = (s1, Some tt).
Proof. intros H. cbn [spin_while]. by rewrite H. Qed.

(** X18. Taking and releasing the write lock, when no other thread touches the
    lock: on a lock whose flag of the index is free and on which no thread
    holds a read lock of the index, [platform_batch_rwlock_writelock] returns
    without sleeping, with the flag set to 1 and all else unchanged, and
    [platform_batch_rwlock_unwritelock] then leaves every flag and every
    counter as they were before the two calls. *)
Theorem writelock_then_unwritelock_restores (fuel : nat) (MAX_THREADS lock_idx : Z)
    (s : rw_state) :
  rw_others s = [] ->
  get_write_lock (rw_lock s) lock_idx = 0 ->
  no_reader MAX_THREADS None lock_idx (rw_lock s) ->
  let r := platform_batch_rwlock_writelock (S fuel) MAX_THREADS lock_idx s in
  r.2 = Some tt
  /\ rw_sleeps r.1 = rw_sleeps s
  /\ get_write_lock (rw_lock r.1) lock_idx = 1
  /\ (forall i idx, get_read_counter (rw_lock r.1) i idx
                    = get_read_counter (rw_lock s) i idx)
  /\ same_lock (rw_lock (platform_batch_rwlock_unwritelock lock_idx r.1)) (rw_lock s).
Proof.
  intros Hq Hfree Hno. cbv zeta. unfold platform_batch_rwlock_writelock.
  set (s1 := rw_update (fun l => set_write_lock l lock_idx 1) s).
  rewrite (spin_while_passes fuel _ 1 s s1).
  2:{ unfold probe_write_lock_tas, test_and_set_write_lock.
      by rewrite (rw_interfere_quiet s Hq), Hfree. }
  rewrite wait_for_readers_free; [|done|].
  2:{ intros i Hi _. cbn. apply Hno; [by apply elem_of_thread_ids|done]. }
  cbn [fst snd]. split; [done|]. split; [done|].
  split; [unfold s1; cbn; by rewrite get_write_lock_set, decide_True|].
  split; [done|].
  unfold platform_batch_rwlock_unwritelock.
  rewrite (rw_interfere_quiet s1) by done. unfold s1. cbn. split.
  - intros idx. rewrite !get_write_lock_set. case_decide; [by subst|done].
  - done.
Qed.

Lemma writelock_then_unwritelock_restores_witness :
  (platform_batch_rwlock_writelock 1 4 0 free_lock).2 = Some tt
  /\ same_lock
       (rw_lock (platform_batch_rwlock_unwritelock 0
                   (platform_batch_rwlock_writelock 1 4 0 free_lock).1))
       (rw_lock free_lock).
Proof.
  destruct (writelock_then_unwritelock_restores 0 4 0 free_lock eq_refl eq_refl)
    as (H1 & _ & _ & _ & H2); [done|]. split; [exact H1|exact H2].
Defined.

(** X19. Taking and releasing a read lock, when no other thread touches the
    lock: on a lock whose write flag of the index is free,
    [platform_batch_rwlock_readlock] returns without sleeping, having added 1
    to the caller's counter of the index (an 8-bit counter) and changed nothing
    else, and [platform_batch_rwlock_unreadlock] then leaves every flag and
    every counter as they were before the two calls. *)
Theorem readlock_then_unreadlock_restores (fuel : nat) (tid lock_idx : Z)
    (s : rw_state) :
  rw_others s = [] ->
  get_write_lock (rw_lock s) lock_idx = 0 ->
  0 <= get_read_counter (rw_lock s) tid lock_idx < 256 ->
  let r := platform_batch_rwlock_readlock (S fuel) tid lock_idx s in
  r.2 = Some tt
  /\ rw_sleeps r.1 = rw_sleeps s
  /\ get_read_counter (rw_lock r.1) tid lock_idx
     = (get_read_counter (rw_lock s) tid lock_idx + 1) mod 256
  /\ (forall idx, get_write_lock (rw_lock r.1) idx = get_write_lock (rw_lock s) idx)
  /\ same_lock (rw_lock (platform_batch_rwlock_unreadlock tid lock_idx r.1)) (rw_lock s).
Proof.
  intros Hq Hfree Hc. cbv zeta. cbn [platform_batch_rwlock_readlock].
  rewrite (spin_while_passes fuel _ 1 s s).
  2:{ unfold probe_write_lock, load_write_lock.
      by rewrite (rw_interfere_quiet s Hq), Hfree. }
  unfold fetch_and_add_read_counter, load_write_lock.
  rewrite (rw_interfere_quiet s Hq).
  set (s2 := rw_update _ s).
  assert (Hq2 : rw_others s2 = []) by done.
  rewrite (rw_interfere_quiet s2 Hq2).
  assert (Hw2 : forall idx, get_write_lock (rw_lock s2) idx = get_write_lock (rw_lock s) idx)
    by done.
  rewrite Hw2, Hfree. cbn [Z.eqb fst snd].
  split; [done|]. split; [done|].
  split; [unfold s2; cbn; by rewrite get_read_counter_set, decide_True|].
  split; [done|].
  unfold platform_batch_rwlock_unreadlock, fetch_and_add_read_counter.
  rewrite (rw_interfere_quiet s2 Hq2). unfold s2. cbn. split; [done|].
  intros i idx. rewrite !get_read_counter_set.
  case_decide as Heq; [|done]. injection Heq as -> ->.
  rewrite decide_True by done.
  rewrite Zplus_mod_idemp_l.
  replace (get_read_counter (rw_lock s) tid lock_idx + 1 + -1)
    with (get_read_counter (rw_lock s) tid lock_idx) by lia.
  by apply Z.mod_small.
Qed.

Lemma readlock_then_unreadlock_restores_witness :
  (platform_batch_rwlock_readlock 1 2 0 free_lock).2 = Some tt
  /\ same_lock
       (rw_lock (platform_batch_rwlock_unreadlock 2 0
                   (platform_batch_rwlock_readlock 1 2 0 free_lock).1))
       (rw_lock free_lock).
Proof.
  destruct (readlock_then_unreadlock_restores 0 2 0 free_lock eq_refl eq_refl)
    as (H1 & _ & _ & _ & H2); [change (0 <= 0 < 256); lia|].
  split; [exact H1|exact H2].
Defined.

(** X20. A reader does not enter while the write flag is set: when no other
    thread touches the lock and the write flag of the index is set,
    [platform_batch_rwlock_readlock] never returns, whatever the fuel, and it
    leaves the lock word as it is; in particular it has not touched the
    caller's read counter. *)
Theorem readlock_waits_while_write_locked (fuel : nat) (tid lock_idx : Z)
    (s : rw_state) :
  rw_others s = [] ->
  get_write_lock (rw_lock s) lock_idx <> 0 ->
  let r := platform_batch_rwlock_readlock fuel tid lock_idx s in
  r.2 = None /\ rw_lock r.1 = rw_lock s.
Proof.
  intros Hq Hheld. cbv zeta. destruct fuel as [|fuel]; [done|].
  cbn [platform_batch_rwlock_readlock].
  destruct (spin_while_stuck (probe_write_lock lock_idx) (rw_lock s)) with
    (fuel := S fuel) (wait := 1) (s := s) as (Hn & Hl & _); try done.
  { intros s' Hl' Hq'. unfold probe_write_lock, load_write_lock.
    rewrite (rw_interfere_quiet s' Hq'), Hl'.
    apply Z.eqb_neq in Hheld. by rewrite Hheld. }
  destruct (spin_while (S fuel) (probe_write_lock lock_idx) 1 s) as [s1 [[]|]]; done.
Qed.

Lemma readlock_waits_while_write_locked_witness :
  (platform_batch_rwlock_readlock 20 2 0 write_locked).2 = None
  /\ rw_lock (platform_batch_rwlock_readlock 20 2 0 write_locked).1 = rw_lock write_locked.
Proof.
  apply (readlock_waits_while_write_locked 20 2 0 write_locked eq_refl).
  vm_compute. discriminate.
Defined.


(** ** platform.c: buffers *)

Lemma strncmp_eq_take (s1 s2 : list Z) (n : nat) :
  Forall (fun c => c <> 0) s1 -> Forall (fun c => c <> 0) s2 ->
  strncmp s1 s2 n = 0 <-> take n s1 = take n s2.
Proof.
  revert s1 s2. induction n as [|n IH]; intros s1 s2 H1 H2; cbn [strncmp].
  { cbn. by split. }
  destruct s1 as [|c1 r1], s2 as [|c2 r2]; cbn [take].
  - done.
  - apply Forall_cons in H2 as [Hc _]. split; [lia|done].
  - apply Forall_cons in H1 as [Hc _]. split; [lia|done].
  - apply Forall_cons in H1 as [_ H1]. apply Forall_cons in H2 as [_ H2].
    destruct (c1 =? c2) eqn:E.
    + apply Z.eqb_eq in E as ->. rewrite (IH r1 r2 H1 H2). split; [by intros ->|].
      by intros [= ->].
    + apply Z.eqb_neq in E. split; [lia|]. intros [= ? _]. done.
Qed.

(** X21. [platform_buffer_create] takes the persistent-memory branch by the
    first ten characters of the path alone: [strncmp] is given the length 10,
    one less than the literal ["/mnt/pmem0/"] has, so every path that starts
    with ["/mnt/pmem0"] is opened and mapped as a file, with or without the
    slash after it, and no other path is. *)
Theorem pmem_branch_taken_by_ten_characters (env : buffer_env) (len : Z)
    (path : list Z) :
  Forall (fun c => c <> 0) path ->
  env_malloc_ok env = true ->
  let calls := (platform_buffer_create env len (Some path)).1 in
  (take 10 path = [47; 109; 110; 116; 47; 112; 109; 101; 109; 48]
   <-> CallStat path ∈ calls)
  /\ (take 10 path <> [47; 109; 110; 116; 47; 112; 109; 101; 109; 48]
      <-> exists flags, CallMmap len flags (-1) ∈ calls /\ MAP_ANONYMOUS ∈ flags).
Proof.
  intros Hpath Hmalloc. cbv zeta.
  assert (Hprefix : Forall (fun c => c <> 0) pmem_prefix) by (repeat constructor; lia).
  pose proof (strncmp_eq_take path pmem_prefix 10 Hpath Hprefix) as Hcmp.
  change (take 10 pmem_prefix) with [47; 109; 110; 116; 47; 112; 109; 101; 109; 48] in Hcmp.
  unfold platform_buffer_create. rewrite Hmalloc. cbn [negb].
  destruct (strncmp path pmem_prefix 10 =? 0) eqn:E.
  - apply Z.eqb_eq in E. apply Hcmp in E. clear Hcmp Hpath Hprefix. split.
    + split; [intros _|done].
      unfold platform_get_fd.
      repeat (match goal with |- context [if ?b then _ else _] => destruct b end);
        cbn; by repeat constructor.
    + split; [done|]. intros (flags & Hin & Hanon). exfalso.
      unfold platform_get_fd in Hin.
      repeat (match type of Hin with context [if ?b then _ else _] => destruct b end);
        cbn in Hin;
        repeat (rewrite ?elem_of_app, ?elem_of_cons, ?elem_of_nil in Hin);
        repeat (destruct Hin as [Hin|Hin]); try done;
        injection Hin as -> _; 
        repeat (apply elem_of_cons in Hanon as [Hanon|Hanon]; [discriminate|]);
        by apply elem_of_nil in Hanon.
  - apply Z.eqb_neq in E. assert (Hne : take 10 path <>
        [47; 109; 110; 116; 47; 112; 109; 101; 109; 48]) by (intros H; by apply E, Hcmp).
    clear Hcmp Hpath Hprefix E. split.
    + split; [done|]. intros Hin. exfalso.
      repeat (match type of Hin with context [if ?b then _ else _] => destruct b end);
        cbn in Hin;
        repeat (rewrite ?elem_of_app, ?elem_of_cons, ?elem_of_nil in Hin);
        repeat (destruct Hin as [Hin|Hin]); done.
    + split; [intros _|done].
      exists ([MAP_PRIVATE; MAP_ANONYMOUS; MAP_NORESERVE]
              ++ (if platform_use_hugetlb env then [MAP_HUGETLB] else [])).
      split; [|apply elem_of_app; left; apply elem_of_cons; right;
                by apply elem_of_cons; left].
      set (flags := _ ++ _).
      destruct (platform_use_mlock env), (env_mlock env =? 0),
        (env_mmap env =? MAP_FAILED); cbn [fst negb app];
        by repeat constructor.
Qed.

Lemma pmem_branch_taken_by_ten_characters_witness :
  CallStat [47; 109; 110; 116; 47; 112; 109; 101; 109; 48; 49; 47; 120]
  ∈ (platform_buffer_create all_succeeds 4096
       (Some [47; 109; 110; 116; 47; 112; 109; 101; 109; 48; 49; 47; 120])).1.
Proof.
  refine (proj1 (proj1 (pmem_branch_taken_by_ten_characters all_succeeds 4096
    [47; 109; 110; 116; 47; 112; 109; 101; 109; 48; 49; 47; 120] _ _)) _).
  - repeat constructor; lia.
  - reflexivity.
  - reflexivity.
Defined.

Lemma buffer_create_cases (env : buffer_env) (len : Z) (pathname : option (list Z)) :
  let '(calls, r) := platform_buffer_create env len pathname in
  match r with
  | Fail f =>
      (f = MemoryFault /\ env_malloc_ok env = false /\ calls = [CallMalloc])
      \/ (f = AssertionFailed /\ env_malloc_ok env = true /\ (CallFree ∉ calls))
  | Ret None =>
      env_malloc_ok env = true
      /\ last calls = Some CallFree
      /\ (env_mmap env = MAP_FAILED
          \/ (env_mlock env <> 0 /\ CallMunmap (env_mmap env) len ∈ calls))
  | Ret (Some bh) =>
      env_malloc_ok env = true
      /\ bh = {| bh_addr := env_mmap env; bh_length := len |}
      /\ env_mmap env <> MAP_FAILED
      /\ (CallFree ∉ calls)
      /\ (forall a l, CallMunmap a l ∉ calls)
      /\ (exists flags fd, CallMmap len flags fd ∈ calls)
  end.
Proof.
  unfold platform_buffer_create, platform_get_fd.
  destruct (env_malloc_ok env); cbn [negb]; [|by left].
  destruct pathname as [path|];
    repeat (match goal with
            | |- context [if ?b then _ else _] => destruct b eqn:?
            end; cbn [negb app fst snd]);
    repeat match goal with
           | H : (_ =? _) = true |- _ => apply Z.eqb_eq in H
           | H : (_ =? _) = false |- _ => apply Z.eqb_neq in H
           | H : negb _ = true |- _ => apply negb_true_iff in H
           | H : negb _ = false |- _ => apply negb_false_iff in H
           end;
    try (right; split_and!; [done..|]);
    split_and?; try done;
    try (intros a l);
    try (by left);
    try (right; split; [done|]);
    try (do 2 eexists);
    try (by repeat constructor);
    intros Hin;
    repeat (apply elem_of_cons in Hin as [Hin|Hin]; [discriminate|]);
    by apply elem_of_nil in Hin.
Qed.

(** X22. [platform_buffer_create] returns a handle only for a mapping that was
    made: its address is what [mmap] answered and is not [MAP_FAILED], its
    length is the one asked for, and nothing was freed or unmapped. When it
    returns [NULL] the last thing it did was to free the handle, and either
    [mmap] had failed or [mlock] had, in which case the mapping was unmapped
    first. When the handle itself cannot be allocated nothing is mapped and
    the function writes through the null pointer. *)
Theorem buffer_create_returns_mapping_or_cleans_up (env : buffer_env) (len : Z)
    (pathname : option (list Z)) :
  let '(calls, r) := platform_buffer_create env len pathname in
  (env_malloc_ok env = false -> r = Fail MemoryFault /\ calls = [CallMalloc])
  /\ (forall bh, r = Ret (Some bh) ->
       bh_addr bh = env_mmap env /\ bh_addr bh <> MAP_FAILED /\ bh_length bh = len
       /\ (CallFree ∉ calls) /\ (forall a l, CallMunmap a l ∉ calls)
       /\ (exists flags fd, CallMmap len flags fd ∈ calls))
  /\ (r = Ret None ->
       last calls = Some CallFree
       /\ (env_mmap env = MAP_FAILED
           \/ (env_mlock env <> 0 /\ CallMunmap (env_mmap env) len ∈ calls))).
Proof.
  pose proof (buffer_create_cases env len pathname) as H.
  destruct (platform_buffer_create env len pathname) as [calls r].
  split_and!.
  - intros Hm. rewrite Hm in H.
    destruct r as [[bh|]|f]; [by destruct H..|].
    by destruct H as [(-> & _ & ->)|(_ & ? & _)].
  - intros bh ->. destruct H as (_ & -> & ? & ? & ? & ?). done.
  - intros ->. by destruct H as (_ & ? & ?).
Qed.

(** X23. Creating a buffer and then destroying it: [platform_buffer_destroy]
    unmaps exactly the mapping that [platform_buffer_create] made and returns
    what [munmap] answered, and over the two calls together the handle is
    freed if and only if [munmap] failed. A buffer that is destroyed
    successfully keeps its handle allocated, and one whose [munmap] fails
    loses the handle while the mapping stays. *)
Theorem buffer_destroy_frees_handle_only_on_failure (env : buffer_env) (len : Z)
    (pathname : option (list Z)) (munmap_rc : Z) (bh : buffer_handle) :
  (platform_buffer_create env len pathname).2 = Ret (Some bh) ->
  let created := (platform_buffer_create env len pathname).1 in
  let '(destroyed, status) := platform_buffer_destroy munmap_rc bh in
  status = munmap_rc
  /\ head destroyed = Some (CallMunmap (env_mmap env) len)
  /\ (CallFree ∈ created ++ destroyed <-> munmap_rc <> 0).
Proof.
  intros Hr. cbv zeta.
  pose proof (buffer_create_cases env len pathname) as H.
  destruct (platform_buffer_create env len pathname) as [calls r].
  cbn [fst snd] in *. subst r. destruct H as (_ & -> & _ & Hfree & _).
  unfold platform_buffer_destroy. cbn [bh_addr bh_length app head].
  split_and!; [done..|].
  rewrite elem_of_app, elem_of_cons.
  destruct (munmap_rc =? 0) eqn:E; cbn [negb].
  - apply Z.eqb_eq in E. rewrite elem_of_nil.
    split; [|done]. by intros [?|[?|?]].
  - apply Z.eqb_neq in E. rewrite elem_of_cons.
    split; [done|]. intros _. right. right. by left.
Qed.

Lemma buffer_destroy_frees_handle_only_on_failure_witness :
  CallFree ∉ (platform_buffer_create all_succeeds 4096 None).1
             ++ (platform_buffer_destroy 0 {| bh_addr := 4096; bh_length := 4096 |}).1.
Proof.
  pose proof (buffer_destroy_frees_handle_only_on_failure all_succeeds 4096 None 0
    {| bh_addr := 4096; bh_length := 4096 |} eq_refl) as H.
  cbv zeta in H.
  destruct (platform_buffer_destroy 0 {| bh_addr := 4096; bh_length := 4096 |})
    as [destroyed status].
  destruct H as (_ & _ & H). cbn [fst]. intros Hin. by apply H in Hin.
Defined.
